(** * capture_webstaurant_requests.py: network capture and action classification

    A shallow embedding of the capture script: the performance-log decoder
    ([perf]), the request/response correlator ([collect]), the snapshot
    aggregation and the bucketing done in [main], the selector
    ([pick_best]) and the report ([redact], [print_request]).

    Python values are modelled by [pyval], the values that [json.loads]
    produces: [PFloat m e] is the finite float m * 2^e (NaN and the
    infinities, which JSON does not have, are left out).  Strings are
    modelled by [string], as ASCII text; insertion-ordered dicts by
    association lists; a raised exception by the [Raise] constructor of
    [result]. *)

From Stdlib Require Import List String Ascii ZArith Lia Bool Arith.
From Stdlib Require Import Permutation Sorted.
Import ListNotations.

Set Implicit Arguments.
Set Warnings "-register-all".

Open Scope string_scope.
Open Scope list_scope.
Open Scope Z_scope.

(** ** Python values, exceptions *)

Module Py.

Inductive pyval : Type :=
| PNone
| PBool (b : bool)
| PInt (n : Z)
| PFloat (m e : Z)
| PStr (s : string)
| PList (l : list pyval)
| PDict (d : list (string * pyval)).

Inductive exn : Type :=
| AttributeError
| TypeError
| KeyError
| JSONDecodeError
| ReError.

Inductive result (A : Type) : Type :=
| Ok (a : A)
| Raise (e : exn).

Arguments Ok {A} a.
Arguments Raise {A} e.

Definition bind {A B} (c : result A) (f : A -> result B) : result B :=
  match c with
  | Ok a => f a
  | Raise e => Raise e
  end.

(** [bool(v)]: Python truthiness. *)
Definition truthy (v : pyval) : bool :=
  match v with
  | PNone => false
  | PBool b => b
  | PInt n => negb (n =? 0)
  | PFloat m _ => negb (m =? 0)
  | PStr s => negb (String.eqb s "")
  | PList l => match l with [] => false | _ => true end
  | PDict d => match d with [] => false | _ => true end
  end.

(** [v == s] for a string literal [s]. *)
Definition eq_str (v : pyval) (s : string) : bool :=
  match v with
  | PStr s' => String.eqb s' s
  | _ => false
  end.

Definition is_str (v : pyval) : bool :=
  match v with PStr _ => true | _ => false end.

Definition is_dict (v : pyval) : bool :=
  match v with PDict _ => true | _ => false end.

(** ASCII case mapping: [str.lower], [str.upper]. *)
Definition lower_ascii (c : ascii) : ascii :=
  let n := nat_of_ascii c in
  if ((65 <=? n) && (n <=? 90))%nat then ascii_of_nat (n + 32) else c.

Definition upper_ascii (c : ascii) : ascii :=
  let n := nat_of_ascii c in
  if ((97 <=? n) && (n <=? 122))%nat then ascii_of_nat (n - 32) else c.

Fixpoint lower (s : string) : string :=
  match s with
  | EmptyString => EmptyString
  | String c s' => String (lower_ascii c) (lower s')
  end.

Fixpoint upper (s : string) : string :=
  match s with
  | EmptyString => EmptyString
  | String c s' => String (upper_ascii c) (upper s')
  end.

(** Dict keys.  Numbers that are equal are the same key: [True], [1] and
    [1.0] are one key.  [KFrac n d] is the float n / d, in lowest terms,
    that is not an integer. *)
Inductive key : Type :=
| KNone
| KStr (s : string)
| KInt (n : Z)
| KFrac (n d : Z).

Definition key_eqb (a b : key) : bool :=
  match a, b with
  | KNone, KNone => true
  | KStr s, KStr t => String.eqb s t
  | KInt n, KInt m => n =? m
  | KFrac n d, KFrac n' d' => (n =? n') && (d =? d')
  | _, _ => false
  end.

(** The key of the float m * 2^e. *)
Definition float_key (m e : Z) : key :=
  if 0 <=? e then KInt (m * 2 ^ e)
  else
    let d := 2 ^ (- e) in
    let g := Z.gcd m d in
    if d =? g then KInt (m / d) else KFrac (m / g) (d / g).

(** [hash(v)]: lists and dicts are unhashable. *)
Definition hash_key (v : pyval) : result key :=
  match v with
  | PNone => Ok KNone
  | PBool b => Ok (KInt (if b then 1 else 0))
  | PInt n => Ok (KInt n)
  | PFloat m e => Ok (float_key m e)
  | PStr s => Ok (KStr s)
  | PList _ | PDict _ => Raise TypeError
  end.

(** Insertion-ordered dicts. *)
Section Dict.
Variables K V : Type.
Variable eqb : K -> K -> bool.

Fixpoint dict_get (k : K) (d : list (K * V)) : option V :=
  match d with
  | [] => None
  | (k', v) :: d' => if eqb k k' then Some v else dict_get k d'
  end.

Definition dict_mem (k : K) (d : list (K * V)) : bool :=
  match dict_get k d with Some _ => true | None => false end.

(** [d[k] = v]: an existing key keeps its place, a new one goes last. *)
Fixpoint dict_set (k : K) (v : V) (d : list (K * V)) : list (K * V) :=
  match d with
  | [] => [(k, v)]
  | (k', v') :: d' =>
      if eqb k k' then (k', v) :: d' else (k', v') :: dict_set k v d'
  end.

(** [d.update(e)] *)
Definition dict_update (d e : list (K * V)) : list (K * V) :=
  fold_left (fun acc kv => dict_set (fst kv) (snd kv) acc) e d.

Definition keys (d : list (K * V)) : list K := map fst d.
Definition values (d : list (K * V)) : list V := map snd d.
End Dict.

(** [m.get(k, dflt)] *)
Definition get (m : pyval) (k : string) (dflt : pyval) : result pyval :=
  match m with
  | PDict d =>
      Ok (match dict_get String.eqb k d with Some v => v | None => dflt end)
  | _ => Raise AttributeError
  end.

(** [m[k]] for a string [k] *)
Definition subscript (m : pyval) (k : string) : result pyval :=
  match m with
  | PDict d =>
      match dict_get String.eqb k d with
      | Some v => Ok v
      | None => Raise KeyError
      end
  | _ => Raise TypeError
  end.

(** [v[:n]] *)
Definition slice_to (n : nat) (v : pyval) : result pyval :=
  match v with
  | PStr s => Ok (PStr (substring 0 n s))
  | PList l => Ok (PList (firstn n l))
  | _ => Raise TypeError
  end.

End Py.

Import Py.

Notation "x <- c ;; k" := (bind c (fun x => k))
  (at level 61, c at next level, right associativity).


(** ** Regular expressions: the fragment of [re] used by [ACTIONS]

    [re.search(p, url, re.I)] is modelled by parsing the pattern text into
    a [regex] and matching with derivatives.  The parser covers literals,
    [.], [^], [$], escaped punctuation, character sets without ranges,
    groups, alternation and the quantifiers [*], [+], [?]; every pattern of
    the table is in this fragment. *)

Module Re.

Inductive regex : Type :=
| Fail
| Eps
| Chr (c : ascii)
| Dot
| InSet (cs : list ascii)
| NotSet (cs : list ascii)
| Bol
| Eol
| Cat (r1 r2 : regex)
| Alt (r1 r2 : regex)
| Star (r : regex).

Record frame : Type := mkFrame {
  alts : list regex;   (* finished branches, last first *)
  cur : list regex;    (* atoms of the current branch, last first *)
  rep : bool           (* the last atom may take a quantifier *)
}.

Inductive mode : Type :=
| Normal
| Escaped
| SetOpen
| SetBody (neg : bool) (acc : list ascii).

Record pstate : Type := mkState {
  stack : list frame;
  top : frame;
  md : mode
}.

Definition empty_frame : frame := mkFrame [] [] false.

Definition seq_of (atoms : list regex) : regex :=
  match rev atoms with
  | [] => Eps
  | a :: l => fold_left Cat l a
  end.

Definition close (f : frame) : regex :=
  match rev (seq_of (cur f) :: alts f) with
  | [] => Eps
  | a :: l => fold_left Alt l a
  end.

Definition push_atom (a : regex) (q : bool) (f : frame) : frame :=
  mkFrame (alts f) (a :: cur f) q.

Definition quantify (q : regex -> regex) (f : frame) : option frame :=
  match rep f, cur f with
  | true, a :: l => Some (mkFrame (alts f) (q a :: l) false)
  | _, _ => None
  end.

Definition is_alnum (c : ascii) : bool :=
  let n := nat_of_ascii c in
  ((48 <=? n) && (n <=? 57) || (65 <=? n) && (n <=? 90)
   || (97 <=? n) && (n <=? 122))%nat.

Definition in_set (c : ascii) (cs : list ascii) : bool :=
  existsb (Ascii.eqb c) cs.

Definition step (st : pstate) (c : ascii) : option pstate :=
  match md st with
  | Normal =>
      if Ascii.eqb c "\" then Some (mkState (stack st) (top st) Escaped)
      else if Ascii.eqb c "[" then Some (mkState (stack st) (top st) SetOpen)
      else if Ascii.eqb c "(" then
        Some (mkState (top st :: stack st) empty_frame Normal)
      else if Ascii.eqb c ")" then
        match stack st with
        | f :: fs => Some (mkState fs (push_atom (close (top st)) true f) Normal)
        | [] => None
        end
      else if Ascii.eqb c "|" then
        Some (mkState (stack st)
                (mkFrame (seq_of (cur (top st)) :: alts (top st)) [] false)
                Normal)
      else if Ascii.eqb c "*" then
        option_map (fun f => mkState (stack st) f Normal)
                   (quantify Star (top st))
      else if Ascii.eqb c "+" then
        option_map (fun f => mkState (stack st) f Normal)
                   (quantify (fun a => Cat a (Star a)) (top st))
      else if Ascii.eqb c "?" then
        option_map (fun f => mkState (stack st) f Normal)
                   (quantify (fun a => Alt a Eps) (top st))
      else if Ascii.eqb c "." then
        Some (mkState (stack st) (push_atom Dot true (top st)) Normal)
      else if Ascii.eqb c "^" then
        Some (mkState (stack st) (push_atom Bol false (top st)) Normal)
      else if Ascii.eqb c "$" then
        Some (mkState (stack st) (push_atom Eol false (top st)) Normal)
      else if in_set c ["{"; "}"; "]"]%char then None
      else Some (mkState (stack st) (push_atom (Chr c) true (top st)) Normal)
  | Escaped =>
      if is_alnum c then None
      else Some (mkState (stack st) (push_atom (Chr c) true (top st)) Normal)
  | SetOpen =>
      if Ascii.eqb c "^" then Some (mkState (stack st) (top st) (SetBody true []))
      else if in_set c ["]"; "\"; "-"; "["]%char then None
      else Some (mkState (stack st) (top st) (SetBody false [c]))
  | SetBody neg acc =>
      if Ascii.eqb c "]" then
        match acc with
        | [] => None
        | _ =>
            Some (mkState (stack st)
                    (push_atom (if neg then NotSet acc else InSet acc) true
                       (top st))
                    Normal)
        end
      else if in_set c ["\"; "-"; "["]%char then None
      else Some (mkState (stack st) (top st) (SetBody neg (acc ++ [c])))
  end.

Fixpoint run (st : pstate) (p : string) : option pstate :=
  match p with
  | EmptyString => Some st
  | String c p' =>
      match step st c with
      | Some st' => run st' p'
      | None => None
      end
  end.

(** [re.compile(p)]: [None] is a pattern that is ill-formed or outside the
    fragment. *)
Definition compile (p : string) : option regex :=
  match run (mkState [] empty_frame Normal) p with
  | Some (mkState [] f Normal) => Some (close f)
  | _ => None
  end.

Definition cat (r1 r2 : regex) : regex :=
  match r1, r2 with
  | Fail, _ => Fail
  | _, Fail => Fail
  | Eps, _ => r2
  | _, _ => Cat r1 r2
  end.

Definition alt (r1 r2 : regex) : regex :=
  match r1, r2 with
  | Fail, _ => r2
  | _, Fail => r1
  | _, _ => Alt r1 r2
  end.

Definition newline : ascii := ascii_of_nat 10.

(** With [re.I], characters are compared up to case. *)
Definition chr_eq (a c : ascii) : bool :=
  Ascii.eqb (lower_ascii a) (lower_ascii c).

(** [r] matches the empty string here; [bol]: at the start of the text,
    [rest]: the text from here on.  [$] also matches before a final
    newline. *)
Fixpoint nullable (bol : bool) (rest : string) (r : regex) : bool :=
  match r with
  | Fail => false
  | Eps => true
  | Chr _ | Dot | InSet _ | NotSet _ => false
  | Bol => bol
  | Eol => String.eqb rest "" || String.eqb rest (String newline "")
  | Cat r1 r2 => nullable bol rest r1 && nullable bol rest r2
  | Alt r1 r2 => nullable bol rest r1 || nullable bol rest r2
  | Star _ => true
  end.

(** What is left of [r] once it has consumed [c], the head of [rest]. *)
Fixpoint deriv (bol : bool) (rest : string) (c : ascii) (r : regex) : regex :=
  match r with
  | Fail | Eps | Bol | Eol => Fail
  | Chr a => if chr_eq a c then Eps else Fail
  | Dot => if Ascii.eqb c newline then Fail else Eps
  | InSet cs => if existsb (fun a => chr_eq a c) cs then Eps else Fail
  | NotSet cs => if existsb (fun a => chr_eq a c) cs then Fail else Eps
  | Cat r1 r2 =>
      alt (cat (deriv bol rest c r1) r2)
          (if nullable bol rest r1 then deriv bol rest c r2 else Fail)
  | Alt r1 r2 => alt (deriv bol rest c r1) (deriv bol rest c r2)
  | Star r1 => cat (deriv bol rest c r1) (Star r1)
  end.

(** [r] matches a prefix of [s]. *)
Fixpoint match_here (bol : bool) (r : regex) (s : string) : bool :=
  nullable bol s r ||
  match s with
  | EmptyString => false
  | String c s' => match_here false (deriv bol s c r) s'
  end.

(** [r] matches somewhere in [s]. *)
Fixpoint search_from (bol : bool) (r : regex) (s : string) : bool :=
  match_here bol r s ||
  match s with
  | EmptyString => false
  | String _ s' => search_from false r s'
  end.

(** [re.search(p, u, re.I)] as a truth value: the pattern is compiled
    first, then a text that is not a string is refused. *)
Definition search (p : string) (u : pyval) : result bool :=
  match compile p with
  | None => Raise ReError
  | Some r =>
      match u with
      | PStr s => Ok (search_from true r s)
      | _ => Raise TypeError
      end
  end.

End Re.

(** ** Settings and tables of the script *)

Definition MAX_BODY_CHARS : nat := 2000.
Definition DUMP_FILE : string := "capture_dump.json".

Definition ACTIONS : list (string * list string) :=
  [ ("fetch_product",
     ["/graphql"; "/api/.*product"; "/ajax/.*product"; "/product.*price";
      "/inventory"; "/availability"]);
    ("add_to_cart",
     ["/cart.*add"; "/cart/line"; "/ajax/.*cart"; "/api/.*cart"; "/cart\?"]);
    ("view_cart",
     ["^https://[^/]+/cart/?$"; "/cart(\?|$)"; "/api/.*cart"]);
    ("go_to_checkout",
     ["/checkout"; "/checkout/start"; "/api/.*checkout"; "/ajax/.*checkout"]);
    ("sign_in",
     ["/login"; "/sign-?in"; "/session"; "/oauth"; "/identity";
      "/api/.*auth"; "/auth"]) ].

Definition HIDE_HDRS : list string :=
  ["cookie"; "authorization"; "x-csrf-token"; "x-xsrf-token"].

Definition REDACTED : pyval := PStr "<redacted>".

Definition nl : string := String Re.newline "".

(** ** Records built by [collect] *)

(** [{"seq":…, "url":…, "method":…, "headers":…, "postData":…}] *)
Record RequestRecord : Type := mkReq {
  seq : Z;
  url : pyval;
  method : pyval;
  headers : pyval;
  postData : pyval
}.

(** [{"status":…, "headers":…, "mimeType":…}] *)
Record ResponseRecord : Type := mkResp {
  status : pyval;
  resp_headers : pyval;
  mimeType : pyval
}.

(** [{"phase":…, "reqs":…, "resps":…}] *)
Record PhaseSnapshot : Type := mkSnap {
  phase : string;
  reqs : list (key * RequestRecord);
  resps : list (key * ResponseRecord)
}.

(** [{**rq, "rid": rid}] *)
Record Candidate : Type := mkCand {
  rq : RequestRecord;
  rid : key
}.

(** The value handed to [json.dump]. *)
Record Dump : Type := mkDump {
  created_at : string;
  phases : list PhaseSnapshot
}.

(** ** [redact], [matches] *)

Definition hidden (k : string) : bool :=
  existsb (String.eqb (lower k)) HIDE_HDRS.

Definition redact (h : pyval) : result (list (string * pyval)) :=
  match (if truthy h then h else PDict []) with
  | PDict d =>
      Ok (map (fun kv => (fst kv, if hidden (fst kv) then REDACTED else snd kv)) d)
  | _ => Raise AttributeError
  end.

Fixpoint matches (u : pyval) (pats : list string) : result bool :=
  match pats with
  | [] => Ok false
  | p :: ps =>
      b <- Re.search p u ;;
      if b then Ok true else matches u ps
  end.

(** ** [collect]: the correlator *)

Record state : Type := mkSt {
  st_seq : Z;
  st_reqs : list (key * RequestRecord);
  st_resps : list (key * ResponseRecord)
}.

Definition init : state := mkSt 0 [] [].

(** One turn of the loop of [collect] on a decoded message [m]. *)
Definition collect_step (st : state) (m : pyval) : result state :=
  name <- get m "method" PNone ;;
  p <- get m "params" (PDict []) ;;
  if eq_str name "Network.requestWillBeSent" then
    rid <- get p "requestId" PNone ;;
    r <- get p "request" (PDict []) ;;
    if truthy rid then
      let seq' := st_seq st + 1 in
      u <- get r "url" (PStr "") ;;
      me <- get r "method" (PStr "GET") ;;
      h <- get r "headers" (PDict []) ;;
      pd <- get r "postData" PNone ;;
      k <- hash_key rid ;;
      Ok (mkSt seq' (dict_set key_eqb k (mkReq seq' u me h pd) (st_reqs st))
               (st_resps st))
    else Ok st
  else if eq_str name "Network.responseReceived" then
    rid <- get p "requestId" PNone ;;
    r <- get p "response" (PDict []) ;;
    if truthy rid then
      s <- get r "status" PNone ;;
      h <- get r "headers" (PDict []) ;;
      mt <- get r "mimeType" PNone ;;
      k <- hash_key rid ;;
      Ok (mkSt (st_seq st) (st_reqs st)
               (dict_set key_eqb k (mkResp s h mt) (st_resps st)))
    else Ok st
  else Ok st.

Fixpoint collect_loop (st : state) (ms : list pyval) : result state :=
  match ms with
  | [] => Ok st
  | m :: ms' => st' <- collect_step st m ;; collect_loop st' ms'
  end.

(** [collect] on the messages that [perf] yields. *)
Definition collect_messages (ms : list pyval)
  : result (list (key * RequestRecord) * list (key * ResponseRecord)) :=
  st <- collect_loop init ms ;;
  Ok (st_reqs st, st_resps st).

(** ** [pick_best]: the selector *)

Definition priorityRank (m : string) : Z :=
  if String.eqb (upper m) "POST" then 0 else 1.

(** [lambda x: (0 if x["method"].upper()=="POST" else 1, -x["seq"])] *)
Definition sort_key (x : Candidate) : result (Z * Z) :=
  match method (rq x) with
  | PStr m => Ok (priorityRank m, - seq (rq x))
  | _ => Raise AttributeError
  end.

(** [a < b] on pairs of integers. *)
Definition tuple_lt (a b : Z * Z) : bool :=
  (fst a <? fst b) || ((fst a =? fst b) && (snd a <? snd b)).

Section Sorted.
Variable A : Type.
Variable key_of : A -> result (Z * Z).

Fixpoint keyed (l : list A) : result (list ((Z * Z) * A)) :=
  match l with
  | [] => Ok []
  | x :: l' =>
      k <- key_of x ;;
      ks <- keyed l' ;;
      Ok ((k, x) :: ks)
  end.

(** Stable insertion: [x] goes before the first element that is not
    smaller than it. *)
Fixpoint insert_keyed (x : (Z * Z) * A) (l : list ((Z * Z) * A))
  : list ((Z * Z) * A) :=
  match l with
  | [] => [x]
  | y :: l' =>
      if tuple_lt (fst y) (fst x) then y :: insert_keyed x l' else x :: y :: l'
  end.

Fixpoint sort_keyed (l : list ((Z * Z) * A)) : list ((Z * Z) * A) :=
  match l with
  | [] => []
  | x :: l' => insert_keyed x (sort_keyed l')
  end.

(** [sorted(l, key=key_of)]: the keys are computed first, then the list is
    sorted stably on them. *)
Definition sorted (l : list A) : result (list A) :=
  ks <- keyed l ;;
  Ok (map snd (sort_keyed ks)).
End Sorted.

Definition pick_best (cands : list Candidate) : result (option Candidate) :=
  match cands with
  | [] => Ok None
  | _ => s <- sorted sort_key cands ;; Ok (hd_error s)
  end.

(** ** The aggregation and the bucketing of [main] *)

(** [for snap in all_snapshots: combined_reqs.update(…); combined_resps.update(…)] *)
Definition combine (all_snapshots : list PhaseSnapshot)
  : list (key * RequestRecord) * list (key * ResponseRecord) :=
  fold_left
    (fun acc snap =>
       (dict_update key_eqb (fst acc) (reqs snap),
        dict_update key_eqb (snd acc) (resps snap)))
    all_snapshots ([], []).

Definition combined_reqs (all_snapshots : list PhaseSnapshot) :=
  fst (combine all_snapshots).

Definition combined_resps (all_snapshots : list PhaseSnapshot) :=
  snd (combine all_snapshots).

(** The inner loop [for action, pats in ACTIONS.items(): if matches(url,
    pats): …; break]: the action whose bucket takes the request. *)
Fixpoint first_action (u : pyval) (actions : list (string * list string))
  : result (option string) :=
  match actions with
  | [] => Ok None
  | (action, pats) :: rest =>
      b <- matches u pats ;;
      if b then Ok (Some action) else first_action u rest
  end.

(** [buckets[action].append(c)] *)
Definition bucket_append (action : string) (c : Candidate)
  (buckets : list (string * list Candidate))
  : result (list (string * list Candidate)) :=
  match dict_get String.eqb action buckets with
  | Some l => Ok (dict_set String.eqb action (l ++ [c]) buckets)
  | None => Raise KeyError
  end.

Definition bucketize_step (buckets : list (string * list Candidate))
  (item : key * RequestRecord) : result (list (string * list Candidate)) :=
  a <- first_action (url (snd item)) ACTIONS ;;
  match a with
  | Some action => bucket_append action (mkCand (snd item) (fst item)) buckets
  | None => Ok buckets
  end.

Fixpoint bucketize_loop (buckets : list (string * list Candidate))
  (items : list (key * RequestRecord))
  : result (list (string * list Candidate)) :=
  match items with
  | [] => Ok buckets
  | item :: rest =>
      b <- bucketize_step buckets item ;; bucketize_loop b rest
  end.

(** [buckets = {k: [] for k in ACTIONS}] followed by the loop over
    [combined_reqs.items()]. *)
Definition bucketize (creqs : list (key * RequestRecord))
  : result (list (string * list Candidate)) :=
  bucketize_loop (map (fun a => (fst a, [])) ACTIONS) creqs.

(** ** Printed output

    What the script prints is kept as a list of [printed] items; a value
    that goes through [json.dumps] or an f-string is kept as the value. *)

Inductive printed : Type :=
| Text (s : string)                  (* print(s) *)
| Fmt (s : string) (v : pyval)       (* print(f"s{v}") *)
| Json (v : pyval)                   (* print(json.dumps(v, indent=2)) *)
| JsonPrefix (n : nat) (v : pyval).  (* print(json.dumps(v, indent=2)[:n]) *)

(** A computation that prints and may raise: the output so far, and the
    outcome. *)
Definition io (A : Type) : Type := (list printed * result A)%type.

Definition io_ret {A} (a : A) : io A := ([], Ok a).

Definition io_bind {A B} (c : io A) (f : A -> io B) : io B :=
  match c with
  | (out, Ok a) => (out ++ fst (f a), snd (f a))
  | (out, Raise e) => (out, Raise e)
  end.

Definition print (p : printed) : io unit := ([p], Ok tt).

Definition lift {A} (r : result A) : io A := ([], r).

Notation "x <~ c ;; k" := (io_bind c (fun x => k))
  (at level 61, c at next level, right associativity).

Notation "c ;;; k" := (io_bind c (fun _ => k))
  (at level 61, right associativity).

Definition DO_SIGNIN_PROBE : bool := true.

Definition ACTION_NAMES : list string :=
  ["fetch_product"; "add_to_cart"; "view_cart"; "go_to_checkout"; "sign_in"].

Section Session.

(** [json.loads] on a string; [None] when it raises. *)
Variable json_loads : string -> option pyval.

(** [get_body(d, rid)]: the body and its base64 flag, [("", False)] when
    the browser has none. *)
Variable get_body : key -> string * bool.

(** [datetime.utcnow().isoformat()] *)
Variable utcnow : string.

Definition loads (v : pyval) : result pyval :=
  match v with
  | PStr s =>
      match json_loads s with
      | Some j => Ok j
      | None => Raise JSONDecodeError
      end
  | _ => Raise TypeError
  end.

(** [json.loads(e["message"])["message"]] *)
Definition decode (e : pyval) : result pyval :=
  x <- subscript e "message" ;;
  j <- loads x ;;
  subscript j "message".

(** [perf]: the messages yielded for the entries of the performance log;
    an entry whose decoding raises yields nothing. *)
Definition perf (log : list pyval) : list pyval :=
  flat_map (fun e => match decode e with Ok m => [m] | Raise _ => [] end) log.

Definition collect (log : list pyval)
  : result (list (key * RequestRecord) * list (key * ResponseRecord)) :=
  collect_messages (perf log).

(** The block [if pd:] of [print_request]: the heading is printed before
    [json.loads] is tried. *)
Definition print_post_data (pd : pyval) : io unit :=
  if truthy pd then
    print (Text "REQUEST_BODY_JSON:") ;;;
    match loads pd with
    | Ok j => print (JsonPrefix MAX_BODY_CHARS j)
    | Raise _ =>
        print (Text "REQUEST_BODY_RAW:") ;;;
        raw <~ lift (slice_to MAX_BODY_CHARS pd) ;;
        print (Fmt "" raw)
    end
  else io_ret tt.

(** The block [if body:] of [print_request]. *)
Definition print_body (body : string) (b64 : bool) : io unit :=
  if negb (String.eqb body "") then
    if b64 then
      print (Text ("RESPONSE_BODY_SNIPPET:" ++ nl ++ "[base64 not expanded]")%string)
    else
      let snippet :=
        (substring 0 MAX_BODY_CHARS body ++
         (if (MAX_BODY_CHARS <? String.length body)%nat
          then "... <truncated>" else ""))%string in
      print (Text "RESPONSE_BODY_SNIPPET:") ;;;
      print (Text snippet)
  else io_ret tt.

(** [resp] is [None] for the empty dict that [combined_resps.get(rid, {})]
    gives when the id has no response. *)
Definition print_request (title : string) (req : Candidate)
  (resp : option ResponseRecord) (body : string) (b64 : bool) : io unit :=
  print (Text (nl ++ "## " ++ title)%string) ;;;
  print (Fmt "METHOD: " (method (rq req))) ;;;
  print (Fmt "URL: " (url (rq req))) ;;;
  print (Text "REQUEST_HEADERS:") ;;;
  h <~ lift (redact (headers (rq req))) ;;
  print (Json (PDict h)) ;;;
  print_post_data (postData (rq req)) ;;;
  print (Fmt "STATUS: "
           (match resp with Some r => status r | None => PNone end)) ;;;
  print (Text "RESPONSE_HEADERS:") ;;;
  print (Json (match resp with Some r => resp_headers r | None => PDict [] end)) ;;;
  print_body body b64.

(** One turn of the loop "Print best per action". *)
Definition report_action (buckets : list (string * list Candidate))
  (cresps : list (key * ResponseRecord)) (action : string) : io unit :=
  bucket <~ lift (match dict_get String.eqb action buckets with
                  | Some l => Ok l
                  | None => Raise KeyError
                  end) ;;
  best <~ lift (pick_best bucket) ;;
  print (Text (nl ++ "### " ++ action)%string) ;;;
  match best with
  | None => print (Text "not observed")
  | Some b =>
      let resp := dict_get key_eqb (rid b) cresps in
      let bb := get_body (rid b) in
      print_request action b resp (fst bb) (snd bb)
  end.

Fixpoint report_actions (buckets : list (string * list Candidate))
  (cresps : list (key * ResponseRecord)) (actions : list string) : io unit :=
  match actions with
  | [] => io_ret tt
  | a :: rest =>
      report_action buckets cresps a ;;;
      report_actions buckets cresps rest
  end.

(** [main] from "Bucketize" to the end of the loop "Print best per
    action", on the combined maps. *)
Definition summary (creqs : list (key * RequestRecord))
  (cresps : list (key * ResponseRecord)) : io unit :=
  buckets <~ lift (bucketize creqs) ;;
  print (Text (nl ++ "===== SUMMARY: Proper requests per action =====")%string) ;;;
  report_actions buckets cresps ACTION_NAMES.

(** [main] from "Classification across all phases" to the dump. *)
Definition report (all_snapshots : list PhaseSnapshot) : io Dump :=
  let c := combine all_snapshots in
  summary (fst c) (snd c) ;;;
  let dump := mkDump (utcnow ++ "Z")%string all_snapshots in
  print (Text (nl ++ "[INFO] Full capture saved to " ++ DUMP_FILE)%string) ;;;
  io_ret dump.

(** The calls [collect(d)] of the phases, in order. *)
Fixpoint take_snapshots (logs : list (string * list pyval))
  : result (list PhaseSnapshot) :=
  match logs with
  | [] => Ok []
  | (name, log) :: rest =>
      rr <- collect log ;;
      snaps <- take_snapshots rest ;;
      Ok (mkSnap name (fst rr) (snd rr) :: snaps)
  end.

(** [main], given the performance log that the browser holds at the end of
    each phase; the progress lines printed while the browser is driven are
    left out.  [Raise] stands for the traceback printed by the handler of
    [main]; no dump is written then. *)
Definition main (pdp add_to_cart cart checkout signin : list pyval) : io Dump :=
  all_snapshots <~
    lift (take_snapshots
            ([("pdp", pdp); ("add_to_cart", add_to_cart); ("cart", cart);
              ("checkout", checkout)]
             ++ if DO_SIGNIN_PROBE then [("signin", signin)] else [])) ;;
  report all_snapshots.

End Session.

(** ** A decoder for the examples

    [Json.loads] reads JSON texts without escapes, fractions or exponents
    (any other text gives [None]); it stands for [json.loads] on the
    concrete logs below.  [Json.text] writes a JSON text with ' for the
    double quote. *)

Module Json.

Definition quote : ascii := ascii_of_nat 34.

Fixpoint text (s : string) : string :=
  match s with
  | EmptyString => EmptyString
  | String c s' => String (if Ascii.eqb c "'" then quote else c) (text s')
  end.

Definition is_ws (c : ascii) : bool :=
  let n := nat_of_ascii c in
  ((n =? 32) || (n =? 10) || (n =? 13) || (n =? 9))%nat.

Definition is_digit (c : ascii) : bool :=
  let n := nat_of_ascii c in ((48 <=? n) && (n <=? 57))%nat.

Fixpoint skip_ws (s : string) : string :=
  match s with
  | String c s' => if is_ws c then skip_ws s' else s
  | EmptyString => EmptyString
  end.

(** After the opening quote: the text up to the closing quote, and the rest. *)
Fixpoint scan_string (s : string) : option (string * string) :=
  match s with
  | EmptyString => None
  | String c r =>
      if Ascii.eqb c quote then Some (EmptyString, r)
      else if Ascii.eqb c "\" || (nat_of_ascii c <? 32)%nat then None
      else
        match scan_string r with
        | Some (t, r') => Some (String c t, r')
        | None => None
        end
  end.

Fixpoint scan_digits (acc : Z) (s : string) : Z * string :=
  match s with
  | String c r =>
      if is_digit c
      then scan_digits (10 * acc + Z.of_nat (nat_of_ascii c - 48)) r
      else (acc, s)
  | EmptyString => (acc, s)
  end.

(** [0] or a number that starts with a digit from 1 to 9, not followed by
    a fraction or an exponent. *)
Definition scan_nat (s : string) : option (Z * string) :=
  match s with
  | String c r =>
      if is_digit c then
        let '(n, r') := if Ascii.eqb c "0" then (0, r) else scan_digits 0 s in
        match r' with
        | String d _ =>
            if is_digit d || Re.in_set d ["."; "e"; "E"]%char
            then None else Some (n, r')
        | EmptyString => Some (n, r')
        end
      else None
  | EmptyString => None
  end.

Fixpoint strip (p s : string) : option string :=
  match p, s with
  | EmptyString, _ => Some s
  | String a p', String b s' => if Ascii.eqb a b then strip p' s' else None
  | _, EmptyString => None
  end.

Definition scan_atom (s : string) : option (pyval * string) :=
  match strip "null" s, strip "true" s, strip "false" s, strip "-" s with
  | Some r, _, _, _ => Some (PNone, r)
  | _, Some r, _, _ => Some (PBool true, r)
  | _, _, Some r, _ => Some (PBool false, r)
  | _, _, _, Some r =>
      match scan_nat r with
      | Some (n, r') => Some (PInt (- n), r')
      | None => None
      end
  | _, _, _, _ =>
      match scan_nat s with
      | Some (n, r') => Some (PInt n, r')
      | None => None
      end
  end.

Fixpoint value (fuel : nat) (s : string) {struct fuel}
  : option (pyval * string) :=
  match fuel with
  | O => None
  | S f =>
      match skip_ws s with
      | String c r =>
          if Ascii.eqb c "{" then
            match skip_ws r with
            | String "}" r' => Some (PDict [], r')
            | _ => members f [] r
            end
          else if Ascii.eqb c "[" then
            match skip_ws r with
            | String "]" r' => Some (PList [], r')
            | _ => elements f [] r
            end
          else if Ascii.eqb c quote then
            match scan_string r with
            | Some (t, r') => Some (PStr t, r')
            | None => None
            end
          else scan_atom (String c r)
      | EmptyString => None
      end
  end
with members (fuel : nat) (acc : list (string * pyval)) (s : string)
  {struct fuel} : option (pyval * string) :=
  match fuel with
  | O => None
  | S f =>
      match skip_ws s with
      | String c r =>
          if Ascii.eqb c quote then
            match scan_string r with
            | Some (k, r1) =>
                match skip_ws r1 with
                | String ":" r2 =>
                    match value f r2 with
                    | Some (v, r3) =>
                        let acc' := dict_set String.eqb k v acc in
                        match skip_ws r3 with
                        | String "," r4 => members f acc' r4
                        | String "}" r4 => Some (PDict acc', r4)
                        | _ => None
                        end
                    | None => None
                    end
                | _ => None
                end
            | None => None
            end
          else None
      | EmptyString => None
      end
  end
with elements (fuel : nat) (acc : list pyval) (s : string)
  {struct fuel} : option (pyval * string) :=
  match fuel with
  | O => None
  | S f =>
      match value f s with
      | Some (v, r) =>
          match skip_ws r with
          | String "," r' => elements f (acc ++ [v]) r'
          | String "]" r' => Some (PList (acc ++ [v]), r')
          | _ => None
          end
      | None => None
      end
  end.

Definition loads (s : string) : option pyval :=
  match value (S (String.length s)) s with
  | Some (v, r) =>
      match skip_ws r with
      | EmptyString => Some v
      | _ => None
      end
  | None => None
  end.

End Json.

(** ** Notions used by the statements *)

(** The last snapshot, in phase order, whose map [field] holds the id [k]. *)
Definition last_with (V : Type) (field : PhaseSnapshot -> list (key * V))
  (k : key) (snaps : list PhaseSnapshot) : option PhaseSnapshot :=
  find (fun s => dict_mem key_eqb k (field s)) (rev snaps).

(** The maps of a snapshot are dicts: no key occurs twice. *)
Definition snapshot_ok (s : PhaseSnapshot) : Prop :=
  NoDup (keys (reqs s)) /\ NoDup (keys (resps s)).

Definition phase_A : PhaseSnapshot :=
  mkSnap "A"
    [(KStr "X", mkReq 1 (PStr "/cart") (PStr "GET") (PDict []) PNone)]
    [(KStr "X", mkResp (PInt 200) (PDict []) (PStr "text/html"))].

Definition phase_B : PhaseSnapshot :=
  mkSnap "B"
    [(KStr "Y", mkReq 1 (PStr "/home") (PStr "GET") (PDict []) PNone);
     (KStr "X", mkReq 2 (PStr "/cart/updated") (PStr "POST") (PDict []) PNone)]
    [].

(** The two lifecycle events of a phase, and the messages that are neither
    (another method, or no id). *)
Inductive event : Type :=
| RequestInitiated (k : key) (u me h pd : pyval)
| ResponseArrived (k : key) (s h mt : pyval)
| Other.

(** The event that [collect] reads in the message [m]. *)
Definition event_of (m : pyval) : result event :=
  name <- get m "method" PNone ;;
  p <- get m "params" (PDict []) ;;
  if eq_str name "Network.requestWillBeSent" then
    rid <- get p "requestId" PNone ;;
    r <- get p "request" (PDict []) ;;
    if truthy rid then
      u <- get r "url" (PStr "") ;;
      me <- get r "method" (PStr "GET") ;;
      h <- get r "headers" (PDict []) ;;
      pd <- get r "postData" PNone ;;
      k <- hash_key rid ;;
      Ok (RequestInitiated k u me h pd)
    else Ok Other
  else if eq_str name "Network.responseReceived" then
    rid <- get p "requestId" PNone ;;
    r <- get p "response" (PDict []) ;;
    if truthy rid then
      s <- get r "status" PNone ;;
      h <- get r "headers" (PDict []) ;;
      mt <- get r "mimeType" PNone ;;
      k <- hash_key rid ;;
      Ok (ResponseArrived k s h mt)
    else Ok Other
  else Ok Other.

Definition apply_event (st : state) (e : event) : state :=
  match e with
  | RequestInitiated k u me h pd =>
      let n := st_seq st + 1 in
      mkSt n (dict_set key_eqb k (mkReq n u me h pd) (st_reqs st)) (st_resps st)
  | ResponseArrived k s h mt =>
      mkSt (st_seq st) (st_reqs st)
           (dict_set key_eqb k (mkResp s h mt) (st_resps st))
  | Other => st
  end.

(** The id of the request that the message [m] makes [collect] store. *)
Definition request_id (m : pyval) : option key :=
  match event_of m with
  | Ok (RequestInitiated k _ _ _ _) => Some k
  | _ => None
  end.


Definition seqs (d : list (key * RequestRecord)) : list Z :=
  map (fun kr => seq (snd kr)) d.

(** What stays true of the state of [collect] through a phase. *)
Definition state_ok (st : state) : Prop :=
  NoDup (keys (st_reqs st)) /\ NoDup (keys (st_resps st)) /\
  NoDup (seqs (st_reqs st)) /\ 0 <= st_seq st /\
  Forall (fun n => 1 <= n <= st_seq st) (seqs (st_reqs st)).

(** Three requests in a row, the third with the id of the first. *)
Definition request_msg (id u : string) : pyval :=
  PDict [("method", PStr "Network.requestWillBeSent");
         ("params", PDict [("requestId", PStr id);
                           ("request", PDict [("url", PStr u);
                                              ("method", PStr "GET")])])].

Definition response_msg (id : string) (code : Z) : pyval :=
  PDict [("method", PStr "Network.responseReceived");
         ("params", PDict [("requestId", PStr id);
                           ("response", PDict [("status", PInt code)])])].

Definition msgs_XYX : list pyval :=
  [request_msg "X" "/a"; request_msg "Y" "/b"; request_msg "X" "/c"].

(** The priority class of a candidate: 0 for POST, 1 otherwise. *)
Definition method_rank (c : Candidate) : Z :=
  match method (rq c) with
  | PStr m => priorityRank m
  | _ => 1
  end.

Definition str_method (c : Candidate) : Prop :=
  is_str (method (rq c)) = true.

(** [b] comes first in the order on [(priorityRank, -seq)]: not after [c]. *)
Definition not_after (b c : Candidate) : Prop :=
  method_rank b < method_rank c \/
  (method_rank b = method_rank c /\ seq (rq c) <= seq (rq b)).

Definition strictly_before (b c : Candidate) : Prop :=
  method_rank b < method_rank c \/
  (method_rank b = method_rank c /\ seq (rq c) < seq (rq b)).

Definition candidate (m : string) (n : Z) (id : string) : Candidate :=
  mkCand (mkReq n (PStr "https://shop.example/cart") (PStr m) (PDict []) PNone)
         (KStr id).

(** [{method: GET, sequence: 5}, {method: POST, sequence: 2},
    {method: POST, sequence: 9}] *)
Definition tie_break_candidates : list Candidate :=
  [candidate "GET" 5 "a"; candidate "POST" 2 "b"; candidate "POST" 9 "c"].



(** The bucket of an action. *)
Definition bucket_of (buckets : list (string * list Candidate))
  (action : string) : list Candidate :=
  match dict_get String.eqb action buckets with
  | Some l => l
  | None => []
  end.

(** [action] is the first action of the table with a pattern matching [u]. *)
Definition assigned (action : string) (u : pyval) : bool :=
  match first_action u ACTIONS with
  | Ok (Some a) => String.eqb action a
  | _ => false
  end.

Definition str_url (item : key * RequestRecord) : Prop :=
  is_str (url (snd item)) = true.

Definition as_candidate (item : key * RequestRecord) : Candidate :=
  mkCand (snd item) (fst item).

Definition compiles (p : string) : bool :=
  match Re.compile p with Some _ => true | None => false end.

(** A url that matches a pattern of add_to_cart and one of view_cart (the
    pattern /api/.*cart is in both), and a plain cart page. *)
Definition two_way_requests : list (key * RequestRecord) :=
  [(KStr "1", mkReq 1 (PStr "https://shop.example/API/v2/Cart") (PStr "POST")
                (PDict []) PNone);
   (KStr "2", mkReq 2 (PStr "https://shop.example/cart/") (PStr "GET")
                (PDict []) PNone);
   (KStr "3", mkReq 3 (PStr "https://shop.example/logo.png") (PStr "GET")
                (PDict []) PNone)].

(** A request record with the types of a RequestRecord: the url and the
    method are strings, the headers a mapping, postData a string if any. *)
Definition request_ok (r : RequestRecord) : Prop :=
  is_str (url r) = true /\ is_str (method r) = true /\
  is_dict (headers r) = true /\
  (postData r = PNone \/ is_str (postData r) = true).

Definition requests_ok (d : list (key * RequestRecord)) : Prop :=
  Forall request_ok (values d).

Definition SUMMARY_TITLE : printed :=
  Text (nl ++ "===== SUMMARY: Proper requests per action =====")%string.

Definition heading (action : string) : printed :=
  Text (nl ++ "### " ++ action)%string.

(** The lines of [print_request] up to the request headers, and those on
    the response. *)
Definition printed_head (title : string) (req : Candidate)
  (h : list (string * pyval)) : list printed :=
  [Text (nl ++ "## " ++ title)%string; Fmt "METHOD: " (method (rq req));
   Fmt "URL: " (url (rq req)); Text "REQUEST_HEADERS:"; Json (PDict h)].

Definition printed_response (resp : option ResponseRecord) : list printed :=
  [Fmt "STATUS: " (match resp with Some r => status r | None => PNone end);
   Text "RESPONSE_HEADERS:";
   Json (match resp with Some r => resp_headers r | None => PDict [] end)].


(** Every header of [h] whose name is in the redaction set, whatever its
    letter case, has the marker as its value. *)
Definition redacted_headers (h : pyval) : Prop :=
  forall d k v,
    h = PDict d -> In (k, v) d -> In (lower k) HIDE_HDRS -> v = REDACTED.

(** The printed summary shows headers through [json.dumps] only. *)
Definition output_redacted (out : list printed) : Prop :=
  forall v, In (Json v) out -> redacted_headers v.

Definition dump_redacted (dmp : Dump) : Prop :=
  forall s, In s (phases dmp) ->
    (forall k r, In (k, r) (reqs s) -> redacted_headers (headers r)) /\
    (forall k r, In (k, r) (resps s) -> redacted_headers (resp_headers r)).

Definition redact_entry (kv : string * pyval) : string * pyval :=
  (fst kv, if hidden (fst kv) then REDACTED else snd kv).

(** A log entry of the browser with the message text [t]. *)
Definition entry (t : string) : pyval :=
  PDict [("level", PStr "INFO"); ("message", PStr (Json.text t));
         ("timestamp", PInt 1700000000000)].

(** A request that carries credentials, and its response. *)
Definition entry_request : pyval :=
  entry "{'message': {'method': 'Network.requestWillBeSent', 'params': {'requestId': '17.3', 'request': {'url': 'https://shop.example/cart/add', 'method': 'POST', 'headers': {'Authorization': 'Bearer abc', 'Accept': 'text/html'}}}}, 'webview': 'A1'}".

Definition entry_response : pyval :=
  entry "{'message': {'method': 'Network.responseReceived', 'params': {'requestId': '17.3', 'response': {'status': 200, 'headers': {'Authorization': 'Bearer xyz'}, 'mimeType': 'text/html'}}}, 'webview': 'A1'}".

(** An entry whose text is not JSON, and entries whose text is JSON of
    another shape than the browser's. *)
Definition entry_not_json : pyval := entry "{'message': {'method': ".

Definition entry_message_number : pyval := entry "{'message': 5}".

Definition entry_params_null : pyval :=
  entry "{'message': {'method': 'Network.requestWillBeSent', 'params': null}}".

Definition no_body (k : key) : string * bool := (EmptyString, false).

(** The result of a run, read as the combined maps of the phases dumped. *)
Definition combined_of (r : result Dump) :=
  d <- r ;; Ok (combine (phases d)).

Definition rename_phase (f : string -> string) (s : PhaseSnapshot) : PhaseSnapshot :=
  mkSnap (f (phase s)) (reqs s) (resps s).

(** [a == b] on pairs of integers. *)
Definition tuple_eqb (a b : Z * Z) : bool :=
  (fst a =? fst b) && (snd a =? snd b).



(** ** Further notions *)

(** Headers with two sensitive names, in two letter cases, and two others. *)
Definition sample_headers : list (string * pyval) :=
  [("Cookie", PStr "sid=42"); ("Accept", PStr "text/html");
   ("X-CSRF-Token", PStr "t0k3n"); ("User-Agent", PStr "Mozilla/5.0")].

Definition is_hashable (v : pyval) : bool :=
  match v with
  | PList _ | PDict _ => false
  | _ => true
  end.

Definition field_or (d : list (string * pyval)) (k : string) (dflt : pyval)
  : pyval :=
  match dict_get String.eqb k d with Some v => v | None => dflt end.

(** The messages on which a turn of [collect] goes through: a dict; when
    its method is one of the two network events, params (if given) is a
    dict and, when the id counts as true, the id is hashable and the
    request or response object (if given) is a dict. *)
Definition well_shaped (m : pyval) : bool :=
  match m with
  | PDict d =>
      let name := field_or d "method" PNone in
      let sub :=
        if eq_str name "Network.requestWillBeSent" then Some "request"
        else if eq_str name "Network.responseReceived" then Some "response"
        else None in
      match sub with
      | None => true
      | Some field =>
          match field_or d "params" (PDict []) with
          | PDict dp =>
              let rid := field_or dp "requestId" PNone in
              if truthy rid
              then is_dict (field_or dp field (PDict [])) && is_hashable rid
              else true
          | _ => false
          end
      end
  | _ => false
  end.

(** The id of the response that the message [m] makes [collect] store. *)
Definition response_id (m : pyval) : option key :=
  match event_of m with
  | Ok (ResponseArrived k _ _ _) => Some k
  | _ => None
  end.

Definition stores_request (m : pyval) : bool :=
  match request_id m with Some _ => true | None => false end.

Definition stores_response (m : pyval) : bool :=
  match response_id m with Some _ => true | None => false end.

(** The ids that the messages of [ms] store, in order, repeats included. *)
Definition ids_of (f : pyval -> option key) (ms : list pyval) : list key :=
  flat_map (fun m => match f m with Some k => [k] | None => [] end) ms.

(** The distinct elements of a list of ids, each at its first place. *)
Definition seen (acc : list key) (k : key) : list key :=
  if existsb (key_eqb k) acc then acc else acc ++ [k].

Definition first_seen (ks : list key) : list key := fold_left seen ks [].

(** A page event that is not a network event, with params that are not a
    dict, and a request without id. *)
Definition msg_page_event : pyval :=
  PDict [("method", PStr "Page.frameNavigated"); ("params", PInt 7)].

Definition msg_no_id : pyval :=
  PDict [("method", PStr "Network.requestWillBeSent");
         ("params", PDict [("request", PStr "not an object")])].

Definition is_list (v : pyval) : bool :=
  match v with PList _ => true | _ => false end.

(** The key on which the selector sorts a candidate. *)
Definition order_key (c : Candidate) : Z * Z := (method_rank c, seq (rq c)).

(** [get_body(d, rid)], the call [d.execute_cdp_cmd("Network.getResponseBody",
    {"requestId": rid})] being [cdp rid]. *)
Definition get_body_of (cdp : key -> result pyval) (rid : key) : pyval * pyval :=
  match (rb <- cdp rid ;;
         body <- get rb "body" (PStr "") ;;
         b64 <- get rb "base64Encoded" (PBool false) ;;
         Ok (body, b64)) with
  | Ok r => r
  | Raise _ => (PStr "", PBool false)
  end.

(** A request whose url is null in the log, and the same request without
    url. *)
Definition msg_null_url : pyval :=
  PDict [("method", PStr "Network.requestWillBeSent");
         ("params", PDict [("requestId", PStr "7");
                           ("request", PDict [("url", PNone);
                                              ("method", PStr "GET")])])].

Definition phase_C : PhaseSnapshot :=
  mkSnap "C"
    [(KStr "Z", mkReq 1 (PStr "/checkout") (PStr "POST") (PDict []) PNone)]
    [(KStr "Z", mkResp (PInt 302) (PDict []) PNone)].

(** A request record without its seq. *)
Definition unseq (r : RequestRecord) : pyval * pyval * pyval * pyval :=
  (url r, method r, headers r, postData r).

Definition map_values (V W : Type) (f : V -> W) (d : list (key * V))
  : list (key * W) :=
  map (fun kv => (fst kv, f (snd kv))) d.

(** The integers from [a + 1] to [a + n]. *)
Fixpoint count_from (a : Z) (n : nat) : list Z :=
  match n with
  | O => []
  | S n' => (a + 1) :: count_from (a + 1) n'
  end.

(** ** Notions of the statements on selection, placement and redaction *)

(** The method of the candidate spells post in some letter case. *)
Definition is_POST (c : Candidate) : Prop :=
  exists m, method (rq c) = PStr m /\ lower m = "post".

(** A GET with the higher seq, then a POST, in lower case, with the lower. *)
Definition post_first_candidates : list Candidate :=
  [candidate "GET" 9 "a"; candidate "post" 2 "b"].

(** [re.search] finds some pattern of [pats] in [u]. *)
Definition found_in (u : pyval) (pats : list string) : Prop :=
  exists p, In p pats /\ Re.search p u = Ok true.

(** [action] is the first action of the table, in its order, one of whose
    patterns is found in [u]. *)
Definition first_match (u : pyval) (action : string) : Prop :=
  exists pre pats post,
    ACTIONS = pre ++ (action, pats) :: post /\ found_in u pats /\
    forall a ps, In (a, ps) pre -> ~ found_in u ps.

(** A request for each action, from the last action of the table to the
    first, and an image. *)
Definition checkout_requests : list (key * RequestRecord) :=
  [(KStr "1", mkReq 1 (PStr "https://shop.example/myaccount/Sign-In")
                (PStr "POST") (PDict []) PNone);
   (KStr "2", mkReq 2 (PStr "https://shop.example/checkout/start") (PStr "GET")
                (PDict []) PNone);
   (KStr "3", mkReq 3 (PStr "https://shop.example/cart") (PStr "GET")
                (PDict []) PNone);
   (KStr "4", mkReq 4 (PStr "https://shop.example/API/v2/Cart") (PStr "POST")
                (PDict []) PNone);
   (KStr "5", mkReq 5 (PStr "https://shop.example/api/product/7") (PStr "GET")
                (PDict []) PNone);
   (KStr "6", mkReq 6 (PStr "https://shop.example/logo.png") (PStr "GET")
                (PDict []) PNone);
   (KStr "7", mkReq 7 (PStr "https://shop.example/checkout/start")
                (PStr "post") (PDict []) PNone);
   (KStr "8", mkReq 8 (PStr "https://shop.example/api/checkout") (PStr "GET")
                (PDict []) PNone)].

(** The last snapshot, in phase order, that holds the id [k], as a request
    or as a response. *)
Definition last_containing (k : key) (snaps : list PhaseSnapshot)
  : option PhaseSnapshot :=
  find (fun s => dict_mem key_eqb k (reqs s) || dict_mem key_eqb k (resps s))
       (rev snaps).

(** The last snapshot containing [k] wins for both halves: the combined
    request and the combined response of [k] are those that snapshot has. *)
Definition last_containing_wins (snaps : list PhaseSnapshot) (k : key) : Prop :=
  match last_containing k snaps with
  | Some s =>
      dict_get key_eqb k (combined_reqs snaps) = dict_get key_eqb k (reqs s) /\
      dict_get key_eqb k (combined_resps snaps) = dict_get key_eqb k (resps s)
  | None =>
      dict_get key_eqb k (combined_reqs snaps) = None /\
      dict_get key_eqb k (combined_resps snaps) = None
  end.

(** A request in one phase, its response in the next. *)
Definition phase_request : PhaseSnapshot :=
  mkSnap "add_to_cart"
    [(KStr "X", mkReq 1 (PStr "/cart/add") (PStr "POST") (PDict []) PNone)] [].

Definition phase_response : PhaseSnapshot :=
  mkSnap "cart" [] [(KStr "X", mkResp (PInt 200) (PDict []) (PStr "text/html"))].

(** [r'] is [r] but for the values of the headers that [redact] hides. *)
Definition same_up_to_redaction (r r' : RequestRecord) : Prop :=
  seq r = seq r' /\ url r = url r' /\ method r = method r' /\
  postData r = postData r' /\ redact (headers r) = redact (headers r').

(** The record [r] with [v] as the value of every header that [redact]
    hides. *)
Definition with_secret (v : pyval) (r : RequestRecord) : RequestRecord :=
  mkReq (seq r) (url r) (method r)
        (match headers r with
         | PDict d =>
             PDict (map (fun kv => (fst kv, if hidden (fst kv) then v else snd kv)) d)
         | h => h
         end)
        (postData r).

(** The candidate [c] with its record changed by [g]. *)
Definition on_request (g : RequestRecord -> RequestRecord) (c : Candidate)
  : Candidate :=
  mkCand (g (rq c)) (rid c).

Definition map_buckets (g : RequestRecord -> RequestRecord)
  (buckets : list (string * list Candidate)) : list (string * list Candidate) :=
  map (fun al => (fst al, map (on_request g) (snd al))) buckets.

(** The request of [entry_request] as [collect] stores it. *)
Definition request_with_credentials : Candidate :=
  mkCand (mkReq 1 (PStr "https://shop.example/cart/add") (PStr "POST")
            (PDict [("Authorization", PStr "Bearer abc");
                    ("Accept", PStr "text/html")]) PNone)
         (KStr "17.3").

(** A request whose url is null in the log, and one whose headers are a
    string. *)
Definition entry_null_url : pyval :=
  entry "{'message': {'method': 'Network.requestWillBeSent', 'params': {'requestId': '7', 'request': {'url': null, 'method': 'GET'}}}}".

Definition entry_string_headers : pyval :=
  entry "{'message': {'method': 'Network.requestWillBeSent', 'params': {'requestId': '8', 'request': {'url': 'https://shop.example/cart/add', 'method': 'POST', 'headers': 'Cookie: sid=42'}}}}".

(** ** capture_form_styles.py: the form fields

    The loop over [driver.find_elements(...)] that sorts the visible
    fields of the page into shipping and billing. *)

Module Forms.

(** The dict [desc]; [get_attribute] gives a string or None. *)
Record Desc : Type := mkDesc {
  d_tag : string;
  d_id : option string;
  d_name : option string;
  d_type : option string;
  d_class : option string;
  d_placeholder : option string;
  d_aria_label : option string
}.

(** What the loop reads of an element: [el.is_displayed()], and the
    attributes that make [desc]; either may raise. *)
Record Element : Type := mkElement {
  is_displayed : result bool;
  described : result Desc
}.

(** [needle in hay] *)
Fixpoint contains (needle hay : string) : bool :=
  String.prefix needle hay ||
  match hay with
  | EmptyString => false
  | String _ h => contains needle h
  end.

(** [a + b] on values that are strings or None. *)
Definition plus (a b : option string) : result string :=
  match a, b with
  | Some x, Some y => Ok (x ++ y)%string
  | _, _ => Raise TypeError
  end.

(** [(desc["id"]+desc["name"]+desc["class"]).lower()] *)
Definition haystack (d : Desc) : result string :=
  ab <- plus (d_id d) (d_name d) ;;
  abc <- plus (Some ab) (d_class d) ;;
  Ok (lower abc).

Definition label (d : Desc) : result string :=
  h <- haystack d ;;
  if existsb (fun k => contains k h) ["ship"] then Ok "shipping"
  else
    h' <- haystack d ;;
    if existsb (fun k => contains k h') ["bill"] then Ok "billing"
    else Ok "unknown".

(** [results = {"shipping": [], "billing": []}] *)
Record Results : Type := mkResults {
  shipping : list Desc;
  billing : list Desc
}.

(** One turn of the loop; an exception anywhere in the body is caught and
    the loop goes on. *)
Definition step (results : Results) (el : Element) : Results :=
  match (v <- is_displayed el ;;
         if negb v then Ok results
         else
           desc <- described el ;;
           l <- label desc ;;
           if String.eqb l "shipping"
           then Ok (mkResults (shipping results ++ [desc]) (billing results))
           else if String.eqb l "billing"
           then Ok (mkResults (shipping results) (billing results ++ [desc]))
           else Ok results) with
  | Ok r => r
  | Raise _ => results
  end.

Definition extract (inputs : list Element) : Results :=
  fold_left step inputs (mkResults [] []).

(** [sum(len(v) for v in results.values())] *)
Definition count (results : Results) : nat :=
  (List.length (shipping results) + List.length (billing results))%nat.

(** The text in which the labels are looked for, when the three
    attributes are given. *)
Definition text_of (d : Desc) : option string :=
  match d_id d, d_name d, d_class d with
  | Some i, Some n, Some c => Some (lower ((i ++ n) ++ c))
  | _, _, _ => None
  end.

Definition is_shipping (d : Desc) : bool :=
  match text_of d with Some t => contains "ship" t | None => false end.

Definition is_billing (d : Desc) : bool :=
  match text_of d with
  | Some t => contains "bill" t && negb (contains "ship" t)
  | None => false
  end.

(** The description of a field that is displayed. *)
Definition visible (el : Element) : list Desc :=
  match is_displayed el, described el with
  | Ok true, Ok d => [d]
  | _, _ => []
  end.

Definition field (i n c : string) : Desc :=
  mkDesc "input" (Some i) (Some n) (Some "text") (Some c) None None.

End Forms.

(** * Properties *)

(** ** Keys and dicts *)

Lemma key_eqb_eq (a b : key) : key_eqb a b = true <-> a = b.
Proof.
  destruct a, b; simpl; split; intro H; try discriminate; try reflexivity.
  - apply String.eqb_eq in H. now subst.
  - injection H as ->. apply String.eqb_refl.
  - apply Z.eqb_eq in H. now subst.
  - injection H as ->. apply Z.eqb_refl.
  - apply andb_true_iff in H. destruct H as [H1 H2].
    apply Z.eqb_eq in H1, H2. now subst.
  - injection H as -> ->. now rewrite !Z.eqb_refl.
Qed.

Lemma key_eqb_refl (a : key) : key_eqb a a = true.
Proof. now apply key_eqb_eq. Qed.

Lemma key_eqb_neq (a b : key) : key_eqb a b = false <-> a <> b.
Proof.
  rewrite <- key_eqb_eq. destruct (key_eqb a b); split; congruence.
Qed.

Section DictFacts.
Variables K V : Type.
Variable eqb : K -> K -> bool.
Hypothesis eqb_eq : forall a b, eqb a b = true <-> a = b.

Lemma eqb_same (a : K) : eqb a a = true.
Proof. now apply eqb_eq. Qed.

Lemma eqb_diff (a b : K) : a <> b -> eqb a b = false.
Proof.
  intro H. destruct (eqb a b) eqn:E; [|reflexivity].
  apply eqb_eq in E. contradiction.
Qed.

Lemma dict_get_set_same (k : K) (v : V) (d : list (K * V)) :
  dict_get eqb k (dict_set eqb k v d) = Some v.
Proof.
  induction d as [|[k' v'] d IH]; simpl.
  - now rewrite eqb_same.
  - destruct (eqb k k') eqn:E; simpl; rewrite E; auto.
Qed.

Lemma dict_get_set_other (k k' : K) (v : V) (d : list (K * V)) :
  k <> k' -> dict_get eqb k' (dict_set eqb k v d) = dict_get eqb k' d.
Proof.
  intro N. induction d as [|[k0 v0] d IH]; simpl.
  - rewrite eqb_diff; auto.
  - destruct (eqb k k0) eqn:E; simpl.
    + apply eqb_eq in E. subst k0. rewrite eqb_diff; auto.
    + now rewrite IH.
Qed.

Lemma dict_get_In (k : K) (v : V) (d : list (K * V)) :
  dict_get eqb k d = Some v -> In (k, v) d.
Proof.
  induction d as [|[k' v'] d IH]; simpl; [discriminate|].
  destruct (eqb k k') eqn:E.
  - intros [= ->]. apply eqb_eq in E. subst. now left.
  - auto.
Qed.

Lemma dict_get_None (k : K) (d : list (K * V)) :
  dict_get eqb k d = None <-> ~ In k (keys d).
Proof.
  induction d as [|[k' v'] d IH]; simpl.
  - tauto.
  - destruct (eqb k k') eqn:E.
    + apply eqb_eq in E. subst. split; [discriminate|]. intros H. exfalso. auto.
    + rewrite IH. split.
      * intros H [->|H']; [|auto]. rewrite eqb_same in E. discriminate.
      * tauto.
Qed.

Lemma In_dict_get (k : K) (v : V) (d : list (K * V)) :
  NoDup (keys d) -> In (k, v) d -> dict_get eqb k d = Some v.
Proof.
  induction d as [|[k' v'] d IH]; simpl; [tauto|].
  intros ND [E|H].
  - injection E as -> ->. now rewrite eqb_same.
  - inversion ND as [|? ? NI ND']; subst.
    rewrite eqb_diff; [auto|].
    intros ->. apply NI. change k' with (fst (k', v)). now apply in_map.
Qed.

Lemma keys_dict_set (k : K) (v : V) (d : list (K * V)) :
  keys (dict_set eqb k v d) =
  if dict_mem eqb k d then keys d else keys d ++ [k].
Proof.
  unfold dict_mem.
  induction d as [|[k' v'] d IH]; simpl; [reflexivity|].
  destruct (eqb k k') eqn:E; simpl; [reflexivity|].
  rewrite IH. now destruct (dict_get eqb k d).
Qed.

Lemma NoDup_dict_set (k : K) (v : V) (d : list (K * V)) :
  NoDup (keys d) -> NoDup (keys (dict_set eqb k v d)).
Proof.
  intro ND. rewrite keys_dict_set. unfold dict_mem.
  destruct (dict_get eqb k d) eqn:E; [assumption|].
  apply dict_get_None in E.
  apply NoDup_app; [assumption | repeat constructor; simpl; tauto |].
  intros x Hx [<-|[]]. contradiction.
Qed.

Lemma NoDup_dict_update (d e : list (K * V)) :
  NoDup (keys d) -> NoDup (keys (dict_update eqb d e)).
Proof.
  unfold dict_update. revert d.
  induction e as [|[k v] e IH]; simpl; intros d ND; [assumption|].
  apply IH. now apply NoDup_dict_set.
Qed.

(** After [d.update(e)] a key of [e] has the value [e] gives it, and any
    other key keeps its value. *)
Lemma dict_get_update (k : K) (d e : list (K * V)) :
  NoDup (keys e) ->
  dict_get eqb k (dict_update eqb d e) =
  match dict_get eqb k e with
  | Some v => Some v
  | None => dict_get eqb k d
  end.
Proof.
  unfold dict_update. revert d.
  induction e as [|[k' v'] e IH]; simpl; intros d ND; [reflexivity|].
  inversion ND as [|? ? NI ND']; subst.
  rewrite IH by assumption.
  destruct (eqb k k') eqn:E.
  - apply eqb_eq in E. subst k'.
    apply dict_get_None in NI. rewrite NI.
    apply dict_get_set_same.
  - destruct (dict_get eqb k e); [reflexivity|].
    apply dict_get_set_other. intros ->. rewrite eqb_same in E. discriminate.
Qed.

End DictFacts.

(** ** Aggregation *)

Lemma combine_snoc (snaps : list PhaseSnapshot) (s : PhaseSnapshot) :
  combine (snaps ++ [s]) =
  (dict_update key_eqb (combined_reqs snaps) (reqs s),
   dict_update key_eqb (combined_resps snaps) (resps s)).
Proof.
  unfold combined_reqs, combined_resps, combine.
  now rewrite fold_left_app.
Qed.

Lemma combine_keys_NoDup (snaps : list PhaseSnapshot) :
  NoDup (keys (combined_reqs snaps)) /\ NoDup (keys (combined_resps snaps)).
Proof.
  induction snaps as [|s snaps IH] using rev_ind.
  - split; constructor.
  - unfold combined_reqs, combined_resps. rewrite combine_snoc. simpl.
    destruct IH. split; apply NoDup_dict_update; auto using key_eqb_eq.
Qed.

Lemma last_wins (V : Type) (field : PhaseSnapshot -> list (key * V))
  (comb : list PhaseSnapshot -> list (key * V)) (k : key) :
  comb [] = [] ->
  (forall snaps s,
      comb (snaps ++ [s]) = dict_update key_eqb (comb snaps) (field s)) ->
  forall snaps,
    (forall s, In s snaps -> NoDup (keys (field s))) ->
    dict_get key_eqb k (comb snaps) =
    match last_with field k snaps with
    | Some s => dict_get key_eqb k (field s)
    | None => None
    end.
Proof.
  intros H0 Hs snaps.
  induction snaps as [|s snaps IH] using rev_ind; intro ND.
  - now rewrite H0.
  - rewrite Hs. unfold last_with in *. rewrite rev_app_distr. simpl.
    rewrite dict_get_update;
      [| apply key_eqb_eq | apply ND, in_or_app; right; now left].
    unfold dict_mem.
    destruct (dict_get key_eqb k (field s)) eqn:E; [now rewrite E|].
    apply IH. intros s' Hs'. apply ND, in_or_app. now left.
Qed.

Lemma find_orb_left (A : Type) (p q : A -> bool) (l : list A) (x : A) :
  find (fun a => p a || q a) l = Some x -> p x = true -> find p l = Some x.
Proof.
  induction l as [|a l IH]; simpl; [discriminate|].
  destruct (p a) eqn:P; simpl.
  - now intros [= <-] _.
  - destruct (q a); [|exact IH]. intros [= <-] H. congruence.
Qed.

Lemma find_orb_right (A : Type) (p q : A -> bool) (l : list A) (x : A) :
  find (fun a => p a || q a) l = Some x -> q x = true -> find q l = Some x.
Proof.
  induction l as [|a l IH]; simpl; [discriminate|].
  destruct (q a) eqn:Q; simpl.
  - rewrite orb_true_r. now intros [= <-] _.
  - rewrite orb_false_r. destruct (p a); [|exact IH]. intros [= <-] H. congruence.
Qed.

Lemma find_orb_None (A : Type) (p q : A -> bool) (l : list A) :
  find (fun a => p a || q a) l = None -> find p l = None /\ find q l = None.
Proof.
  induction l as [|a l IH]; simpl; [auto|].
  destruct (p a), (q a); simpl; try discriminate. exact IH.
Qed.

(** C4, as the code has it.  The combined maps are a left-to-right fold of
    [update] over the snapshots, the request map and the response map each
    on its own: a snapshot overwrites, whole record by whole record, the
    entries of the ids it holds in that map.  So the combined request of
    an id is the request record of the last snapshot holding a request for
    it, and the combined response of an id is the response record of the
    last snapshot holding a response for it.  The last snapshot containing
    the id wins for each half it holds, and for both when it holds both;
    an id that no snapshot contains is absent. *)
Theorem aggregation_last_snapshot_wins :
  forall (snaps : list PhaseSnapshot) (k : key),
    (forall s, In s snaps -> snapshot_ok s) ->
    (forall s,
        combine (snaps ++ [s]) =
        (dict_update key_eqb (combined_reqs snaps) (reqs s),
         dict_update key_eqb (combined_resps snaps) (resps s))) /\
    dict_get key_eqb k (combined_reqs snaps) =
    match last_with reqs k snaps with
    | Some s => dict_get key_eqb k (reqs s)
    | None => None
    end /\
    dict_get key_eqb k (combined_resps snaps) =
    match last_with resps k snaps with
    | Some s => dict_get key_eqb k (resps s)
    | None => None
    end /\
    (forall s,
        last_containing k snaps = Some s ->
        (dict_mem key_eqb k (reqs s) = true ->
         dict_get key_eqb k (combined_reqs snaps) = dict_get key_eqb k (reqs s)) /\
        (dict_mem key_eqb k (resps s) = true ->
         dict_get key_eqb k (combined_resps snaps) = dict_get key_eqb k (resps s)) /\
        (dict_mem key_eqb k (reqs s) = true ->
         dict_mem key_eqb k (resps s) = true ->
         last_containing_wins snaps k)) /\
    (last_containing k snaps = None ->
     dict_get key_eqb k (combined_reqs snaps) = None /\
     dict_get key_eqb k (combined_resps snaps) = None).
Proof.
  intros snaps k OK.
  assert (Rq : dict_get key_eqb k (combined_reqs snaps) =
               match last_with reqs k snaps with
               | Some s => dict_get key_eqb k (reqs s)
               | None => None
               end).
  { apply (last_wins reqs combined_reqs); [reflexivity| |].
    - intros l s. unfold combined_reqs at 1. now rewrite combine_snoc.
    - intros s Hs. apply OK, Hs. }
  assert (Rs : dict_get key_eqb k (combined_resps snaps) =
               match last_with resps k snaps with
               | Some s => dict_get key_eqb k (resps s)
               | None => None
               end).
  { apply (last_wins resps combined_resps); [reflexivity| |].
    - intros l s. unfold combined_resps at 1. now rewrite combine_snoc.
    - intros s Hs. apply OK, Hs. }
  split; [intro s; apply combine_snoc|].
  split; [exact Rq|]. split; [exact Rs|]. split.
  - intros s L. unfold last_containing in L.
    assert (Hq : dict_mem key_eqb k (reqs s) = true ->
                 dict_get key_eqb k (combined_reqs snaps) =
                 dict_get key_eqb k (reqs s)).
    { intro M. rewrite Rq. unfold last_with.
      now rewrite (find_orb_left _ _ _ L M). }
    assert (Hs : dict_mem key_eqb k (resps s) = true ->
                 dict_get key_eqb k (combined_resps snaps) =
                 dict_get key_eqb k (resps s)).
    { intro M. rewrite Rs. unfold last_with.
      now rewrite (find_orb_right _ _ _ L M). }
    split; [exact Hq|]. split; [exact Hs|].
    intros M M'. unfold last_containing_wins, last_containing. rewrite L. auto.
  - intro L. unfold last_containing in L.
    destruct (find_orb_None _ _ _ L) as [Lq Ls].
    rewrite Rq, Rs. unfold last_with. now rewrite Lq, Ls.
Qed.

(** Phase A has the request X with url /cart, the later phase B has the
    request X with url /cart/updated: the combined request of X is that of
    B, and the combined response of X is still that of A, the last phase
    with a response for X. *)
Lemma aggregation_overwrite_example :
  option_map url (dict_get key_eqb (KStr "X") (combined_reqs [phase_A; phase_B]))
  = Some (PStr "/cart/updated") /\
  option_map seq (dict_get key_eqb (KStr "X") (combined_reqs [phase_A; phase_B]))
  = Some 2 /\
  option_map status (dict_get key_eqb (KStr "X") (combined_resps [phase_A; phase_B]))
  = Some (PInt 200).
Proof.
  assert (OK : forall s, In s [phase_A; phase_B] -> snapshot_ok s).
  { intros s [<-|[<-|[]]]; split; simpl;
      repeat constructor; simpl; intuition discriminate. }
  destruct (aggregation_last_snapshot_wins [phase_A; phase_B] (KStr "X") OK)
    as (_ & -> & -> & _).
  repeat split.
Defined.

(** C4 as stated fails.  Of the phases A and B, B is the last that contains
    the id X, and it holds no response for X: the combined response of X is
    that of A, status 200, next to the request of B.  Likewise for a
    request in one phase and its response in the next: the later phase is
    the last that contains the id, and the combined request is that of the
    earlier one. *)
Lemma aggregation_both_halves_counterexample :
  last_containing (KStr "X") [phase_A; phase_B] = Some phase_B /\
  dict_get key_eqb (KStr "X") (resps phase_B) = None /\
  dict_get key_eqb (KStr "X") (combined_resps [phase_A; phase_B]) =
  Some (mkResp (PInt 200) (PDict []) (PStr "text/html")) /\
  ~ last_containing_wins [phase_A; phase_B] (KStr "X") /\
  last_containing (KStr "X") [phase_request; phase_response] =
  Some phase_response /\
  dict_get key_eqb (KStr "X") (reqs phase_response) = None /\
  dict_get key_eqb (KStr "X") (combined_reqs [phase_request; phase_response]) =
  Some (mkReq 1 (PStr "/cart/add") (PStr "POST") (PDict []) PNone) /\
  ~ last_containing_wins [phase_request; phase_response] (KStr "X").
Proof.
  split; [reflexivity|]. split; [reflexivity|]. split; [reflexivity|].
  split; [|split; [reflexivity|split; [reflexivity|split; [reflexivity|]]]].
  - unfold last_containing_wins.
    change (last_containing (KStr "X") [phase_A; phase_B]) with (Some phase_B).
    intros [_ H]. vm_compute in H. discriminate.
  - unfold last_containing_wins.
    change (last_containing (KStr "X") [phase_request; phase_response])
      with (Some phase_response).
    intros [H _]. vm_compute in H. discriminate.
Qed.

(** ** The correlator *)

Lemma collect_step_event (st : state) (m : pyval) :
  collect_step st m = e <- event_of m ;; Ok (apply_event st e).
Proof.
  unfold collect_step, event_of.
  destruct (get m "method" PNone) as [name|]; simpl; [|reflexivity].
  destruct (get m "params" (PDict [])) as [p|]; simpl; [|reflexivity].
  destruct (eq_str name "Network.requestWillBeSent").
  - destruct (get p "requestId" PNone) as [rid|]; simpl; [|reflexivity].
    destruct (get p "request" (PDict [])) as [r|]; simpl; [|reflexivity].
    destruct (truthy rid); [|reflexivity].
    destruct (get r "url" (PStr "")); simpl; [|reflexivity].
    destruct (get r "method" (PStr "GET")); simpl; [|reflexivity].
    destruct (get r "headers" (PDict [])); simpl; [|reflexivity].
    destruct (get r "postData" PNone); simpl; [|reflexivity].
    destruct (hash_key rid); reflexivity.
  - destruct (eq_str name "Network.responseReceived"); [|reflexivity].
    destruct (get p "requestId" PNone) as [rid|]; simpl; [|reflexivity].
    destruct (get p "response" (PDict [])) as [r|]; simpl; [|reflexivity].
    destruct (truthy rid); [|reflexivity].
    destruct (get r "status" PNone); simpl; [|reflexivity].
    destruct (get r "headers" (PDict [])); simpl; [|reflexivity].
    destruct (get r "mimeType" PNone); simpl; [|reflexivity].
    destruct (hash_key rid); reflexivity.
Qed.

Lemma collect_step_Ok (st st' : state) (m : pyval) :
  collect_step st m = Ok st' ->
  exists e, event_of m = Ok e /\ st' = apply_event st e.
Proof.
  rewrite collect_step_event.
  destruct (event_of m) as [e|]; simpl; [|discriminate].
  intros [= <-]. now exists e.
Qed.

Lemma collect_loop_app (st : state) (ms1 ms2 : list pyval) :
  collect_loop st (ms1 ++ ms2) =
  st1 <- collect_loop st ms1 ;; collect_loop st1 ms2.
Proof.
  revert st. induction ms1 as [|m ms1 IH]; intro st; simpl; [reflexivity|].
  destruct (collect_step st m); simpl; auto.
Qed.









Lemma In_seqs_dict_set (k : key) (r : RequestRecord)
  (d : list (key * RequestRecord)) (n : Z) :
  In n (seqs (dict_set key_eqb k r d)) -> n = seq r \/ In n (seqs d).
Proof.
  induction d as [|[k' r'] d IH]; simpl.
  - intros [<-|[]]. now left.
  - destruct (key_eqb k k'); simpl.
    + intros [<-|H]; auto.
    + intros [<-|H]; auto. destruct (IH H); auto.
Qed.

Lemma NoDup_seqs_dict_set (k : key) (r : RequestRecord)
  (d : list (key * RequestRecord)) :
  NoDup (seqs d) -> ~ In (seq r) (seqs d) ->
  NoDup (seqs (dict_set key_eqb k r d)).
Proof.
  induction d as [|[k' r'] d IH]; simpl; intros ND NI.
  - repeat constructor. simpl. tauto.
  - inversion ND as [|? ? NI' ND']; subst.
    destruct (key_eqb k k'); simpl.
    + constructor; [tauto | assumption].
    + constructor; [| apply IH; tauto].
      intro H. apply In_seqs_dict_set in H. simpl in *. intuition congruence.
Qed.

Lemma state_ok_init : state_ok init.
Proof. repeat split; try constructor. simpl. lia. Qed.

Lemma state_ok_event (st : state) (e : event) :
  state_ok st -> state_ok (apply_event st e).
Proof.
  intros (K1 & K2 & S & P & B). rewrite Forall_forall in B.
  destruct e; cbn [apply_event]; [| |repeat split; auto; now apply Forall_forall].
  - repeat split; cbn [st_seq st_reqs st_resps]; auto; try lia.
    + now apply NoDup_dict_set; [apply key_eqb_eq|].
    + apply NoDup_seqs_dict_set; [assumption|]. cbn [seq].
      intro H. apply B in H. lia.
    + apply Forall_forall. intros n H.
      apply In_seqs_dict_set in H. cbn [seq] in H.
      destruct H as [->|H]; [lia|]. apply B in H. lia.
  - repeat split; cbn [st_seq st_reqs st_resps]; auto.
    + now apply NoDup_dict_set; [apply key_eqb_eq|].
    + now apply Forall_forall.
Qed.

Lemma state_ok_loop (ms : list pyval) (st st' : state) :
  state_ok st -> collect_loop st ms = Ok st' -> state_ok st'.
Proof.
  revert st. induction ms as [|m ms IH]; intros st I; simpl.
  - now intros [= <-].
  - destruct (collect_step st m) as [st1|] eqn:E; simpl; [|discriminate].
    apply IH. apply collect_step_Ok in E. destruct E as (e & _ & ->).
    now apply state_ok_event.
Qed.

Lemma collect_messages_Ok (ms : list pyval) reqs resps :
  collect_messages ms = Ok (reqs, resps) ->
  exists st, collect_loop init ms = Ok st /\
             st_reqs st = reqs /\ st_resps st = resps.
Proof.
  unfold collect_messages.
  destruct (collect_loop init ms) as [st|]; simpl; [|discriminate].
  intros [= <- <-]. now exists st.
Qed.

(** The maps that [collect] returns are dicts. *)
Lemma collect_messages_NoDup (ms : list pyval) reqs resps :
  collect_messages ms = Ok (reqs, resps) ->
  NoDup (keys reqs) /\ NoDup (keys resps).
Proof.
  intro H. apply collect_messages_Ok in H. destruct H as (st & L & <- & <-).
  destruct (@state_ok_loop ms init st state_ok_init L) as (? & ? & _). now split.
Qed.



(** ** The selector *)

Ltac tuple_arith :=
  unfold tuple_lt in *; simpl in *;
  rewrite ?orb_true_iff, ?andb_true_iff, ?orb_false_iff, ?andb_false_iff,
    ?Z.ltb_lt, ?Z.eqb_eq, ?Z.ltb_ge, ?Z.eqb_neq in *;
  lia.

Lemma tuple_lt_trans_le (a b c : Z * Z) :
  tuple_lt b a = false -> tuple_lt c b = false -> tuple_lt c a = false.
Proof. destruct a, b, c. intros H1 H2. tuple_arith. Qed.

Lemma tuple_lt_le (a b : Z * Z) : tuple_lt a b = true -> tuple_lt b a = false.
Proof. destruct a, b. intros H. tuple_arith. Qed.

Section SortFacts.
Variable A : Type.
Implicit Types (x y : (Z * Z) * A) (l : list ((Z * Z) * A)).

Lemma hd_insert_keyed x l :
  hd_error (insert_keyed x l) =
  Some (match l with
        | [] => x
        | y :: _ => if tuple_lt (fst y) (fst x) then y else x
        end).
Proof. destruct l as [|y l]; simpl; [reflexivity|]. now destruct (tuple_lt _ _). Qed.

Lemma sort_keyed_nil l : sort_keyed l = [] -> l = [].
Proof.
  destruct l as [|x l]; [reflexivity|]. simpl. intro H.
  pose proof (hd_insert_keyed x (sort_keyed l)) as E. rewrite H in E.
  discriminate.
Qed.

(** The head of the sorted list is the first least element of the list. *)
Lemma hd_sort_keyed l x :
  hd_error (sort_keyed l) = Some x ->
  exists pre post,
    l = pre ++ x :: post /\
    (forall y, In y pre -> tuple_lt (fst x) (fst y) = true) /\
    (forall y, In y post -> tuple_lt (fst y) (fst x) = false).
Proof.
  revert x. induction l as [|a l IH]; intros x; simpl; [discriminate|].
  rewrite hd_insert_keyed.
  destruct (sort_keyed l) as [|y s] eqn:E.
  - intros [= <-]. apply sort_keyed_nil in E. subst l.
    exists [], []. repeat split; intros y [].
  - destruct (IH y eq_refl) as (pre & post & -> & Hpre & Hpost).
    destruct (tuple_lt (fst y) (fst a)) eqn:L; intros [= <-].
    + exists (a :: pre), post. repeat split; auto.
      intros z [<-|Hz]; auto.
    + exists [], (pre ++ y :: post). repeat split; [intros z []|].
      intros z Hz. apply in_app_or in Hz. destruct Hz as [Hz|[<-|Hz]].
      * apply Hpre in Hz. apply tuple_lt_le in Hz.
        eapply tuple_lt_trans_le; eauto.
      * assumption.
      * apply Hpost in Hz. eapply tuple_lt_trans_le; eauto.
Qed.

Variable key_of : A -> result (Z * Z).

Lemma keyed_Ok (l : list A) ks :
  keyed key_of l = Ok ks ->
  map snd ks = l /\ forall k a, In (k, a) ks -> key_of a = Ok k.
Proof.
  revert ks. induction l as [|a l IH]; intros ks; simpl.
  - intros [= <-]. split; [reflexivity | intros ? ? []].
  - destruct (key_of a) as [k|] eqn:Ka; simpl; [|discriminate].
    destruct (keyed key_of l) as [ks'|]; simpl; [|discriminate].
    intros [= <-]. destruct (IH ks' eq_refl) as [M K].
    split; [simpl; now rewrite M|].
    intros k0 a0 [[= <- <-]|H]; auto.
Qed.

Lemma keyed_total (l : list A) :
  (forall a, In a l -> exists k, key_of a = Ok k) ->
  exists ks, keyed key_of l = Ok ks.
Proof.
  induction l as [|a l IH]; intro H; simpl; [now eexists|].
  destruct (H a (or_introl eq_refl)) as [k ->].
  destruct IH as [ks ->]; [intros; apply H; now right|].
  simpl. now eexists.
Qed.

End SortFacts.

(** Renaming the elements without touching the keys commutes with the sort. *)
Lemma sort_keyed_map (A : Type) (g : A -> A) (l : list ((Z * Z) * A)) :
  sort_keyed (map (fun kx => (fst kx, g (snd kx))) l) =
  map (fun kx => (fst kx, g (snd kx))) (sort_keyed l).
Proof.
  induction l as [|x l IH]; simpl; [reflexivity|]. rewrite IH.
  generalize (sort_keyed l). intro s.
  induction s as [|y s IHs]; simpl; [reflexivity|].
  destruct (tuple_lt (fst y) (fst x)); simpl; [now rewrite IHs | reflexivity].
Qed.

Lemma keyed_map (A : Type) (key_of : A -> result (Z * Z)) (g : A -> A)
  (l : list A) :
  (forall a, key_of (g a) = key_of a) ->
  keyed key_of (map g l) =
  ks <- keyed key_of l ;; Ok (map (fun kx => (fst kx, g (snd kx))) ks).
Proof.
  intro H. induction l as [|a l IH]; simpl; [reflexivity|].
  rewrite H. destruct (key_of a); simpl; [|reflexivity].
  rewrite IH. now destruct (keyed key_of l).
Qed.

Lemma upper_lower_ascii (c : ascii) : upper_ascii (lower_ascii c) = upper_ascii c.
Proof. destruct c as [[] [] [] [] [] [] [] []]; reflexivity. Qed.

Lemma lower_upper_ascii (c : ascii) : lower_ascii (upper_ascii c) = lower_ascii c.
Proof. destruct c as [[] [] [] [] [] [] [] []]; reflexivity. Qed.

Lemma upper_lower (s : string) : upper (lower s) = upper s.
Proof. induction s; simpl; [reflexivity|]. now rewrite upper_lower_ascii, IHs. Qed.

Lemma lower_upper (s : string) : lower (upper s) = lower s.
Proof. induction s; simpl; [reflexivity|]. now rewrite lower_upper_ascii, IHs. Qed.

(** A verb is in the POST class exactly when it spells post, in any case. *)
Lemma priorityRank_post (m : string) : priorityRank m = 0 <-> lower m = "post".
Proof.
  unfold priorityRank. destruct (String.eqb (upper m) "POST") eqn:E.
  - apply String.eqb_eq in E. split; [intros _|reflexivity].
    rewrite <- lower_upper, E. reflexivity.
  - apply String.eqb_neq in E. split; [discriminate|]. intro L.
    exfalso. apply E. rewrite <- upper_lower, L. reflexivity.
Qed.

Lemma sort_key_str (c : Candidate) :
  str_method c -> sort_key c = Ok (method_rank c, - seq (rq c)).
Proof.
  unfold str_method, sort_key, method_rank.
  destruct (method (rq c)); simpl; try discriminate. reflexivity.
Qed.

(** [sort_keyed] is the stable sort: its result is a permutation of the
    list, in nondecreasing order of the keys, and elements with the same
    key keep their order.  These three facts determine the result, so the
    insertion sort stands for the sort of [sorted]. *)
Section StableSort.
Variable A : Type.
Implicit Types (x y : (Z * Z) * A) (l : list ((Z * Z) * A)).

Lemma insert_keyed_perm x l : Permutation (insert_keyed x l) (x :: l).
Proof.
  induction l as [|y l IH]; simpl; [reflexivity|].
  destruct (tuple_lt (fst y) (fst x)); [|reflexivity].
  rewrite IH. apply perm_swap.
Qed.

Lemma sort_keyed_perm l : Permutation (sort_keyed l) l.
Proof.
  induction l as [|x l IH]; simpl; [reflexivity|].
  rewrite insert_keyed_perm. now constructor.
Qed.

Lemma insert_keyed_sorted x l :
  StronglySorted (fun a b => tuple_lt (fst b) (fst a) = false) l ->
  StronglySorted (fun a b => tuple_lt (fst b) (fst a) = false) (insert_keyed x l).
Proof.
  induction l as [|y l IH]; simpl; intro S.
  - repeat constructor.
  - inversion S as [|? ? S' F]; subst.
    destruct (tuple_lt (fst y) (fst x)) eqn:L.
    + constructor; [auto|].
      apply Forall_forall. intros z Hz.
      apply (Permutation_in _ (insert_keyed_perm x l)) in Hz.
      destruct Hz as [<-|Hz]; [now apply tuple_lt_le|].
      rewrite Forall_forall in F. auto.
    + constructor; [assumption|]. constructor; [assumption|].
      apply Forall_forall. intros z Hz. rewrite Forall_forall in F.
      apply F in Hz. eapply tuple_lt_trans_le; eauto.
Qed.

Lemma sort_keyed_sorted l :
  StronglySorted (fun a b => tuple_lt (fst b) (fst a) = false) (sort_keyed l).
Proof.
  induction l as [|x l IH]; simpl; [constructor|].
  now apply insert_keyed_sorted.
Qed.

Lemma insert_keyed_stable (k : Z * Z) x l :
  filter (fun y => tuple_eqb (fst y) k) (insert_keyed x l) =
  filter (fun y => tuple_eqb (fst y) k) (x :: l).
Proof.
  induction l as [|y l IH]; [reflexivity|].
  cbn [insert_keyed]. destruct (tuple_lt (fst y) (fst x)) eqn:L; [|reflexivity].
  cbn [filter] in *. rewrite IH.
  destruct (tuple_eqb (fst y) k) eqn:Ey, (tuple_eqb (fst x) k) eqn:Ex;
    try reflexivity.
  exfalso. unfold tuple_eqb in *. destruct x as [[a b] x], y as [[c d] y], k.
  tuple_arith.
Qed.

Lemma sort_keyed_stable (k : Z * Z) l :
  filter (fun y => tuple_eqb (fst y) k) (sort_keyed l) =
  filter (fun y => tuple_eqb (fst y) k) l.
Proof.
  induction l as [|x l IH]; [reflexivity|].
  cbn [sort_keyed]. rewrite insert_keyed_stable. cbn [filter]. now rewrite IH.
Qed.

End StableSort.

Lemma hd_error_map (A B : Type) (f : A -> B) (l : list A) :
  hd_error (map f l) = option_map f (hd_error l).
Proof. now destruct l. Qed.

Lemma pick_best_sorted (cands : list Candidate) :
  cands <> [] ->
  pick_best cands = s <- sorted sort_key cands ;; Ok (hd_error s).
Proof. destruct cands; [congruence | reflexivity]. Qed.

Lemma key_of_keyed (cands : list Candidate) ks k c :
  Forall str_method cands -> keyed sort_key cands = Ok ks -> In (k, c) ks ->
  k = (method_rank c, - seq (rq c)).
Proof.
  intros F K I. destruct (keyed_Ok _ _ K) as [M Hk].
  pose proof (Hk _ _ I) as E.
  assert (In c cands) as Hc.
  { rewrite <- M. change c with (snd (k, c)). now apply in_map. }
  rewrite Forall_forall in F. rewrite (sort_key_str (F _ Hc)) in E.
  congruence.
Qed.

Lemma pick_best_least (cands : list Candidate) :
  cands <> [] -> Forall str_method cands ->
  exists b pre post,
    pick_best cands = Ok (Some b) /\ cands = pre ++ b :: post /\
    (forall c, In c pre -> strictly_before b c) /\
    (forall c, In c post -> not_after b c).
Proof.
  intros NE F. rewrite pick_best_sorted by assumption. unfold sorted.
  destruct (keyed_total sort_key cands) as [ks K].
  { intros a Ha. rewrite Forall_forall in F.
    rewrite (sort_key_str (F a Ha)). now eexists. }
  rewrite K. simpl. rewrite hd_error_map.
  destruct (keyed_Ok _ _ K) as [M _].
  destruct (hd_error (sort_keyed ks)) as [[kb b]|] eqn:H.
  - destruct (hd_sort_keyed _ H) as (pre & post & E & Hpre & Hpost).
    exists b, (map snd pre), (map snd post). simpl.
    assert (Kb : kb = (method_rank b, - seq (rq b))).
    { eapply key_of_keyed; eauto. rewrite E. apply in_or_app. right. now left. }
    repeat split.
    + rewrite <- M, E, map_app. reflexivity.
    + intros c Hc. apply in_map_iff in Hc. destruct Hc as ([kc c'] & <- & Hc).
      assert (Kc : kc = (method_rank c', - seq (rq c'))).
      { eapply key_of_keyed; eauto. rewrite E. apply in_or_app. now left. }
      apply Hpre in Hc. subst kb kc. unfold strictly_before. tuple_arith.
    + intros c Hc. apply in_map_iff in Hc. destruct Hc as ([kc c'] & <- & Hc).
      assert (Kc : kc = (method_rank c', - seq (rq c'))).
      { eapply key_of_keyed; eauto. rewrite E. apply in_or_app. right. now right. }
      apply Hpost in Hc. subst kb kc. unfold not_after. tuple_arith.
  - exfalso. destruct (sort_keyed ks) eqn:S; [|discriminate].
    apply sort_keyed_nil in S. subst ks. simpl in M. congruence.
Qed.

Lemma priorityRank_range (m : string) : priorityRank m = 0 \/ priorityRank m = 1.
Proof. unfold priorityRank. destruct (String.eqb _ _); auto. Qed.

Lemma method_rank_range (c : Candidate) : method_rank c = 0 \/ method_rank c = 1.
Proof.
  unfold method_rank. destruct (method (rq c)); auto using priorityRank_range.
Qed.

Lemma method_rank_POST (c : Candidate) : method_rank c = 0 <-> is_POST c.
Proof.
  unfold method_rank, is_POST. split.
  - destruct (method (rq c)) as [| | | |m| |]; try discriminate.
    intro H. exists m. split; [reflexivity | now apply priorityRank_post].
  - intros (m & -> & H). now apply priorityRank_post.
Qed.

(** What coming first in the order says of the two tests of the policy:
    POST or not, then the seq. *)
Lemma not_after_POST (b c : Candidate) :
  not_after b c ->
  (is_POST c -> is_POST b /\ seq (rq c) <= seq (rq b)) /\
  (~ is_POST b -> ~ is_POST c /\ seq (rq c) <= seq (rq b)).
Proof.
  unfold not_after. intro A.
  pose proof (method_rank_POST b) as Pb. pose proof (method_rank_POST c) as Pc.
  destruct (method_rank_range b) as [Rb|Rb], (method_rank_range c) as [Rc|Rc].
  - split; [intros _; split; [tauto | lia] | intro N; tauto].
  - split; [intro H; apply Pc in H; lia | intro N; tauto].
  - lia.
  - split; [intro H; apply Pc in H; lia|].
    intros _. split; [intro H; apply Pc in H; lia | lia].
Qed.

Section Selector.
Variable json_loads : string -> option pyval.
Variable get_body : key -> string * bool.

(** C2. On a bucket that is not empty the selector returns the candidate
    that comes first when the bucket is sorted on (priorityRank(method),
    -seq): no candidate is before it in that order, and the ones listed
    before it in the bucket are strictly after it.  Any POST beats any
    candidate that is not a POST: when some candidate has a method that
    spells post, in any letter case, so has the selected one, whose seq is
    the highest among those; when the selected one is not a POST, no
    candidate is, and its seq is the highest of all.  On GET 5, POST 2,
    POST 9 it returns POST 9; on GET 9, post 2 it returns post 2, the
    lower seq.  On the empty bucket it returns None and the action is
    printed as not observed. *)
Theorem pick_best_first_in_order :
  (forall cands : list Candidate,
      cands <> [] -> Forall str_method cands ->
      exists b pre post,
        pick_best cands = Ok (Some b) /\ cands = pre ++ b :: post /\
        (forall c, In c cands -> not_after b c) /\
        (forall c, In c pre -> strictly_before b c) /\
        (forall c, In c cands -> method_rank c = 0 ->
                   method_rank b = 0 /\ seq (rq c) <= seq (rq b)) /\
        (forall c, In c cands -> method_rank c = method_rank b ->
                   seq (rq c) <= seq (rq b)) /\
        (forall c, In c cands -> is_POST c ->
                   is_POST b /\ seq (rq c) <= seq (rq b)) /\
        (forall c, In c cands -> ~ is_POST b ->
                   ~ is_POST c /\ seq (rq c) <= seq (rq b))) /\
  pick_best tie_break_candidates = Ok (Some (candidate "POST" 9 "c")) /\
  pick_best post_first_candidates = Ok (Some (candidate "post" 2 "b")) /\
  pick_best [] = Ok None /\
  (forall buckets cresps action,
      dict_get String.eqb action buckets = Some [] ->
      report_action json_loads get_body buckets cresps action =
      ([Text (nl ++ "### " ++ action)%string; Text "not observed"], Ok tt)).
Proof.
  split; [|split; [reflexivity|split; [reflexivity|split; [reflexivity|]]]].
  - intros cands NE F.
    destruct (pick_best_least NE F) as (b & pre & post & P & E & Hpre & Hpost).
    assert (All : forall c, In c cands -> not_after b c).
    { intros c Hc. rewrite E in Hc. apply in_app_or in Hc.
      destruct Hc as [Hc|[<-|Hc]]; auto.
      - apply Hpre in Hc. unfold strictly_before, not_after in *. lia.
      - unfold not_after. lia. }
    assert (Z0 : forall c, In c cands -> method_rank c = 0 ->
                           method_rank b = 0 /\ seq (rq c) <= seq (rq b)).
    { intros c Hc R. apply All in Hc. unfold not_after in Hc.
      destruct (method_rank_range b); lia. }
    exists b, pre, post.
    split; [assumption|]. split; [assumption|]. split; [assumption|].
    split; [assumption|]. split; [assumption|].
    split; [|split].
    + intros c Hc R. apply All in Hc. unfold not_after in Hc. lia.
    + intros c Hc Pc. apply method_rank_POST in Pc.
      destruct (Z0 c Hc Pc) as [Rb S]. split; [|assumption].
      now apply method_rank_POST.
    + intros c Hc Nb.
      assert (Rb : method_rank b = 1).
      { destruct (method_rank_range b) as [R|R]; [|assumption].
        exfalso. apply Nb. now apply method_rank_POST. }
      pose proof (All c Hc) as A. unfold not_after in A.
      destruct (method_rank_range c) as [Rc|Rc].
      * destruct (Z0 c Hc Rc). lia.
      * split; [|lia]. intro Pc. apply method_rank_POST in Pc. lia.
  - intros buckets cresps action H. unfold report_action. now rewrite H.
Qed.

End Selector.

(** On GET 9, post 2 the selected candidate is a POST, and it is not after
    any of the two in the order. *)
Lemma pick_best_first_in_order_witness :
  exists b,
    pick_best post_first_candidates = Ok (Some b) /\ is_POST b /\
    forall c, In c post_first_candidates -> not_after b c.
Proof.
  destruct (proj1 (pick_best_first_in_order Json.loads (fun _ => (EmptyString, false)))
              post_first_candidates)
    as (b & pre & post & P & _ & All & _ & _ & _ & HP & _).
  - discriminate.
  - repeat constructor.
  - exists b. split; [assumption|]. split; [|assumption].
    apply (HP (candidate "post" 2 "b")).
    + right. now left.
    + exists "post". split; reflexivity.
Defined.






(** ** Patterns *)

Lemma lower_ascii_idem (c : ascii) : lower_ascii (lower_ascii c) = lower_ascii c.
Proof. destruct c as [[] [] [] [] [] [] [] []]; reflexivity. Qed.

Lemma lower_ascii_newline (c : ascii) :
  Ascii.eqb (lower_ascii c) Re.newline = Ascii.eqb c Re.newline.
Proof. destruct c as [[] [] [] [] [] [] [] []]; reflexivity. Qed.

Lemma chr_eq_lower (a c : ascii) : Re.chr_eq a (lower_ascii c) = Re.chr_eq a c.
Proof. unfold Re.chr_eq. now rewrite lower_ascii_idem. Qed.

Lemma existsb_chr_eq_lower (c : ascii) (cs : list ascii) :
  existsb (fun a => Re.chr_eq a (lower_ascii c)) cs =
  existsb (fun a => Re.chr_eq a c) cs.
Proof.
  induction cs as [|a cs IH]; simpl; [reflexivity|].
  now rewrite chr_eq_lower, IH.
Qed.

Lemma nullable_lower (bol : bool) (rest : string) (r : Re.regex) :
  Re.nullable bol (lower rest) r = Re.nullable bol rest r.
Proof.
  induction r; simpl; try reflexivity; try congruence.
  destruct rest as [|c [|d rest]]; simpl; try reflexivity.
  - now rewrite lower_ascii_newline.
  - rewrite lower_ascii_newline. now destruct (Ascii.eqb c Re.newline).
Qed.

Lemma deriv_lower (bol : bool) (rest : string) (c : ascii) (r : Re.regex) :
  Re.deriv bol (lower rest) (lower_ascii c) r = Re.deriv bol rest c r.
Proof.
  induction r; simpl; try reflexivity.
  - now rewrite chr_eq_lower.
  - now rewrite lower_ascii_newline.
  - now rewrite existsb_chr_eq_lower.
  - now rewrite existsb_chr_eq_lower.
  - now rewrite IHr1, IHr2, nullable_lower.
  - now rewrite IHr1, IHr2.
  - now rewrite IHr.
Qed.

Lemma match_here_lower (s : string) (bol : bool) (r : Re.regex) :
  Re.match_here bol r (lower s) = Re.match_here bol r s.
Proof.
  revert bol r. induction s as [|c s IH]; intros bol r; simpl.
  - reflexivity.
  - change (String (lower_ascii c) (lower s)) with (lower (String c s)).
    now rewrite nullable_lower, deriv_lower, IH.
Qed.

Lemma search_from_lower (s : string) (bol : bool) (r : Re.regex) :
  Re.search_from bol r (lower s) = Re.search_from bol r s.
Proof.
  revert bol. induction s as [|c s IH]; intros bol.
  - reflexivity.
  - cbn [Re.search_from lower].
    change (String (lower_ascii c) (lower s)) with (lower (String c s)).
    now rewrite match_here_lower, IH.
Qed.

(** Matching does not see the letter case of the url. *)
Lemma matches_case (s t : string) (pats : list string) :
  lower s = lower t -> matches (PStr s) pats = matches (PStr t) pats.
Proof.
  intro E. induction pats as [|p pats IH]; simpl; [reflexivity|].
  unfold Re.search. destruct (Re.compile p) as [r|]; simpl; [|reflexivity].
  rewrite <- (search_from_lower s), <- (search_from_lower t), E, IH.
  reflexivity.
Qed.

(** The table at work on a few urls. *)
Example first_action_examples :
  map (fun u => first_action (PStr u) ACTIONS)
      ["https://www.webstaurantstore.com/cart/";
       "https://www.webstaurantstore.com/GraphQL";
       "https://www.webstaurantstore.com/cart/?add=1";
       "https://www.webstaurantstore.com/checkout/start";
       "https://www.webstaurantstore.com/myaccount/Sign-In";
       "https://www.webstaurantstore.com/img/logo.png"] =
  [Ok (Some "view_cart"); Ok (Some "fetch_product"); Ok (Some "add_to_cart");
   Ok (Some "go_to_checkout"); Ok (Some "sign_in"); Ok None].
Proof. vm_compute. reflexivity. Qed.

Lemma actions_compile :
  forallb (fun a => forallb compiles (snd a)) ACTIONS = true.
Proof. vm_compute. reflexivity. Qed.

Lemma matches_total (s : string) (pats : list string) :
  forallb compiles pats = true -> exists b, matches (PStr s) pats = Ok b.
Proof.
  induction pats as [|p pats IH]; simpl; [now eexists|].
  intro H. apply andb_true_iff in H. destruct H as [C H].
  unfold Re.search, compiles in *. destruct (Re.compile p); [|discriminate].
  simpl. destruct (Re.search_from true r s); [now eexists | auto].
Qed.

Lemma matches_true (u : pyval) (pats : list string) :
  matches u pats = Ok true -> exists p, In p pats /\ Re.search p u = Ok true.
Proof.
  induction pats as [|p pats IH]; simpl; [discriminate|].
  destruct (Re.search p u) as [[|]|] eqn:E; simpl; try discriminate.
  - intros _. exists p. auto.
  - intro H. destruct (IH H) as (q & I & S). exists q. auto.
Qed.

Lemma first_action_total (s : string) (actions : list (string * list string)) :
  forallb (fun a => forallb compiles (snd a)) actions = true ->
  exists o, first_action (PStr s) actions = Ok o.
Proof.
  induction actions as [|[a pats] actions IH]; simpl; [now eexists|].
  intro H. apply andb_true_iff in H. destruct H as [C H].
  destruct (matches_total s pats C) as [b ->]. simpl.
  destruct b; [now eexists | auto].
Qed.

(** First match wins: the action returned is the first of the table with a
    matching pattern set. *)
Lemma first_action_Some (u : pyval) (actions : list (string * list string))
  (a : string) :
  first_action u actions = Ok (Some a) <->
  exists pre pats post,
    actions = pre ++ (a, pats) :: post /\ matches u pats = Ok true /\
    forall a' ps, In (a', ps) pre -> matches u ps = Ok false.
Proof.
  induction actions as [|[a0 pats0] actions IH]; simpl.
  - split; [discriminate|]. intros (pre & pats & post & E & _).
    destruct pre; discriminate.
  - destruct (matches u pats0) as [[|]|] eqn:M; simpl.
    + split.
      * intros [= <-]. exists [], pats0, actions. repeat split; auto.
        intros ? ? [].
      * intros (pre & pats & post & E & T & F).
        destruct pre as [|[a1 p1] pre]; simpl in E.
        -- now injection E as -> _ _.
        -- injection E as -> -> _.
           rewrite (F a1 p1 (or_introl eq_refl)) in M. discriminate.
    + rewrite IH. split.
      * intros (pre & pats & post & -> & T & F).
        exists ((a0, pats0) :: pre), pats, post. repeat split; auto.
        intros a' ps [[= <- <-]|H]; eauto.
      * intros (pre & pats & post & E & T & F).
        destruct pre as [|[a1 p1] pre]; simpl in E.
        -- injection E as -> -> _. rewrite T in M. discriminate.
        -- injection E as -> -> ->. exists pre, pats, post.
           repeat split; auto. intros a' ps H. apply (F a' ps). now right.
    + split; [discriminate|].
      intros (pre & pats & post & E & T & F).
      destruct pre as [|[a1 p1] pre]; simpl in E.
      * injection E as -> -> _. rewrite T in M. discriminate.
      * injection E as -> -> _.
        rewrite (F a1 p1 (or_introl eq_refl)) in M. discriminate.
Qed.

Lemma first_action_In (u : pyval) (actions : list (string * list string))
  (a : string) :
  first_action u actions = Ok (Some a) -> In a (map fst actions).
Proof.
  intro H. apply first_action_Some in H.
  destruct H as (pre & pats & post & -> & _).
  rewrite map_app. apply in_or_app. right. now left.
Qed.

Lemma matches_existsb (s : string) (pats : list string) :
  forallb compiles pats = true ->
  matches (PStr s) pats =
  Ok (existsb (fun p => match Re.search p (PStr s) with
                        | Ok b => b
                        | Raise _ => false
                        end) pats).
Proof.
  induction pats as [|p pats IH]; simpl; [reflexivity|].
  intro H. apply andb_true_iff in H. destruct H as [C H].
  destruct (Re.search p (PStr s)) as [[|]|] eqn:E; simpl; auto.
  unfold Re.search, compiles in *. destruct (Re.compile p); discriminate.
Qed.

(** [matches] on patterns that compile says whether one of them is found. *)
Lemma matches_found (s : string) (pats : list string) :
  forallb compiles pats = true ->
  (matches (PStr s) pats = Ok true <-> found_in (PStr s) pats) /\
  (matches (PStr s) pats = Ok false <-> ~ found_in (PStr s) pats).
Proof.
  intro C. rewrite (matches_existsb s pats C).
  set (b := existsb _ pats).
  assert (E : b = true <-> found_in (PStr s) pats).
  { subst b. rewrite existsb_exists. unfold found_in. split.
    - intros (p & I & H). exists p. split; [assumption|].
      destruct (Re.search p (PStr s)) as [[|]|]; congruence.
    - intros (p & I & H). exists p. now rewrite H. }
  clearbody b. destruct b.
  - split; split; try discriminate; try reflexivity.
    + intros _. now apply E.
    + intro N. exfalso. apply N. now apply E.
  - split; split; try discriminate; try reflexivity.
    + intro F. apply E in F. discriminate.
    + intros _ F. apply E in F. discriminate.
Qed.

Lemma actions_split_compile (pre post : list (string * list string))
  (a : string) (pats : list string) :
  ACTIONS = pre ++ (a, pats) :: post ->
  forallb compiles pats = true /\
  forall a' ps, In (a', ps) pre -> forallb compiles ps = true.
Proof.
  intro E. pose proof actions_compile as C. rewrite forallb_forall in C.
  split.
  - apply (C (a, pats)). rewrite E. apply in_or_app. right. now left.
  - intros a' ps I. apply (C (a', ps)). rewrite E. apply in_or_app. now left.
Qed.

(** The loop over the table stops at the first action with a pattern found
    in the url. *)
Lemma first_action_first_match (s a : string) :
  first_action (PStr s) ACTIONS = Ok (Some a) <-> first_match (PStr s) a.
Proof.
  rewrite first_action_Some. unfold first_match. split.
  - intros (pre & pats & post & E & T & F). exists pre, pats, post.
    destruct (@actions_split_compile _ _ _ _ E) as [Cp Cpre].
    split; [assumption|]. split.
    + now apply (matches_found s pats Cp).
    + intros a' ps I. apply (matches_found s ps (Cpre _ _ I)). eauto.
  - intros (pre & pats & post & E & T & F). exists pre, pats, post.
    destruct (@actions_split_compile _ _ _ _ E) as [Cp Cpre].
    split; [assumption|]. split.
    + now apply (matches_found s pats Cp).
    + intros a' ps I. apply (matches_found s ps (Cpre _ _ I)). eauto.
Qed.

Lemma first_match_str (u : pyval) (a : string) :
  first_match u a -> exists s, u = PStr s.
Proof.
  intros (pre & pats & post & _ & (p & _ & S) & _).
  unfold Re.search in S. destruct (Re.compile p); [|discriminate].
  destruct u; try discriminate. now eexists.
Qed.

Lemma first_match_unique (u : pyval) (a a' : string) :
  first_match u a -> first_match u a' -> a = a'.
Proof.
  intros H H'. destruct (first_match_str H) as [s ->].
  apply first_action_first_match in H, H'. congruence.
Qed.

Lemma search_case (s t p : string) :
  lower s = lower t -> Re.search p (PStr s) = Re.search p (PStr t).
Proof.
  intro E. unfold Re.search. destruct (Re.compile p) as [r|]; [|reflexivity].
  now rewrite <- (search_from_lower s), <- (search_from_lower t), E.
Qed.

(** ** Bucketing *)

Lemma actions_names : map fst ACTIONS = ACTION_NAMES.
Proof. reflexivity. Qed.

Lemma bucket_of_set (buckets : list (string * list Candidate))
  (a a' : string) (l : list Candidate) :
  bucket_of (dict_set String.eqb a l buckets) a' =
  if String.eqb a' a then l else bucket_of buckets a'.
Proof.
  unfold bucket_of. destruct (String.eqb a' a) eqn:E.
  - apply String.eqb_eq in E. subst.
    now rewrite dict_get_set_same by apply String.eqb_eq.
  - apply String.eqb_neq in E.
    rewrite dict_get_set_other; [reflexivity | apply String.eqb_eq | congruence].
Qed.

Lemma bucketize_loop_spec (items : list (key * RequestRecord)) :
  forall buckets,
    Forall str_url items ->
    (forall a, In a (map fst ACTIONS) -> In a (keys buckets)) ->
    exists buckets',
      bucketize_loop buckets items = Ok buckets' /\
      keys buckets' = keys buckets /\
      forall a,
        bucket_of buckets' a =
        bucket_of buckets a ++
        map as_candidate (filter (fun it => assigned a (url (snd it))) items).
Proof.
  induction items as [|[k r] items IH]; intros buckets F Hk.
  - exists buckets. repeat split. intro a. simpl. now rewrite app_nil_r.
  - inversion F as [|? ? U F']; subst. unfold str_url in U. simpl in U.
    destruct (url r) as [| | | |s| |] eqn:Eu; try discriminate.
    destruct (first_action_total s ACTIONS actions_compile) as [o Ho].
    cbn [bucketize_loop]. unfold bucketize_step. cbn [snd fst]. rewrite Eu, Ho.
    cbn [bind].
    destruct o as [a0|].
    + pose proof (Hk a0 (first_action_In _ _ Ho)) as I0.
      unfold bucket_append.
      destruct (dict_get String.eqb a0 buckets) as [l|] eqn:G.
      2:{ exfalso. apply (@dict_get_None _ _ String.eqb String.eqb_eq) in G. contradiction. }
      cbn [bind].
      assert (K : keys (dict_set String.eqb a0 (l ++ [mkCand r k]) buckets)
                  = keys buckets).
      { rewrite keys_dict_set. unfold dict_mem. now rewrite G. }
      destruct (IH (dict_set String.eqb a0 (l ++ [mkCand r k]) buckets) F')
        as (b' & L & K' & B).
      { now rewrite K. }
      exists b'. split; [assumption|]. split; [congruence|].
      intro a. rewrite B, bucket_of_set. cbn [filter snd].
      unfold assigned at 2. rewrite Eu, Ho.
      destruct (String.eqb a a0) eqn:E.
      * apply String.eqb_eq in E. subst a0.
        unfold bucket_of. rewrite G. cbn [map]. now rewrite <- app_assoc.
      * reflexivity.
    + destruct (IH buckets F' Hk) as (b' & L & K' & B).
      exists b'. split; [assumption|]. split; [assumption|].
      intro a. rewrite B. cbn [filter snd]. unfold assigned at 2.
      now rewrite Eu, Ho.
Qed.

Lemma NoDup_keys_filter (V : Type) (f : key * V -> bool) (l : list (key * V)) :
  NoDup (keys l) -> NoDup (keys (filter f l)).
Proof.
  induction l as [|x l IH]; simpl; intro ND; [constructor|].
  inversion ND as [|? ? NI ND']; subst.
  destruct (f x); simpl; [|auto].
  constructor; [|auto]. intro H. apply NI.
  unfold keys in *. apply in_map_iff in H. destruct H as (y & E & Hy).
  apply filter_In in Hy. apply in_map_iff. exists y. tauto.
Qed.

Lemma In_same_key (V : Type) (l : list (key * V)) (k : key) (v v' : V) :
  NoDup (keys l) -> In (k, v) l -> In (k, v') l -> v = v'.
Proof.
  intros ND H H'.
  apply (@In_dict_get _ _ key_eqb key_eqb_eq _ _ _ ND) in H.
  apply (@In_dict_get _ _ key_eqb key_eqb_eq _ _ _ ND) in H'. congruence.
Qed.

Lemma bucketize_spec (creqs : list (key * RequestRecord)) :
  Forall str_url creqs ->
  exists buckets,
    bucketize creqs = Ok buckets /\ keys buckets = ACTION_NAMES /\
    forall a,
      bucket_of buckets a =
      map as_candidate (filter (fun it => assigned a (url (snd it))) creqs).
Proof.
  intro F. unfold bucketize.
  destruct (bucketize_loop_spec (map (fun a => (fst a, [])) ACTIONS) F)
    as (b & L & K & B).
  { intros a Ha. exact Ha. }
  exists b. repeat split; auto.
  intro a. rewrite B.
  replace (bucket_of (map (fun a0 => (fst a0, [])) ACTIONS) a) with (@nil Candidate);
    [reflexivity|].
  unfold bucket_of.
  destruct (dict_get String.eqb a (map (fun a0 => (fst a0, [])) ACTIONS)) eqn:G;
    [|reflexivity].
  apply (@dict_get_In _ _ String.eqb String.eqb_eq) in G. simpl in G.
  repeat (destruct G as [[= _ <-]|G]; [reflexivity|]). destruct G.
Qed.

Lemma In_bucket (creqs : list (key * RequestRecord)) (a : string) (c : Candidate) :
  In c (map as_candidate (filter (fun it => assigned a (url (snd it))) creqs)) <->
  In (rid c, rq c) creqs /\ first_action (url (rq c)) ACTIONS = Ok (Some a).
Proof.
  rewrite in_map_iff. split.
  - intros ([k r] & <- & H). apply filter_In in H. destruct H as [I A].
    cbn [as_candidate rid rq snd fst] in *.
    split; [assumption|]. unfold assigned in A.
    destruct (first_action (url r) ACTIONS) as [[a'|]|]; try discriminate.
    apply String.eqb_eq in A. now subst.
  - intros [I A]. exists (rid c, rq c). split; [now destruct c|].
    apply filter_In. split; [assumption|]. cbn [snd]. unfold assigned.
    rewrite A. apply String.eqb_refl.
Qed.

(** C3. Each request of the combined view goes to the bucket of the first
    action, in the order fetch_product, add_to_cart, view_cart,
    go_to_checkout, sign_in, one of whose patterns is found in its url, the
    letter case of the url being ignored, and to no other bucket: a request
    is in the bucket of an action exactly when a pattern of that action is
    found in its url and no pattern of an action listed earlier is; a
    request in whose url no pattern of the table is found is in no bucket.
    A bucket holds its requests in the order of the combined view; an id
    is in at most one bucket, once, and a url has at most one first
    action. *)
Theorem bucketing_exclusive_first_match :
  forall creqs : list (key * RequestRecord),
    NoDup (keys creqs) -> Forall str_url creqs ->
    exists buckets,
      bucketize creqs = Ok buckets /\
      keys buckets = ACTION_NAMES /\ map fst ACTIONS = ACTION_NAMES /\
      (forall a,
          bucket_of buckets a =
          map as_candidate (filter (fun it => assigned a (url (snd it))) creqs)) /\
      (forall a k r,
          In (mkCand r k) (bucket_of buckets a) <->
          In (k, r) creqs /\ first_action (url r) ACTIONS = Ok (Some a)) /\
      (forall a c,
          In c (bucket_of buckets a) ->
          exists pre pats post p,
            ACTIONS = pre ++ (a, pats) :: post /\
            In p pats /\ Re.search p (url (rq c)) = Ok true /\
            forall a' ps, In (a', ps) pre -> matches (url (rq c)) ps = Ok false) /\
      (forall a a' c c',
          In c (bucket_of buckets a) -> In c' (bucket_of buckets a') ->
          rid c = rid c' -> a = a' /\ c = c') /\
      (forall a, NoDup (map rid (bucket_of buckets a))) /\
      (forall s t pats,
          lower s = lower t -> matches (PStr s) pats = matches (PStr t) pats) /\
      map fst ACTIONS =
      ["fetch_product"; "add_to_cart"; "view_cart"; "go_to_checkout"; "sign_in"] /\
      (forall a k r,
          In (mkCand r k) (bucket_of buckets a) <->
          In (k, r) creqs /\ first_match (url r) a) /\
      (forall a k r pre pats post p,
          In (k, r) creqs ->
          ACTIONS = pre ++ (a, pats) :: post ->
          In p pats -> Re.search p (url r) = Ok true ->
          (forall a' ps q, In (a', ps) pre -> In q ps ->
                           Re.search q (url r) <> Ok true) ->
          In (mkCand r k) (bucket_of buckets a)) /\
      (forall k r,
          In (k, r) creqs ->
          (forall a ps q, In (a, ps) ACTIONS -> In q ps ->
                          Re.search q (url r) <> Ok true) ->
          forall a, ~ In (mkCand r k) (bucket_of buckets a)) /\
      (forall a c,
          In c (bucket_of buckets a) ->
          exists k r, c = mkCand r k /\ In (k, r) creqs) /\
      (forall s t p,
          lower s = lower t -> Re.search p (PStr s) = Re.search p (PStr t)) /\
      (forall u a a', first_match u a -> first_match u a' -> a = a').
Proof.
  intros creqs ND F.
  destruct (bucketize_spec F) as (buckets & B & K & C).
  assert (FM : forall a k r,
             In (mkCand r k) (bucket_of buckets a) <->
             In (k, r) creqs /\ first_match (url r) a).
  { intros a k r. rewrite C.
    rewrite (In_bucket creqs a (mkCand r k)). cbn [rid rq].
    split; intros [I H]; (split; [assumption|]).
    - rewrite Forall_forall in F. pose proof (F _ I) as U.
      unfold str_url in U. cbn [snd] in U.
      destruct (url r) as [| | | |s| |]; try discriminate.
      now apply first_action_first_match.
    - destruct (first_match_str H) as [s E]. rewrite E in *.
      now apply first_action_first_match. }
  exists buckets. split; [assumption|]. split; [assumption|].
  split; [reflexivity|]. split; [assumption|].
  split; [|split; [|split; [|split; [|split; [|split; [|split; [|split; [|split; [|split; [|split]]]]]]]]]].
  - intros a k r. rewrite C. apply (In_bucket creqs a (mkCand r k)).
  - intros a c H. rewrite C in H. apply In_bucket in H. destruct H as [_ H].
    apply first_action_Some in H. destruct H as (pre & pats & post & E & M & N).
    destruct (matches_true _ _ M) as (p & Ip & S).
    exists pre, pats, post, p. auto.
  - intros a a' c c' H H' R. rewrite C in H, H'.
    apply In_bucket in H, H'. destruct H as [I A], H' as [I' A'].
    rewrite <- R in I'.
    pose proof (@In_same_key _ creqs _ _ _ ND I I') as E.
    rewrite <- E in A'. split; [congruence|].
    destruct c, c'. simpl in *. congruence.
  - intro a. rewrite C, map_map. cbn [as_candidate rid].
    apply (@NoDup_keys_filter _ _ creqs ND).
  - apply matches_case.
  - reflexivity.
  - exact FM.
  - intros a k r pre pats post p I E Ip S N. apply FM. split; [assumption|].
    exists pre, pats, post. split; [assumption|]. split.
    + exists p. auto.
    + intros a' ps I' (q & Iq & Sq). exact (N a' ps q I' Iq Sq).
  - intros k r I N a H. apply FM in H. destruct H as [_ H].
    destruct H as (pre & pats & post & E & (p & Ip & S) & _).
    apply (N a pats p); [|assumption|assumption].
    rewrite E. apply in_or_app. right. now left.
  - intros a c H. exists (rid c), (rq c). split; [now destruct c|].
    rewrite C in H. apply In_bucket in H. tauto.
  - apply search_case.
  - apply first_match_unique.
Qed.

(** A view with a request for each action, listed from the last action to
    the first: the bucket of go_to_checkout holds the three requests with
    /checkout in the url, that of sign_in the request for Sign-In; the url
    with API/v2/Cart, found by the pattern /api/.*cart of add_to_cart and
    of view_cart, is in the bucket of add_to_cart only; the image is in
    none. *)
Lemma bucketing_exclusive_first_match_witness :
  exists buckets,
    bucketize checkout_requests = Ok buckets /\
    map (fun a => (a, map rid (bucket_of buckets a))) ACTION_NAMES =
    [("fetch_product", [KStr "5"]); ("add_to_cart", [KStr "4"]);
     ("view_cart", [KStr "3"]);
     ("go_to_checkout", [KStr "2"; KStr "7"; KStr "8"]);
     ("sign_in", [KStr "1"])] /\
    In (mkCand (mkReq 2 (PStr "https://shop.example/checkout/start") (PStr "GET")
                  (PDict []) PNone) (KStr "2"))
       (bucket_of buckets "go_to_checkout") /\
    forall a,
      ~ In (mkCand (mkReq 6 (PStr "https://shop.example/logo.png") (PStr "GET")
                      (PDict []) PNone) (KStr "6"))
           (bucket_of buckets a).
Proof.
  destruct (@bucketing_exclusive_first_match checkout_requests)
    as (buckets & B & _ & _ & C & _ & _ & _ & _ & _ & _ & _ & P & N & _).
  - repeat constructor; simpl; intuition discriminate.
  - repeat constructor.
  - exists buckets. split; [assumption|]. split; [|split].
    + cbn [map ACTION_NAMES]. rewrite !C. vm_compute. reflexivity.
    + apply (P "go_to_checkout" (KStr "2") _
               [("fetch_product",
                 ["/graphql"; "/api/.*product"; "/ajax/.*product";
                  "/product.*price"; "/inventory"; "/availability"]);
                ("add_to_cart",
                 ["/cart.*add"; "/cart/line"; "/ajax/.*cart"; "/api/.*cart";
                  "/cart\?"]);
                ("view_cart",
                 ["^https://[^/]+/cart/?$"; "/cart(\?|$)"; "/api/.*cart"])]
               ["/checkout"; "/checkout/start"; "/api/.*checkout";
                "/ajax/.*checkout"]
               [("sign_in",
                 ["/login"; "/sign-?in"; "/session"; "/oauth"; "/identity";
                  "/api/.*auth"; "/auth"])]
               "/checkout/start").
      * right. now left.
      * reflexivity.
      * right. now left.
      * vm_compute. reflexivity.
      * intros a' ps q I Iq. cbn [url].
        repeat (destruct I as [[= <- <-]|I];
                [repeat (destruct Iq as [<-|Iq];
                         [vm_compute; discriminate|]); destruct Iq|]).
        destruct I.
    + apply N.
      * do 5 right. now left.
      * intros a ps q I Iq. cbn [url].
        repeat (destruct I as [[= <- <-]|I];
                [repeat (destruct Iq as [<-|Iq];
                         [vm_compute; discriminate|]); destruct Iq|]).
        destruct I.
Defined.

(** ** The report *)

Lemma In_values_dict_set (V : Type) (k : key) (v x : V) (d : list (key * V)) :
  In x (values (dict_set key_eqb k v d)) -> x = v \/ In x (values d).
Proof.
  induction d as [|[k' v'] d IH]; simpl.
  - intros [<-|[]]. now left.
  - destruct (key_eqb k k'); simpl.
    + intros [<-|H]; auto.
    + intros [<-|H]; auto. destruct (IH H); auto.
Qed.

Lemma Forall_values_update (V : Type) (P : V -> Prop) (e d : list (key * V)) :
  Forall P (values d) -> Forall P (values e) ->
  Forall P (values (dict_update key_eqb d e)).
Proof.
  unfold dict_update. revert d.
  induction e as [|[k v] e IH]; simpl; intros d Hd He; [assumption|].
  inversion He; subst. apply IH; [|assumption].
  apply Forall_forall. intros x Hx. apply In_values_dict_set in Hx.
  destruct Hx as [->|Hx]; [assumption|].
  rewrite Forall_forall in Hd. auto.
Qed.

Lemma combined_requests_ok (snaps : list PhaseSnapshot) :
  (forall s, In s snaps -> requests_ok (reqs s)) ->
  requests_ok (combined_reqs snaps).
Proof.
  induction snaps as [|s snaps IH] using rev_ind; intro H.
  - constructor.
  - unfold combined_reqs. rewrite combine_snoc. simpl.
    apply Forall_values_update.
    + apply IH. intros s' Hs'. apply H, in_or_app. now left.
    + apply H, in_or_app. right. now left.
Qed.

Section Report.
Variable json_loads : string -> option pyval.
Variable get_body : key -> string * bool.
Variable utcnow : string.

Lemma redact_dict (d : list (string * pyval)) :
  redact (PDict d) =
  Ok (map (fun kv => (fst kv, if hidden (fst kv) then REDACTED else snd kv)) d).
Proof. unfold redact. now destruct d. Qed.

Lemma io_bind_Ok (A B : Type) (c : io A) (f : A -> io B) (a : A) :
  snd c = Ok a -> io_bind c f = (fst c ++ fst (f a), snd (f a)).
Proof. destruct c as [out r]. simpl. now intros ->. Qed.

Lemma print_body_ok (body : string) (b64 : bool) :
  snd (print_body body b64) = Ok tt.
Proof.
  unfold print_body.
  destruct (negb (String.eqb body "")); [destruct b64|]; reflexivity.
Qed.

Lemma print_post_data_ok (pd : pyval) :
  pd = PNone \/ is_str pd = true ->
  snd (print_post_data json_loads pd) = Ok tt.
Proof.
  intros [->|P]; [reflexivity|].
  destruct pd as [| | | |s| |]; try discriminate.
  unfold print_post_data. destruct (truthy (PStr s)); [|reflexivity].
  cbn. now destruct (json_loads s).
Qed.

(** What [print_request] prints once the headers are redacted. *)
Lemma print_request_shape (title : string) (req : Candidate)
  (resp : option ResponseRecord) (body : string) (b64 : bool)
  (h : list (string * pyval)) :
  redact (headers (rq req)) = Ok h ->
  snd (print_post_data json_loads (postData (rq req))) = Ok tt ->
  print_request json_loads title req resp body b64 =
  (printed_head title req h ++
   fst (print_post_data json_loads (postData (rq req))) ++
   printed_response resp ++ fst (print_body body b64),
   Ok tt).
Proof.
  intros R P. unfold print_request. rewrite R.
  cbn [lift io_bind print fst snd app].
  rewrite (io_bind_Ok _ _ P). cbn [lift io_bind print fst snd app].
  rewrite print_body_ok. unfold printed_head, printed_response.
  cbn [app]. reflexivity.
Qed.

(** On a record with the types of a RequestRecord [print_request] raises
    nothing. *)
Lemma print_request_ok (title : string) (req : Candidate)
  (resp : option ResponseRecord) (body : string) (b64 : bool) :
  request_ok (rq req) ->
  snd (print_request json_loads title req resp body b64) = Ok tt.
Proof.
  intros (_ & _ & H & P).
  destruct (headers (rq req)) as [| | | | | |d] eqn:E; try discriminate.
  erewrite print_request_shape; [reflexivity | |].
  - rewrite E. apply redact_dict.
  - now apply print_post_data_ok.
Qed.

Lemma report_actions_ok (buckets : list (string * list Candidate))
  (cresps : list (key * ResponseRecord)) (names : list string) :
  (forall a, In a names ->
             snd (report_action json_loads get_body buckets cresps a) = Ok tt) ->
  report_actions json_loads get_body buckets cresps names =
  (flat_map (fun a => fst (report_action json_loads get_body buckets cresps a))
            names, Ok tt).
Proof.
  induction names as [|a names IH]; intro H; [reflexivity|].
  cbn [report_actions flat_map]. unfold io_bind at 1.
  pose proof (H a (or_introl eq_refl)) as Ha.
  destruct (report_action json_loads get_body buckets cresps a) as [out r].
  simpl in Ha. subst r. rewrite IH; [reflexivity|].
  intros a' Ha'. apply H. now right.
Qed.

(** What one turn of the loop prints: not observed for an empty bucket,
    the exchange picked by the selector otherwise. *)
Lemma report_action_cases (buckets : list (string * list Candidate))
  (cresps : list (key * ResponseRecord)) (a : string) :
  In a (keys buckets) ->
  Forall (fun c => request_ok (rq c)) (bucket_of buckets a) ->
  (bucket_of buckets a = [] /\
   report_action json_loads get_body buckets cresps a =
   ([heading a; Text "not observed"], Ok tt)) \/
  (exists b,
      In b (bucket_of buckets a) /\
      pick_best (bucket_of buckets a) = Ok (Some b) /\
      report_action json_loads get_body buckets cresps a =
      (heading a ::
       fst (print_request json_loads a b (dict_get key_eqb (rid b) cresps)
              (fst (get_body (rid b))) (snd (get_body (rid b)))),
       Ok tt)).
Proof.
  intros I F. unfold bucket_of in *. unfold report_action.
  destruct (dict_get String.eqb a buckets) as [bucket|] eqn:G.
  2:{ exfalso. apply (@dict_get_None _ _ String.eqb String.eqb_eq) in G.
      contradiction. }
  destruct bucket as [|c bucket]; [left; split; reflexivity|].
  right.
  destruct (@pick_best_least (c :: bucket)) as (b & pre & post & P & E & _).
  { discriminate. }
  { eapply Forall_impl; [|exact F]. intros x (_ & M & _). exact M. }
  exists b. split; [rewrite E; apply in_or_app; right; now left|].
  split; [assumption|].
  cbn [lift io_bind print fst snd app]. rewrite P.
  cbn [lift io_bind print fst snd app option_map].
  rewrite print_request_ok; [reflexivity|].
  rewrite Forall_forall in F. apply F. rewrite E. apply in_or_app. right. now left.
Qed.

Lemma summary_spec (creqs : list (key * RequestRecord))
  (cresps : list (key * ResponseRecord)) :
  requests_ok creqs ->
  exists buckets,
    bucketize creqs = Ok buckets /\ keys buckets = ACTION_NAMES /\
    (forall a c, In c (bucket_of buckets a) -> request_ok (rq c)) /\
    summary json_loads get_body creqs cresps =
    (SUMMARY_TITLE ::
     flat_map (fun a => fst (report_action json_loads get_body buckets cresps a))
              ACTION_NAMES,
     Ok tt).
Proof.
  intro R. unfold requests_ok, values in R. rewrite Forall_map in R.
  destruct (@bucketize_spec creqs) as (buckets & B & K & C).
  { eapply Forall_impl; [|exact R]. intros x (U & _). exact U. }
  assert (Hc : forall a c, In c (bucket_of buckets a) -> request_ok (rq c)).
  { intros a c H. rewrite C in H. apply In_bucket in H. destruct H as [H _].
    rewrite Forall_forall in R. apply (R _ H). }
  exists buckets. split; [assumption|]. split; [assumption|].
  split; [assumption|].
  unfold summary. rewrite B. cbn [lift io_bind print fst snd app].
  rewrite report_actions_ok; [reflexivity|].
  intros a Ha.
  destruct (@report_action_cases buckets cresps a) as [[_ ->]|(b & _ & _ & ->)];
    try reflexivity.
  - now rewrite K.
  - apply Forall_forall. intros c Hc'. eapply Hc; eauto.
Qed.

End Report.

Section Summary.
Variable json_loads : string -> option pyval.
Variable get_body : key -> string * bool.
Variable utcnow : string.

(** On a combined view whose request records have the types of a
    RequestRecord, the buckets have exactly the five action names as keys,
    and the summary, which raises nothing, has one section per action name,
    in order: not observed when the bucket is empty, the exchange picked by
    the selector otherwise.  On the empty combined view the five sections
    are not observed. *)
Lemma classification_complete :
  forall (creqs : list (key * RequestRecord))
         (cresps : list (key * ResponseRecord)),
    (requests_ok creqs ->
     exists buckets,
       bucketize creqs = Ok buckets /\ keys buckets = ACTION_NAMES /\
       summary json_loads get_body creqs cresps =
       (SUMMARY_TITLE ::
        flat_map (fun a => fst (report_action json_loads get_body buckets cresps a))
                 ACTION_NAMES,
        Ok tt) /\
       forall a, In a ACTION_NAMES ->
         (bucket_of buckets a = [] /\
          report_action json_loads get_body buckets cresps a =
          ([heading a; Text "not observed"], Ok tt)) \/
         (exists b,
             In b (bucket_of buckets a) /\
             pick_best (bucket_of buckets a) = Ok (Some b) /\
             report_action json_loads get_body buckets cresps a =
             (heading a ::
              fst (print_request json_loads a b (dict_get key_eqb (rid b) cresps)
                     (fst (get_body (rid b))) (snd (get_body (rid b)))),
              Ok tt))) /\
    bucketize [] = Ok (map (fun a => (a, [])) ACTION_NAMES) /\
    summary json_loads get_body [] cresps =
    (SUMMARY_TITLE ::
     flat_map (fun a => [heading a; Text "not observed"]) ACTION_NAMES,
     Ok tt).
Proof.
  intros creqs cresps. split; [|split; reflexivity].
  intro R.
  destruct (summary_spec json_loads get_body cresps R) as (buckets & B & K & C & S).
  exists buckets. split; [assumption|]. split; [assumption|].
  split; [assumption|].
  intros a Ha. apply report_action_cases.
  - now rewrite K.
  - apply Forall_forall. intros c Hc. eapply C; eauto.
Qed.

(** C7. A message Network.responseReceived with an id makes [collect] set
    the response record of that id, whatever the requests stored so far;
    the counter and the requests are left as they are.  Snapshots with a
    request without response or a response without request go through the
    report without an exception and are dumped as they are; a picked
    request without response is printed with status None and no headers. *)
Theorem response_stored_unconditionally :
  (forall (st : state) (m p rid : pyval) (k : key) (r : list (string * pyval)),
      get m "method" PNone = Ok (PStr "Network.responseReceived") ->
      get m "params" (PDict []) = Ok p ->
      get p "requestId" PNone = Ok rid ->
      truthy rid = true -> hash_key rid = Ok k ->
      get p "response" (PDict []) = Ok (PDict r) ->
      exists s h mt,
        get (PDict r) "status" PNone = Ok s /\
        get (PDict r) "headers" (PDict []) = Ok h /\
        get (PDict r) "mimeType" PNone = Ok mt /\
        collect_step st m =
        Ok (mkSt (st_seq st) (st_reqs st)
              (dict_set key_eqb k (mkResp s h mt) (st_resps st))) /\
        dict_get key_eqb k (dict_set key_eqb k (mkResp s h mt) (st_resps st))
        = Some (mkResp s h mt)) /\
  (forall snaps : list PhaseSnapshot,
      (forall s, In s snaps -> requests_ok (reqs s)) ->
      snd (report json_loads get_body utcnow snaps) =
      Ok (mkDump (utcnow ++ "Z")%string snaps)) /\
  (forall title req body b64,
      request_ok (rq req) ->
      exists h,
        print_request json_loads title req None body b64 =
        (printed_head title req h ++
         fst (print_post_data json_loads (postData (rq req))) ++
         [Fmt "STATUS: " PNone; Text "RESPONSE_HEADERS:"; Json (PDict [])] ++
         fst (print_body body b64),
         Ok tt)).
Proof.
  split; [|split].
  - intros st m p rid k r Hn Hp Hrid T Hk Hr.
    do 3 eexists. split; [reflexivity|]. split; [reflexivity|].
    split; [reflexivity|]. split.
    + unfold collect_step. rewrite Hn, Hp. cbn [bind eq_str String.eqb].
      change (eq_str (PStr "Network.responseReceived") "Network.requestWillBeSent")
        with false.
      change (eq_str (PStr "Network.responseReceived") "Network.responseReceived")
        with true.
      cbn iota. rewrite Hrid, Hr. cbn [bind]. rewrite T.
      cbn [bind get]. rewrite Hk. reflexivity.
    + apply dict_get_set_same. apply key_eqb_eq.
  - intros snaps H. unfold report.
    destruct (summary_spec json_loads get_body (snd (combine snaps))
                (combined_requests_ok snaps H)) as (b & _ & _ & _ & S).
    cbv zeta. unfold combined_reqs in S. rewrite S. reflexivity.
  - intros title req body b64 (U & M & H & P).
    destruct (headers (rq req)) as [| | | | | |d] eqn:E; try discriminate.
    eexists. apply print_request_shape.
    + rewrite E. apply redact_dict.
    + now apply print_post_data_ok.
Qed.

End Summary.

(** The request with url https://shop.example/API/v2/Cart is reported under
    add_to_cart, with the keys of the five actions in the buckets. *)
Lemma classification_complete_example :
  exists buckets,
    bucketize two_way_requests = Ok buckets /\ keys buckets = ACTION_NAMES /\
    fst (summary Json.loads no_body two_way_requests []) =
    SUMMARY_TITLE ::
    flat_map (fun a => fst (report_action Json.loads no_body buckets [] a))
             ACTION_NAMES.
Proof.
  destruct (proj1 (classification_complete Json.loads no_body two_way_requests []))
    as (buckets & B & K & S & _).
  - repeat constructor.
  - exists buckets. split; [assumption|]. split; [assumption|].
    now rewrite S.
Qed.

(** C6, at the failing inputs.  [collect] stores the url and the headers of
    a request as the log gives them.  A request whose url is null, next to
    a request for /cart/add: the summary raises TypeError in the bucketing
    and prints nothing, neither an exchange nor not observed, for any of
    the five actions.  A request for /cart/add whose headers are a string:
    the summary prints fetch_product as not observed, starts the section of
    add_to_cart and raises AttributeError on the headers; view_cart,
    go_to_checkout and sign_in are not reported at all. *)
Theorem classification_incomplete_on_untyped_record :
  collect Json.loads [entry_request; entry_null_url] =
  Ok ([(KStr "17.3",
        mkReq 1 (PStr "https://shop.example/cart/add") (PStr "POST")
              (PDict [("Authorization", PStr "Bearer abc");
                      ("Accept", PStr "text/html")]) PNone);
       (KStr "7", mkReq 2 PNone (PStr "GET") (PDict []) PNone)], []) /\
  summary Json.loads no_body
    [(KStr "17.3",
      mkReq 1 (PStr "https://shop.example/cart/add") (PStr "POST")
            (PDict [("Authorization", PStr "Bearer abc");
                    ("Accept", PStr "text/html")]) PNone);
     (KStr "7", mkReq 2 PNone (PStr "GET") (PDict []) PNone)] [] =
  ([], Raise TypeError) /\
  main Json.loads no_body "2024-05-01T10:00:00"
       [entry_request; entry_null_url] [] [] [] [] =
  ([], Raise TypeError) /\
  collect Json.loads [entry_string_headers] =
  Ok ([(KStr "8",
        mkReq 1 (PStr "https://shop.example/cart/add") (PStr "POST")
              (PStr "Cookie: sid=42") PNone)], []) /\
  main Json.loads no_body "2024-05-01T10:00:00"
       [entry_string_headers] [] [] [] [] =
  ([SUMMARY_TITLE; heading "fetch_product"; Text "not observed";
    heading "add_to_cart"; Text (nl ++ "## add_to_cart")%string;
    Fmt "METHOD: " (PStr "POST");
    Fmt "URL: " (PStr "https://shop.example/cart/add");
    Text "REQUEST_HEADERS:"],
   Raise AttributeError).
Proof.
  split; [vm_compute; reflexivity|]. split; [vm_compute; reflexivity|].
  split; [vm_compute; reflexivity|]. split; vm_compute; reflexivity.
Qed.

(** A response for the id Z arrives in the initial state, where no request
    is stored: it is stored. *)
Lemma response_stored_unconditionally_witness :
  collect_step init (response_msg "Z" 404) =
  Ok (mkSt 0 [] [(KStr "Z", mkResp (PInt 404) (PDict []) PNone)]).
Proof.
  destruct (proj1 (response_stored_unconditionally Json.loads no_body EmptyString)
              init (response_msg "Z" 404)
              (PDict [("requestId", PStr "Z");
                      ("response", PDict [("status", PInt 404)])])
              (PStr "Z") (KStr "Z") [("status", PInt 404)]
              eq_refl eq_refl eq_refl eq_refl eq_refl eq_refl)
    as (s & h & mt & Hs & Hh & Hmt & Hstep & _).
  injection Hs as <-. injection Hh as <-. injection Hmt as <-.
  exact Hstep.
Defined.

(** ** Redaction *)

Lemma hidden_In (k : string) : hidden k = true <-> In (lower k) HIDE_HDRS.
Proof.
  unfold hidden. rewrite existsb_exists. split.
  - intros (x & I & E). apply String.eqb_eq in E. now subst.
  - intro I. exists (lower k). split; [assumption | apply String.eqb_refl].
Qed.

Lemma redact_redacted (v : pyval) (h : list (string * pyval)) :
  redact v = Ok h -> redacted_headers (PDict h).
Proof.
  unfold redact. intros R d k x [= <-] I L.
  destruct (if truthy v then v else PDict []) as [| | | | | |d0]; try discriminate.
  injection R as <-. apply in_map_iff in I.
  destruct I as ([k0 v0] & [= <- <-] & _). simpl.
  apply hidden_In in L. now rewrite L.
Qed.

Lemma with_secret_same (v : pyval) (r : RequestRecord) :
  same_up_to_redaction r (with_secret v r).
Proof.
  unfold same_up_to_redaction, with_secret.
  cbn [seq url method postData headers].
  split; [reflexivity|]. split; [reflexivity|]. split; [reflexivity|].
  split; [reflexivity|].
  destruct (headers r) as [| | | | | |d]; try reflexivity.
  rewrite !redact_dict. f_equal. rewrite map_map. apply map_ext.
  intros [k x]. cbn [fst snd]. now destruct (hidden k).
Qed.

(** [print_request] reads the headers of the request through [redact]
    only. *)
Lemma print_request_same (json_loads : string -> option pyval) (title : string)
  (req req' : Candidate) (resp : option ResponseRecord) (body : string)
  (b64 : bool) :
  same_up_to_redaction (rq req) (rq req') ->
  print_request json_loads title req' resp body b64 =
  print_request json_loads title req resp body b64.
Proof.
  intros (_ & U & M & P & R). unfold print_request.
  now rewrite U, M, P, R.
Qed.

Lemma pick_best_map (g : Candidate -> Candidate) (cands : list Candidate) :
  (forall c, sort_key (g c) = sort_key c) ->
  pick_best (map g cands) = o <- pick_best cands ;; Ok (option_map g o).
Proof.
  intro H. destruct cands as [|c cands]; [reflexivity|].
  rewrite !pick_best_sorted by discriminate. unfold sorted.
  rewrite keyed_map by assumption.
  destruct (keyed sort_key (c :: cands)) as [ks|]; simpl; [|reflexivity].
  rewrite sort_keyed_map, !hd_error_map.
  now destruct (hd_error (sort_keyed ks)).
Qed.

Lemma sort_key_on_request (g : RequestRecord -> RequestRecord) (c : Candidate) :
  (forall r, same_up_to_redaction r (g r)) ->
  sort_key (on_request g c) = sort_key c.
Proof.
  intro H. destruct (H (rq c)) as (S & _ & M & _).
  unfold sort_key, on_request. cbn [rq]. now rewrite <- S, <- M.
Qed.

Lemma dict_get_map_buckets (g : RequestRecord -> RequestRecord) (a : string)
  (buckets : list (string * list Candidate)) :
  dict_get String.eqb a (map_buckets g buckets) =
  option_map (map (on_request g)) (dict_get String.eqb a buckets).
Proof.
  induction buckets as [|[a' l] bs IH]; simpl; [reflexivity|].
  destruct (String.eqb a a'); [reflexivity | exact IH].
Qed.

Lemma dict_set_map_buckets (g : RequestRecord -> RequestRecord) (a : string)
  (l : list Candidate) (buckets : list (string * list Candidate)) :
  dict_set String.eqb a (map (on_request g) l) (map_buckets g buckets) =
  map_buckets g (dict_set String.eqb a l buckets).
Proof.
  induction buckets as [|[a' l'] bs IH]; simpl; [reflexivity|].
  destruct (String.eqb a a'); simpl; [reflexivity|].
  f_equal. exact IH.
Qed.

Lemma bucketize_loop_on_request (g : RequestRecord -> RequestRecord) :
  (forall r, url (g r) = url r) ->
  forall items buckets,
    bucketize_loop (map_buckets g buckets) (map_values g items) =
    bs <- bucketize_loop buckets items ;; Ok (map_buckets g bs).
Proof.
  intros U items. induction items as [|[k r] items IH]; intro buckets;
    [reflexivity|].
  change (map_values g ((k, r) :: items)) with ((k, g r) :: map_values g items).
  cbn [bucketize_loop]. unfold bucketize_step. cbn [fst snd]. rewrite U.
  destruct (first_action (url r) ACTIONS) as [[a|]|]; cbn [bind];
    [|apply IH|reflexivity].
  unfold bucket_append. rewrite dict_get_map_buckets.
  destruct (dict_get String.eqb a buckets) as [l|]; cbn [option_map bind];
    [|reflexivity].
  change (mkCand (g r) k) with (on_request g (mkCand r k)).
  replace (map (on_request g) l ++ [on_request g (mkCand r k)])
    with (map (on_request g) (l ++ [mkCand r k])) by (now rewrite map_app).
  rewrite dict_set_map_buckets. apply IH.
Qed.

Lemma bucketize_on_request (g : RequestRecord -> RequestRecord)
  (creqs : list (key * RequestRecord)) :
  (forall r, url (g r) = url r) ->
  bucketize (map_values g creqs) =
  bs <- bucketize creqs ;; Ok (map_buckets g bs).
Proof.
  intro U. unfold bucketize.
  rewrite <- (@bucketize_loop_on_request g U creqs). reflexivity.
Qed.

Section Unseen.
Variable json_loads : string -> option pyval.
Variable get_body : key -> string * bool.
Variable g : RequestRecord -> RequestRecord.
Hypothesis same : forall r, same_up_to_redaction r (g r).

Lemma report_action_on_request (buckets : list (string * list Candidate))
  (cresps : list (key * ResponseRecord)) (a : string) :
  report_action json_loads get_body (map_buckets g buckets) cresps a =
  report_action json_loads get_body buckets cresps a.
Proof.
  unfold report_action. rewrite dict_get_map_buckets.
  destruct (dict_get String.eqb a buckets) as [l|]; cbn [option_map];
    [|reflexivity].
  cbn [lift io_bind fst snd app].
  rewrite pick_best_map by (intro c; now apply sort_key_on_request).
  destruct (pick_best l) as [[b|]|]; cbn [bind option_map]; try reflexivity.
  cbn [lift io_bind print fst snd app].
  change (rid (on_request g b)) with (rid b).
  rewrite (@print_request_same json_loads a b (on_request g b)); [reflexivity|].
  apply same.
Qed.

Lemma report_actions_on_request (buckets : list (string * list Candidate))
  (cresps : list (key * ResponseRecord)) (names : list string) :
  report_actions json_loads get_body (map_buckets g buckets) cresps names =
  report_actions json_loads get_body buckets cresps names.
Proof.
  induction names as [|a names IH]; [reflexivity|].
  cbn [report_actions]. now rewrite report_action_on_request, IH.
Qed.

(** The summary of a view does not change with the values of the request
    headers that [redact] hides. *)
Lemma summary_on_request (creqs : list (key * RequestRecord))
  (cresps : list (key * ResponseRecord)) :
  summary json_loads get_body (map_values g creqs) cresps =
  summary json_loads get_body creqs cresps.
Proof.
  unfold summary. rewrite bucketize_on_request.
  - destruct (bucketize creqs) as [bs|]; cbn [bind]; [|reflexivity].
    cbn [lift io_bind fst snd app print].
    now rewrite report_actions_on_request.
  - intro r. destruct (same r) as (_ & U & _). now symmetry.
Qed.

End Unseen.

(** C1, as the code has it.  [print_request] prints the request headers
    once, as the fifth item, after the line REQUEST_HEADERS:, and what it
    prints there is the headers of the record with the value of every
    header named cookie, authorization, x-csrf-token or x-xsrf-token, in
    any letter case, replaced by the marker; the names and the other
    values are kept.  The rest of what it prints is the body of the
    request, the status and the headers of the response, and the body of
    the response.  The original values of those request headers are not
    printed anywhere: a request that differs only in them is printed the
    same, and the whole summary of a combined view stays the same when
    they are replaced by anything else. *)
Theorem request_headers_redacted_in_summary :
  forall (json_loads : string -> option pyval)
         (get_body : key -> string * bool) (title : string)
         (req : Candidate) (resp : option ResponseRecord) (body : string)
         (b64 : bool),
    (forall h : list (string * pyval),
        redact (headers (rq req)) = Ok h ->
        (exists rest,
            fst (print_request json_loads title req resp body b64) =
            printed_head title req h ++ rest) /\
        redacted_headers (PDict h) /\
        (forall d, headers (rq req) = PDict d -> h = map redact_entry d) /\
        (snd (print_post_data json_loads (postData (rq req))) = Ok tt ->
         print_request json_loads title req resp body b64 =
         (printed_head title req h ++
          fst (print_post_data json_loads (postData (rq req))) ++
          printed_response resp ++ fst (print_body body b64),
          Ok tt))) /\
    (forall k, hidden k = true <-> In (lower k) HIDE_HDRS) /\
    (forall k,
        hidden k = true <->
        lower k = "cookie" \/ lower k = "authorization" \/
        lower k = "x-csrf-token" \/ lower k = "x-xsrf-token") /\
    (forall k v,
        redact_entry (k, v) = (k, v) /\ hidden k = false \/
        redact_entry (k, v) = (k, PStr "<redacted>") /\ hidden k = true) /\
    (forall req',
        same_up_to_redaction (rq req) (rq req') ->
        print_request json_loads title req' resp body b64 =
        print_request json_loads title req resp body b64) /\
    (forall v,
        print_request json_loads title (on_request (with_secret v) req)
                      resp body b64 =
        print_request json_loads title req resp body b64) /\
    (forall (g : RequestRecord -> RequestRecord) creqs cresps,
        (forall r, same_up_to_redaction r (g r)) ->
        summary json_loads get_body (map_values g creqs) cresps =
        summary json_loads get_body creqs cresps) /\
    (forall v creqs cresps,
        summary json_loads get_body (map_values (with_secret v) creqs) cresps =
        summary json_loads get_body creqs cresps).
Proof.
  intros json_loads get_body title req resp body b64.
  split; [|split; [|split; [|split; [|split; [|split; [|split]]]]]].
  - intros h R. split; [|split; [|split]].
    + unfold print_request. rewrite R. cbn [lift io_bind print fst snd app].
      unfold printed_head. cbn [app]. eexists. reflexivity.
    + eapply redact_redacted; eauto.
    + intros d E. rewrite E, redact_dict in R. now injection R as <-.
    + intro P. now apply print_request_shape.
  - intros k. apply hidden_In.
  - intros k. rewrite hidden_In. unfold HIDE_HDRS. cbn [In].
    split; [intros [H|[H|[H|[H|[]]]]] | intros [H|[H|[H|H]]]]; auto.
  - intros k v. unfold redact_entry. cbn [fst snd].
    destruct (hidden k); [right | left]; split; reflexivity.
  - intros req' S. now apply print_request_same.
  - intro v. apply print_request_same. apply with_secret_same.
  - intros g creqs cresps S. now apply summary_on_request.
  - intros v creqs cresps. apply summary_on_request. apply with_secret_same.
Qed.

(** The headers Authorization: Bearer abc and Accept: text/html are
    printed with the first one redacted, and the request is printed the
    same with another value of Authorization. *)
Lemma request_headers_redacted_in_summary_witness :
  (exists rest,
      fst (print_request Json.loads "add_to_cart" request_with_credentials
             None EmptyString false) =
      [Text (nl ++ "## add_to_cart")%string; Fmt "METHOD: " (PStr "POST");
       Fmt "URL: " (PStr "https://shop.example/cart/add");
       Text "REQUEST_HEADERS:";
       Json (PDict [("Authorization", PStr "<redacted>");
                    ("Accept", PStr "text/html")])] ++ rest) /\
  print_request Json.loads "add_to_cart"
    (mkCand (mkReq 1 (PStr "https://shop.example/cart/add") (PStr "POST")
               (PDict [("Authorization", PStr "Bearer other");
                       ("Accept", PStr "text/html")]) PNone)
            (KStr "17.3"))
    None EmptyString false =
  print_request Json.loads "add_to_cart" request_with_credentials
    None EmptyString false.
Proof.
  destruct (request_headers_redacted_in_summary Json.loads no_body "add_to_cart"
              request_with_credentials None EmptyString false)
    as (H & _ & _ & _ & _ & S & _).
  split.
  - exact (proj1 (H _ eq_refl)).
  - exact (S (PStr "Bearer other")).
Defined.

(** C1 as stated fails.  A run whose first phase holds a request and its
    response, each with an Authorization header: the summary prints the
    response headers with the value Bearer xyz, and the dump holds both
    records with their values. *)
Lemma redaction_counterexample :
  let run := main Json.loads no_body "2024-05-01T10:00:00"
               [entry_request; entry_response] [] [] [] [] in
  In (Json (PDict [("Authorization", PStr "Bearer xyz")])) (fst run) /\
  ~ output_redacted (fst run) /\
  exists dmp,
    snd run = Ok dmp /\ ~ dump_redacted dmp /\
    exists s r,
      In s (phases dmp) /\ In (KStr "17.3", r) (reqs s) /\
      headers r = PDict [("Authorization", PStr "Bearer abc");
                         ("Accept", PStr "text/html")].
Proof.
  cbv zeta.
  set (run := main _ _ _ _ _ _ _ _). vm_compute in run. subst run.
  cbn [fst snd].
  assert (I : forall A (x : A) l1 l2, In x (l1 ++ x :: l2)).
  { intros. apply in_or_app. right. now left. }
  split; [|split].
  - simpl. tauto.
  - intro H.
    specialize (H (PDict [("Authorization", PStr "Bearer xyz")])).
    assert (PStr "Bearer xyz" = REDACTED); [|discriminate].
    apply (H ltac:(simpl; tauto) _ "Authorization" _ eq_refl (or_introl eq_refl)).
    vm_compute. tauto.
  - eexists. split; [reflexivity|]. split.
    + intro H. destruct (H _ (or_introl eq_refl)) as [Hq _].
      assert (PStr "Bearer abc" = REDACTED); [|discriminate].
      apply (Hq _ _ (or_introl eq_refl) _ "Authorization" _ eq_refl
               (or_introl eq_refl)).
      vm_compute. tauto.
    + do 2 eexists. split; [left; reflexivity|].
      split; [left; reflexivity | reflexivity].
Qed.

(** ** The decoder *)

Section Decoder.
Variable json_loads : string -> option pyval.

Lemma perf_app (l1 l2 : list pyval) :
  perf json_loads (l1 ++ l2) = perf json_loads l1 ++ perf json_loads l2.
Proof. unfold perf. apply flat_map_app. Qed.

(** An entry whose decoding raises is skipped: the batch is read as if the
    entry were not there. *)
Lemma perf_skips (l1 l2 : list pyval) (e : pyval) (x : exn) :
  decode json_loads e = Raise x ->
  perf json_loads (l1 ++ e :: l2) = perf json_loads (l1 ++ l2) /\
  collect json_loads (l1 ++ e :: l2) = collect json_loads (l1 ++ l2).
Proof.
  intro H.
  assert (E : perf json_loads (l1 ++ e :: l2) = perf json_loads (l1 ++ l2)).
  { rewrite !perf_app. f_equal. unfold perf. simpl. now rewrite H. }
  split; [assumption|]. unfold collect. now rewrite E.
Qed.

(** An entry without message, or whose message is not a string or not the
    text of a JSON object with a key message, raises in [decode]. *)
Lemma decode_raises (e : pyval) :
  (forall d, e <> PDict d) \/
  (exists d, e = PDict d /\ dict_get String.eqb "message" d = None) \/
  (exists d v, e = PDict d /\ dict_get String.eqb "message" d = Some v /\
               is_str v = false) \/
  (exists d s, e = PDict d /\ dict_get String.eqb "message" d = Some (PStr s) /\
               json_loads s = None) ->
  exists x, decode json_loads e = Raise x.
Proof.
  unfold decode, subscript, loads.
  intros [H|[(d & -> & G)|[(d & v & -> & G & S)|(d & s & -> & G & L)]]].
  - destruct e; try (now eexists). exfalso. now apply (H d).
  - rewrite G. now eexists.
  - rewrite G. simpl. destruct v; try discriminate; now eexists.
  - rewrite G. simpl. rewrite L. now eexists.
Qed.

(** A decoded message that is not an object makes [collect] raise. *)
Lemma collect_step_not_dict (st : state) (m : pyval) :
  is_dict m = false -> collect_step st m = Raise AttributeError.
Proof. destruct m; try reflexivity. discriminate. Qed.

End Decoder.

(** C5, at the failing input.  Next to a well-formed request entry, an
    entry whose text is not JSON is skipped and one request is recorded;
    an entry whose text is the JSON object with message 5, or a request
    message with params null, is yielded by [perf] and makes [collect]
    raise AttributeError, and [main] then prints no summary and writes no
    dump. *)
Theorem malformed_shape_aborts_batch :
  perf Json.loads [entry_request; entry_not_json] = perf Json.loads [entry_request] /\
  (exists r, collect Json.loads [entry_request; entry_not_json] =
             Ok ([(KStr "17.3", r)], [])) /\
  perf Json.loads [entry_request; entry_message_number] =
  perf Json.loads [entry_request] ++ [PInt 5] /\
  collect Json.loads [entry_request; entry_message_number] = Raise AttributeError /\
  collect Json.loads [entry_request; entry_params_null] = Raise AttributeError /\
  main Json.loads no_body "2024-05-01T10:00:00"
       [entry_request; entry_message_number] [] [] [] [] =
  ([], Raise AttributeError).
Proof.
  split; [vm_compute; reflexivity|].
  split; [eexists; vm_compute; reflexivity|].
  repeat split; vm_compute; reflexivity.
Qed.

(** ** Determinism *)

Section Runs.
Variable json_loads : string -> option pyval.

Lemma snd_io_bind (A B : Type) (c : io A) (f : A -> io B) :
  snd (io_bind c f) = a <- snd c ;; snd (f a).
Proof. destruct c as [out [a|e]]; reflexivity. Qed.

Lemma print_request_raises_alike (title : string) (req : Candidate)
  (resp : option ResponseRecord) (body body' : string) (b64 b64' : bool) :
  snd (print_request json_loads title req resp body b64) =
  snd (print_request json_loads title req resp body' b64').
Proof.
  unfold print_request. rewrite ?snd_io_bind. cbn [print snd bind].
  rewrite ?snd_io_bind. cbn [lift snd].
  destruct (redact (headers (rq req))); cbn [bind]; [|reflexivity].
  rewrite ?snd_io_bind. cbn [print snd bind].
  rewrite ?snd_io_bind.
  destruct (snd (print_post_data json_loads (postData (rq req))));
    cbn [bind]; [|reflexivity].
  rewrite ?snd_io_bind. cbn [print snd bind].
  now rewrite !print_body_ok.
Qed.

Lemma report_action_raises_alike (gb gb' : key -> string * bool)
  buckets cresps action :
  snd (report_action json_loads gb buckets cresps action) =
  snd (report_action json_loads gb' buckets cresps action).
Proof.
  unfold report_action. rewrite ?snd_io_bind. cbn [lift snd].
  destruct (match dict_get String.eqb action buckets with
            | Some l => Ok l
            | None => Raise KeyError
            end); cbn [bind]; [|reflexivity].
  rewrite ?snd_io_bind. cbn [lift snd].
  destruct (pick_best a) as [[b|]|]; cbn [bind]; try reflexivity.
  rewrite ?snd_io_bind. cbn [print snd bind].
  apply print_request_raises_alike.
Qed.

Lemma report_actions_raises_alike (gb gb' : key -> string * bool)
  buckets cresps names :
  snd (report_actions json_loads gb buckets cresps names) =
  snd (report_actions json_loads gb' buckets cresps names).
Proof.
  induction names as [|a names IH]; [reflexivity|].
  cbn [report_actions]. rewrite ?snd_io_bind.
  rewrite (report_action_raises_alike gb gb'). now rewrite IH.
Qed.

Lemma report_combined (gb gb' : key -> string * bool) (t t' : string)
  (snaps : list PhaseSnapshot) :
  combined_of (snd (report json_loads gb t snaps)) =
  combined_of (snd (report json_loads gb' t' snaps)).
Proof.
  unfold report. cbv zeta. rewrite ?snd_io_bind.
  unfold summary. rewrite ?snd_io_bind. cbn [lift snd].
  destruct (bucketize (fst (combine snaps))); cbn [bind]; [|reflexivity].
  rewrite ?snd_io_bind. cbn [print snd bind].
  rewrite (report_actions_raises_alike gb gb').
  destruct (snd (report_actions json_loads gb' a (snd (combine snaps)) ACTION_NAMES));
    reflexivity.
Qed.

Lemma combine_rename (f : string -> string) (snaps : list PhaseSnapshot) :
  combine (map (rename_phase f) snaps) = combine snaps.
Proof.
  unfold combine. generalize (@nil (key * RequestRecord), @nil (key * ResponseRecord)).
  induction snaps as [|s snaps IH]; intro acc; [reflexivity|].
  simpl. apply IH.
Qed.

(** C8. Two runs of [main] on the same logs of the five phases, whatever
    the clock and the bodies the browser returns, end alike: with the same
    exception, or with dumps whose phases combine into the same request and
    response maps.  The combined maps depend on the maps of the snapshots
    in order only, not on the names of the phases.  And two calls of
    [collect] in a row on the same log return the same maps: the second
    starts from an empty state and a counter at zero like the first. *)
Theorem pipeline_deterministic :
  (forall (gb1 gb2 : key -> string * bool) (t1 t2 : string)
          (pdp add_to_cart cart checkout signin : list pyval),
      combined_of (snd (main json_loads gb1 t1 pdp add_to_cart cart checkout signin)) =
      combined_of (snd (main json_loads gb2 t2 pdp add_to_cart cart checkout signin))) /\
  (forall (gb : key -> string * bool) (t : string)
          (pdp add_to_cart cart checkout signin : list pyval),
      combined_of (snd (main json_loads gb t pdp add_to_cart cart checkout signin)) =
      (snaps <- take_snapshots json_loads
                  [("pdp", pdp); ("add_to_cart", add_to_cart); ("cart", cart);
                   ("checkout", checkout); ("signin", signin)] ;;
       _ <- snd (summary json_loads gb (combined_reqs snaps) (combined_resps snaps)) ;;
       Ok (combine snaps))) /\
  (forall (f : string -> string) (snaps : list PhaseSnapshot),
      combine (map (rename_phase f) snaps) = combine snaps) /\
  (forall (n1 n2 : string) (log : list pyval),
      take_snapshots json_loads [(n1, log); (n2, log)] =
      (rr <- collect json_loads log ;;
       Ok [mkSnap n1 (fst rr) (snd rr); mkSnap n2 (fst rr) (snd rr)])).
Proof.
  split; [|split; [|split]].
  - intros. unfold main. rewrite ?snd_io_bind. cbn [lift snd].
    destruct (take_snapshots json_loads _); cbn [bind]; [|reflexivity].
    apply report_combined.
  - intros. unfold main. rewrite ?snd_io_bind. cbn [lift snd app DO_SIGNIN_PROBE].
    destruct (take_snapshots json_loads _) as [snaps|]; cbn [bind]; [|reflexivity].
    unfold report. cbv zeta. rewrite ?snd_io_bind.
    unfold combined_reqs, combined_resps.
    destruct (snd (summary json_loads gb (fst (combine snaps)) (snd (combine snaps))));
      reflexivity.
  - apply combine_rename.
  - intros n1 n2 log. cbn [take_snapshots].
    destruct (collect json_loads log); reflexivity.
Qed.

End Runs.

(** * Further properties of the script *)

(** ** [redact] *)

Lemma redact_entry_idem (kv : string * pyval) :
  redact_entry (redact_entry kv) = redact_entry kv.
Proof.
  unfold redact_entry. simpl. now destruct (hidden (fst kv)).
Qed.

(** X1. Redacting is idempotent and keeps the shape of the headers: the
    result of [redact], redacted again, is itself; it has the names of the
    headers given, in the same order; and a header whose name is not in
    the redaction set keeps its value. *)
Theorem redact_idempotent :
  forall (h : pyval) (r : list (string * pyval)),
    redact h = Ok r ->
    redact (PDict r) = Ok r /\
    (forall d, h = PDict d ->
               map fst r = map fst d /\
               forall k v, In (k, v) d -> hidden k = false -> In (k, v) r).
Proof.
  intros h r R. split.
  - rewrite redact_dict. f_equal.
    unfold redact in R.
    destruct (if truthy h then h else PDict []) as [| | | | | |d]; try discriminate.
    injection R as <-. rewrite map_map.
    apply map_ext. intro kv. apply (redact_entry_idem kv).
  - intros d ->. rewrite redact_dict in R. injection R as <-. split.
    + rewrite map_map. reflexivity.
    + intros k v I H. apply in_map_iff. exists (k, v). simpl.
      now rewrite H.
Qed.

Lemma redact_idempotent_witness :
  redact (PDict [("Cookie", PStr "<redacted>"); ("Accept", PStr "text/html");
                 ("X-CSRF-Token", PStr "<redacted>");
                 ("User-Agent", PStr "Mozilla/5.0")]) =
  Ok [("Cookie", PStr "<redacted>"); ("Accept", PStr "text/html");
      ("X-CSRF-Token", PStr "<redacted>"); ("User-Agent", PStr "Mozilla/5.0")].
Proof.
  exact (proj1 (@redact_idempotent (PDict sample_headers) _ eq_refl)).
Defined.

(** X2. [redact] on something that is not a dict: a falsy value (None, the
    empty string, zero, an empty list or dict) gives the empty dict; any
    other value that is not a dict raises AttributeError; a dict never
    raises. *)
Theorem redact_raises_iff :
  forall h : pyval,
    (truthy h = false -> redact h = Ok []) /\
    (redact h = Raise AttributeError <-> truthy h = true /\ is_dict h = false) /\
    (forall e, redact h = Raise e -> e = AttributeError) /\
    (is_dict h = true -> exists r, redact h = Ok r).
Proof.
  intro h. unfold redact.
  destruct h as [|b|n|m e|s|l|d]; simpl;
    try (destruct b); try (destruct (negb (n =? 0)));
    try (destruct (negb (m =? 0))); try (destruct (negb (String.eqb s "")));
    try (destruct l); try (destruct d);
    repeat split; intros; try discriminate; try congruence;
    try (now eexists); intuition (try discriminate; try congruence).
Qed.

(** ** [matches] *)

Lemma matches_app (u : pyval) (ps qs : list string) :
  matches u (ps ++ qs) =
  b <- matches u ps ;; if b then Ok true else matches u qs.
Proof.
  induction ps as [|p ps IH]; simpl.
  - now destruct (matches u qs) as [[|]|].
  - destruct (Re.search p u) as [[|]|]; simpl; auto.
Qed.

(** X3. [matches] stops at the first pattern found: once a pattern of the
    list matches, nothing that follows is looked at, so patterns added
    after it, even ill-formed ones, change nothing; and when no pattern of
    the list matches, the answer is that of the patterns that follow. *)
Theorem matches_short_circuit :
  forall (u : pyval) (ps qs : list string),
    (matches u ps = Ok true -> matches u (ps ++ qs) = Ok true) /\
    (matches u ps = Ok false -> matches u (ps ++ qs) = matches u qs).
Proof.
  intros u ps qs. rewrite matches_app. split; intros ->; reflexivity.
Qed.

(** The pattern "(" is ill-formed; after /cart it is never compiled. *)
Lemma matches_short_circuit_witness :
  matches (PStr "https://shop.example/cart") (["/cart"] ++ ["("]) = Ok true /\
  matches (PStr "https://shop.example/cart") ["("] = Raise ReError.
Proof.
  split; [|reflexivity].
  apply (proj1 (matches_short_circuit (PStr "https://shop.example/cart")
                  ["/cart"] ["("])).
  vm_compute. reflexivity.
Defined.

(** X4. [matches] is [any] over the patterns: on a url that is a string,
    with patterns that compile, it returns True exactly when [re.search]
    finds one of the patterns in the url.  On an empty pattern list it
    returns False whatever the url is; on a url that is not a string it
    raises TypeError as soon as the list starts with a pattern that
    compiles. *)
Theorem matches_is_any :
  (forall (s : string) (pats : list string),
      forallb compiles pats = true ->
      exists b, matches (PStr s) pats = Ok b /\
                (b = true <-> exists p, In p pats /\ Re.search p (PStr s) = Ok true)) /\
  (forall u, matches u [] = Ok false) /\
  (forall u p pats,
      is_str u = false -> compiles p = true ->
      matches u (p :: pats) = Raise TypeError).
Proof.
  split; [|split].
  - intros s pats C. rewrite (matches_existsb s pats C). eexists.
    split; [reflexivity|]. rewrite existsb_exists. split.
    + intros (p & I & H). exists p. split; [assumption|].
      destruct (Re.search p (PStr s)) as [[|]|]; congruence.
    + intros (p & I & H). exists p. now rewrite H.
  - reflexivity.
  - intros u p pats U C. simpl. unfold Re.search, compiles in *.
    destruct (Re.compile p); [|discriminate].
    destruct u; try reflexivity. discriminate.
Qed.

Lemma matches_is_any_witness :
  exists b,
    matches (PStr "https://shop.example/Sign-In") ["/login"; "/sign-?in"] = Ok b /\
    (b = true <->
     exists p, In p ["/login"; "/sign-?in"] /\
               Re.search p (PStr "https://shop.example/Sign-In") = Ok true).
Proof.
  apply (proj1 matches_is_any "https://shop.example/Sign-In" ["/login"; "/sign-?in"]).
  vm_compute. reflexivity.
Defined.

(** ** [perf] *)

(** X5. [perf] yields a message for an entry exactly when the entry is a
    dict whose message is a string, the text of a JSON object that has a
    key message; the message yielded is the value of that key. *)
Theorem decode_succeeds_iff :
  forall (json_loads : string -> option pyval) (e m : pyval),
    decode json_loads e = Ok m <->
    exists d s j,
      e = PDict d /\ dict_get String.eqb "message" d = Some (PStr s) /\
      json_loads s = Some (PDict j) /\
      dict_get String.eqb "message" j = Some m.
Proof.
  intros jl e m. unfold decode, subscript, loads. split.
  - destruct e as [| | | | | |d]; try discriminate.
    destruct (dict_get String.eqb "message" d) as [v|] eqn:G; try discriminate.
    simpl. destruct v as [| | | |s| |]; try discriminate.
    destruct (jl s) as [j|] eqn:L; try discriminate. simpl.
    destruct j as [| | | | | |dj]; try discriminate.
    destruct (dict_get String.eqb "message" dj) as [x|] eqn:G'; try discriminate.
    intros [= <-]. exists d, s, dj. auto.
  - intros (d & s & j & -> & G & L & G'). rewrite G. simpl. rewrite L. simpl.
    now rewrite G'.
Qed.

(** X6. An entry that does not decode leaves no trace: with it or without
    it in the log, [perf] yields the same messages and [collect] returns
    the same result.  [perf] never yields more messages than the log has
    entries. *)
Theorem undecodable_entry_is_skipped :
  forall (json_loads : string -> option pyval) (l1 l2 : list pyval) (e : pyval),
    (forall m, decode json_loads e <> Ok m) ->
    perf json_loads (l1 ++ e :: l2) = perf json_loads (l1 ++ l2) /\
    collect json_loads (l1 ++ e :: l2) = collect json_loads (l1 ++ l2) /\
    (List.length (perf json_loads (l1 ++ e :: l2)) <= List.length (l1 ++ l2))%nat.
Proof.
  intros jl l1 l2 e H.
  destruct (decode jl e) as [m|x] eqn:D; [now destruct (H m)|].
  destruct (perf_skips jl l1 l2 e D) as [P C].
  split; [assumption|]. split; [assumption|]. rewrite P.
  generalize (l1 ++ l2). intro l. induction l as [|a l IH]; simpl; [lia|].
  unfold perf in *. simpl. destruct (decode jl a); simpl; lia.
Qed.

Lemma undecodable_entry_is_skipped_witness :
  collect Json.loads ([entry_request] ++ entry_not_json :: [entry_response]) =
  collect Json.loads ([entry_request] ++ [entry_response]).
Proof.
  apply (undecodable_entry_is_skipped Json.loads [entry_request] [entry_response]
           entry_not_json).
  intros m. vm_compute. discriminate.
Defined.

(** ** [collect]: shapes, ids *)

Lemma get_dict (d : list (string * pyval)) (k : string) (dflt : pyval) :
  get (PDict d) k dflt = Ok (field_or d k dflt).
Proof. reflexivity. Qed.

Lemma get_not_dict (v : pyval) (k : string) (dflt : pyval) :
  is_dict v = false -> get v k dflt = Raise AttributeError.
Proof. destruct v; try reflexivity. discriminate. Qed.

Lemma hash_key_hashable (v : pyval) :
  is_hashable v = match hash_key v with Ok _ => true | Raise _ => false end.
Proof. now destruct v. Qed.

Lemma well_shaped_event (m : pyval) :
  well_shaped m = match event_of m with Ok _ => true | Raise _ => false end.
Proof.
  unfold event_of, well_shaped.
  destruct m as [| | | | | |d]; try reflexivity.
  rewrite !get_dict. cbn [bind].
  destruct (eq_str (field_or d "method" PNone) "Network.requestWillBeSent").
  - destruct (field_or d "params" (PDict [])) as [| | | | | |dp]; try reflexivity.
    rewrite !get_dict. cbn [bind].
    destruct (truthy (field_or dp "requestId" PNone)); [|reflexivity].
    destruct (field_or dp "request" (PDict [])) as [| | | | | |dr]; try reflexivity.
    rewrite !get_dict. cbn [bind is_dict andb]. rewrite hash_key_hashable.
    now destruct (hash_key (field_or dp "requestId" PNone)).
  - destruct (eq_str (field_or d "method" PNone) "Network.responseReceived");
      [|reflexivity].
    destruct (field_or d "params" (PDict [])) as [| | | | | |dp]; try reflexivity.
    rewrite !get_dict. cbn [bind].
    destruct (truthy (field_or dp "requestId" PNone)); [|reflexivity].
    destruct (field_or dp "response" (PDict [])) as [| | | | | |dr]; try reflexivity.
    rewrite !get_dict. cbn [bind is_dict andb]. rewrite hash_key_hashable.
    now destruct (hash_key (field_or dp "requestId" PNone)).
Qed.

Lemma event_of_well_shaped (m : pyval) :
  (exists e, event_of m = Ok e) <-> well_shaped m = true.
Proof.
  rewrite well_shaped_event. destruct (event_of m) as [e|x]; split; eauto.
  - intros [e H]. discriminate.
  - discriminate.
Qed.

Lemma collect_step_well_shaped (st : state) (m : pyval) :
  (exists st', collect_step st m = Ok st') <-> well_shaped m = true.
Proof.
  rewrite <- event_of_well_shaped, collect_step_event. split.
  - intros [st' H]. destruct (event_of m) as [e|]; [eauto | discriminate].
  - intros [e ->]. simpl. eauto.
Qed.

(** X7. [collect] returns a snapshot exactly when every message is well
    shaped; otherwise it raises, at the first message that is not, and
    nothing of the batch is returned. *)
Theorem collect_returns_iff_well_shaped :
  forall ms : list pyval,
    ((exists reqs resps, collect_messages ms = Ok (reqs, resps)) <->
     forallb well_shaped ms = true) /\
    (forall ms1 m ms2,
        ms = ms1 ++ m :: ms2 ->
        forallb well_shaped ms1 = true -> well_shaped m = false ->
        exists e, collect_messages ms = Raise e /\
                  forall st, collect_step st m = Raise e).
Proof.
  intro ms.
  assert (L : forall l st, (exists st', collect_loop st l = Ok st') <->
                           forallb well_shaped l = true).
  { induction l as [|m l IH]; intro st; simpl.
    - split; eauto.
    - rewrite andb_true_iff, <- (collect_step_well_shaped st m). split.
      + intros [st' H].
        destruct (collect_step st m) as [st1|] eqn:E; [|discriminate].
        split; [eauto|]. apply (IH st1). eauto.
      + intros [[st1 E] H]. rewrite E. simpl. now apply IH. }
  split.
  - rewrite <- (L ms init). unfold collect_messages. split.
    + intros (reqs & resps & H).
      destruct (collect_loop init ms); [eauto | discriminate].
    + intros [st' ->]. simpl. eauto.
  - intros ms1 m ms2 -> W1 Wm.
    apply (L ms1 init) in W1. destruct W1 as [st1 E1].
    unfold collect_messages. rewrite collect_loop_app, E1. cbn [bind collect_loop].
    assert (R : forall st, exists e, collect_step st m = Raise e /\
                                     event_of m = Raise e).
    { intro st. rewrite collect_step_event.
      destruct (event_of m) as [e|x] eqn:E; [|exists x; split; reflexivity].
      exfalso. assert (well_shaped m = true); [|congruence].
      apply event_of_well_shaped. eauto. }
    destruct (R st1) as (e & -> & Ee). exists e. split; [reflexivity|].
    intro st. destruct (R st) as (e' & -> & Ee'). congruence.
Qed.

Lemma collect_returns_iff_well_shaped_witness :
  exists e,
    collect_messages ([request_msg "X" "/a"] ++ PInt 5 :: [request_msg "Y" "/b"])
    = Raise e /\
    forall st, collect_step st (PInt 5) = Raise e.
Proof.
  apply (proj2 (collect_returns_iff_well_shaped
                  ([request_msg "X" "/a"] ++ PInt 5 :: [request_msg "Y" "/b"]))
           [request_msg "X" "/a"] (PInt 5) [request_msg "Y" "/b"]);
    reflexivity.
Defined.

(** X8. Messages that [collect] passes over without reading further: a
    message whose method is neither of the two network events leaves the
    state as it is whatever its params are, and so does a network event
    whose requestId is missing or counts as false, whatever its request or
    response is. *)
Theorem collect_ignores :
  forall (st : state) (d : list (string * pyval)),
    (eq_str (field_or d "method" PNone) "Network.requestWillBeSent" = false ->
     eq_str (field_or d "method" PNone) "Network.responseReceived" = false ->
     collect_step st (PDict d) = Ok st) /\
    (forall dp,
        field_or d "params" (PDict []) = PDict dp ->
        truthy (field_or dp "requestId" PNone) = false ->
        collect_step st (PDict d) = Ok st).
Proof.
  intros st d. unfold collect_step. rewrite !get_dict. cbn [bind]. split.
  - intros -> ->. reflexivity.
  - intros dp -> T. rewrite !get_dict. cbn [bind]. rewrite T.
    destruct (eq_str _ "Network.requestWillBeSent"); [reflexivity|].
    destruct (eq_str _ "Network.responseReceived"); reflexivity.
Qed.

Lemma collect_ignores_witness :
  collect_step init msg_page_event = Ok init /\
  collect_step init msg_no_id = Ok init.
Proof.
  split.
  - apply (proj1 (collect_ignores init
                    [("method", PStr "Page.frameNavigated"); ("params", PInt 7)]));
      reflexivity.
  - apply (proj2 (collect_ignores init
                    [("method", PStr "Network.requestWillBeSent");
                     ("params", PDict [("request", PStr "not an object")])])
             [("request", PStr "not an object")]); reflexivity.
Defined.

Lemma dict_mem_existsb (V : Type) (k : key) (d : list (key * V)) :
  dict_mem key_eqb k d = existsb (key_eqb k) (keys d).
Proof.
  unfold dict_mem. induction d as [|[k' v] d IH]; simpl; [reflexivity|].
  destruct (key_eqb k k'); [reflexivity | exact IH].
Qed.

Lemma keys_set_seen (V : Type) (k : key) (v : V) (d : list (key * V)) :
  keys (dict_set key_eqb k v d) = seen (keys d) k.
Proof. rewrite keys_dict_set, dict_mem_existsb. reflexivity. Qed.

Lemma collect_loop_keys (ms : list pyval) (st st' : state) :
  collect_loop st ms = Ok st' ->
  keys (st_reqs st') = fold_left seen (ids_of request_id ms) (keys (st_reqs st)) /\
  keys (st_resps st') = fold_left seen (ids_of response_id ms) (keys (st_resps st)).
Proof.
  revert st. induction ms as [|m ms IH]; intro st; simpl.
  - intros [= <-]. split; reflexivity.
  - destruct (collect_step st m) as [st1|] eqn:E; simpl; [|discriminate].
    intro H. destruct (IH _ H) as [R S]. rewrite R, S.
    apply collect_step_Ok in E. destruct E as (e & Ee & ->).
    unfold ids_of. cbn [flat_map]. rewrite !fold_left_app.
    unfold request_id, response_id. rewrite Ee.
    destruct e; cbn [apply_event st_reqs st_resps fold_left];
      rewrite ?keys_set_seen; split; reflexivity.
Qed.

(** X9. The keys of the two maps of a snapshot are the ids stored during
    the phase, each once, in the order of their first occurrence: an id
    that comes back keeps the place of its first occurrence (while its
    record is the one of the last). *)
Theorem snapshot_keys_first_seen :
  forall (ms : list pyval) reqs resps,
    collect_messages ms = Ok (reqs, resps) ->
    keys reqs = first_seen (ids_of request_id ms) /\
    keys resps = first_seen (ids_of response_id ms).
Proof.
  intros ms reqs resps H.
  apply collect_messages_Ok in H. destruct H as (st & L & <- & <-).
  apply (collect_loop_keys _ _ L).
Qed.

Lemma snapshot_keys_first_seen_witness :
  first_seen (ids_of request_id msgs_XYX) = [KStr "X"; KStr "Y"].
Proof.
  rewrite <- (proj1 (@snapshot_keys_first_seen msgs_XYX _ _ eq_refl)).
  reflexivity.
Defined.

Lemma collect_loop_without_requests (ms : list pyval) :
  forall (st st' : state) (n : Z) (rq : list (key * RequestRecord)),
    collect_loop st ms = Ok st' ->
    collect_loop (mkSt n rq (st_resps st))
                 (filter (fun m => negb (stores_request m)) ms) =
    Ok (mkSt n rq (st_resps st')).
Proof.
  induction ms as [|m ms IH]; intros st st' n rq; simpl.
  - now intros [= <-].
  - destruct (collect_step st m) as [st1|] eqn:E; simpl; [|discriminate].
    intro H. apply collect_step_Ok in E. destruct E as (e & Ee & ->).
    unfold stores_request, request_id. rewrite Ee.
    destruct e; cbn [negb filter collect_loop].
    + apply (IH _ _ n rq H).
    + rewrite collect_step_event, Ee. cbn [bind apply_event st_seq st_reqs st_resps].
      apply (IH _ _ n rq H).
    + rewrite collect_step_event, Ee. cbn [bind apply_event].
      apply (IH _ _ n rq H).
Qed.

Lemma collect_loop_without_responses (ms : list pyval) :
  forall (st st' : state) (rs : list (key * ResponseRecord)),
    collect_loop st ms = Ok st' ->
    collect_loop (mkSt (st_seq st) (st_reqs st) rs)
                 (filter (fun m => negb (stores_response m)) ms) =
    Ok (mkSt (st_seq st') (st_reqs st') rs).
Proof.
  induction ms as [|m ms IH]; intros st st' rs; simpl.
  - now intros [= <-].
  - destruct (collect_step st m) as [st1|] eqn:E; simpl; [|discriminate].
    intro H. apply collect_step_Ok in E. destruct E as (e & Ee & ->).
    unfold stores_response, response_id. rewrite Ee.
    destruct e; cbn [negb filter collect_loop].
    + rewrite collect_step_event, Ee. cbn [bind apply_event st_seq st_reqs st_resps].
      apply (IH _ _ rs H).
    + apply (IH _ _ rs H).
    + rewrite collect_step_event, Ee. cbn [bind apply_event].
      destruct st. apply (IH _ _ rs H).
Qed.

(** X10. Requests and responses are collected apart from each other: with
    the messages that store a request taken out of the batch, [collect]
    returns the same responses (and no request); with the messages that
    store a response taken out, it returns the same requests, with the
    same seq values (and no response). *)
Theorem requests_and_responses_independent :
  forall (ms : list pyval) reqs resps,
    collect_messages ms = Ok (reqs, resps) ->
    collect_messages (filter (fun m => negb (stores_request m)) ms) = Ok ([], resps) /\
    collect_messages (filter (fun m => negb (stores_response m)) ms) = Ok (reqs, []).
Proof.
  intros ms reqs resps H.
  apply collect_messages_Ok in H. destruct H as (st & L & <- & <-).
  unfold collect_messages. split.
  - change init with (mkSt 0 [] (st_resps init)).
    now rewrite (collect_loop_without_requests ms init 0 [] L).
  - change init with (mkSt (st_seq init) (st_reqs init) []).
    now rewrite (collect_loop_without_responses ms init [] L).
Qed.

Lemma requests_and_responses_independent_witness :
  collect_messages
    (filter (fun m => negb (stores_response m))
       [request_msg "X" "/a"; response_msg "X" 200; request_msg "Y" "/b"]) =
  Ok ([(KStr "X", mkReq 1 (PStr "/a") (PStr "GET") (PDict []) PNone);
       (KStr "Y", mkReq 2 (PStr "/b") (PStr "GET") (PDict []) PNone)], []).
Proof.
  exact (proj2 (@requests_and_responses_independent
                  [request_msg "X" "/a"; response_msg "X" 200; request_msg "Y" "/b"]
                  _ _ eq_refl)).
Defined.

(** ** [pick_best]: errors, order of the bucket *)

Lemma keyed_sort_key_raises (cands : list Candidate) :
  (exists ks, keyed sort_key cands = Ok ks) \/
  keyed sort_key cands = Raise AttributeError.
Proof.
  induction cands as [|c cands IH]; simpl; [left; now eexists|].
  destruct (sort_key c) as [k|e] eqn:S; simpl.
  - destruct IH as [[ks ->]| ->]; simpl; [left; now eexists | now right].
  - right. unfold sort_key in S. destruct (method (rq c)); congruence.
Qed.

Lemma keyed_sort_key_Ok (cands : list Candidate) :
  (exists ks, keyed sort_key cands = Ok ks) <-> Forall str_method cands.
Proof.
  split.
  - induction cands as [|c cands IH]; simpl; [constructor|].
    intros [ks H].
    destruct (sort_key c) as [k|] eqn:S; [|discriminate]. simpl in H.
    destruct (keyed sort_key cands) as [ks'|] eqn:K; [|discriminate].
    constructor; [|apply IH; eauto].
    unfold str_method. unfold sort_key in S.
    destruct (method (rq c)); try discriminate. reflexivity.
  - intro F. apply keyed_total. intros c Hc. rewrite Forall_forall in F.
    rewrite (sort_key_str (F c Hc)). now eexists.
Qed.

(** X11. The selector reads the method of every candidate before it picks
    one: it raises, with AttributeError, exactly when some candidate of
    the bucket, picked or not, has a method that is not a string; on an
    empty bucket it never raises. *)
Theorem pick_best_raises_iff :
  forall cands : list Candidate,
    (pick_best cands = Raise AttributeError <->
     exists c, In c cands /\ is_str (method (rq c)) = false) /\
    (forall e, pick_best cands = Raise e -> e = AttributeError).
Proof.
  intro cands.
  assert (E : (exists c, In c cands /\ is_str (method (rq c)) = false) <->
              ~ Forall str_method cands).
  { rewrite <- Exists_exists. split.
    - intros X F. rewrite Forall_forall in F. apply Exists_exists in X.
      destruct X as (c & I & N). specialize (F c I). unfold str_method in F.
      congruence.
    - intro NF. apply Exists_exists.
      induction cands as [|c cands IH]; [destruct NF; constructor|].
      destruct (is_str (method (rq c))) eqn:S.
      + destruct IH as (c' & I & N).
        * intro F. apply NF. now constructor.
        * exists c'. split; [now right | assumption].
      + exists c. split; [now left | assumption]. }
  destruct cands as [|c0 cs].
  - split; [|discriminate]. split; [discriminate|]. intros (c & [] & _).
  - remember (c0 :: cs) as cands eqn:Ec.
    assert (NE : cands <> []) by (subst; discriminate). clear Ec.
    rewrite pick_best_sorted by assumption. unfold sorted.
    rewrite E, <- keyed_sort_key_Ok.
    destruct (keyed_sort_key_raises cands) as [[ks K]|K]; rewrite K; simpl.
    + split; [|discriminate]. split; [discriminate|].
      intro N. destruct N. eauto.
    + split; [|congruence]. split; [|reflexivity].
      intros _ [ks H]. discriminate.
Qed.

Lemma pick_best_least_all (cands : list Candidate) :
  cands <> [] -> Forall str_method cands ->
  exists b,
    pick_best cands = Ok (Some b) /\ In b cands /\
    forall c, In c cands -> not_after b c.
Proof.
  intros NE F.
  destruct (pick_best_least NE F) as (b & pre & post & P & E & Hpre & Hpost).
  exists b. split; [assumption|]. split.
  - rewrite E. apply in_or_app. right. now left.
  - intros c Hc. rewrite E in Hc. apply in_app_or in Hc.
    destruct Hc as [Hc|[<-|Hc]]; auto.
    + apply Hpre in Hc. unfold strictly_before, not_after in *. lia.
    + unfold not_after. lia.
Qed.

Lemma NoDup_map_inj (A B : Type) (f : A -> B) (l : list A) (a b : A) :
  NoDup (map f l) -> In a l -> In b l -> f a = f b -> a = b.
Proof.
  induction l as [|x l IH]; simpl; [tauto|].
  intros ND Ha Hb E. inversion ND as [|? ? NI ND']; subst.
  destruct Ha as [<-|Ha], Hb as [<-|Hb]; auto.
  - exfalso. apply NI. rewrite E. now apply in_map.
  - exfalso. apply NI. rewrite <- E. now apply in_map.
Qed.

(** X12. When no two candidates of a bucket have both the same priority
    class and the same seq, the selection does not depend on the order of
    the bucket: any permutation of the candidates gives the same pick. *)
Theorem pick_best_order_irrelevant :
  forall cands cands' : list Candidate,
    Permutation cands cands' -> Forall str_method cands ->
    NoDup (map order_key cands) ->
    pick_best cands' = pick_best cands.
Proof.
  intros cands cands' P F ND.
  destruct cands as [|c0 cs].
  - apply Permutation_nil in P. now subst.
  - remember (c0 :: cs) as cands eqn:Ec.
    assert (NE : cands <> []) by (subst; discriminate). clear Ec.
    assert (NE' : cands' <> []).
    { intro. subst cands'. apply Permutation_sym, Permutation_nil in P.
      contradiction. }
    assert (F' : Forall str_method cands').
    { apply Forall_forall. intros c Hc. rewrite Forall_forall in F.
      apply F. eapply Permutation_in; [apply Permutation_sym; exact P | exact Hc]. }
    destruct (pick_best_least_all NE F) as (b & Pb & Ib & All).
    destruct (pick_best_least_all NE' F') as (b' & Pb' & Ib0 & All').
    rewrite Pb, Pb'. do 2 f_equal.
    assert (Ib' : In b' cands).
    { eapply Permutation_in; [apply Permutation_sym; exact P | exact Ib0]. }
    pose proof (All b' Ib') as H1.
    pose proof (All' b (Permutation_in _ P Ib)) as H2.
    apply (NoDup_map_inj order_key cands b' b ND Ib' Ib).
    unfold order_key, not_after in *. f_equal; lia.
Qed.

Lemma pick_best_order_irrelevant_witness :
  pick_best (rev tie_break_candidates) = pick_best tie_break_candidates.
Proof.
  apply pick_best_order_irrelevant with (cands := tie_break_candidates).
  - apply Permutation_rev.
  - repeat constructor.
  - repeat constructor; simpl; intuition discriminate.
Defined.

(** ** [print_request]: errors, bounds *)

Lemma redact_Ok_iff (h : pyval) :
  (exists r, redact h = Ok r) <-> (truthy h = true -> is_dict h = true).
Proof.
  destruct (is_dict h) eqn:D.
  - destruct h; try discriminate. rewrite redact_dict. split; eauto.
  - unfold redact. destruct (truthy h) eqn:T.
    + split; [|intro H; specialize (H eq_refl); discriminate].
      intros [r H]. destruct h; discriminate.
    + split; [discriminate|]. intros _. exists []. reflexivity.
Qed.

Lemma print_post_data_Ok_iff (json_loads : string -> option pyval) (pd : pyval) :
  snd (print_post_data json_loads pd) = Ok tt <->
  (truthy pd = true -> is_str pd = true \/ is_list pd = true).
Proof.
  unfold print_post_data. destruct (truthy pd) eqn:T.
  - rewrite snd_io_bind. cbn [print snd bind].
    destruct pd as [| | | |s| |]; cbn [loads];
      try (split; [discriminate | intro H; destruct (H eq_refl); discriminate]).
    + destruct (json_loads s); cbn; split; auto.
    + cbn. split; auto.
  - split; [discriminate | reflexivity].
Qed.

(** X13. [print_request] goes through exactly when the headers of the
    record are a dict or count as false, and its postData is a string, a
    list or counts as false.  Headers of another kind raise AttributeError
    once the method, the url and the line REQUEST_HEADERS: are printed,
    and nothing of the response is printed then. *)
Theorem print_request_raises_iff :
  forall (json_loads : string -> option pyval) (title : string)
         (req : Candidate) (resp : option ResponseRecord) (body : string)
         (b64 : bool),
    (snd (print_request json_loads title req resp body b64) = Ok tt <->
     (truthy (headers (rq req)) = true -> is_dict (headers (rq req)) = true) /\
     (truthy (postData (rq req)) = true ->
      is_str (postData (rq req)) = true \/ is_list (postData (rq req)) = true)) /\
    (truthy (headers (rq req)) = true -> is_dict (headers (rq req)) = false ->
     print_request json_loads title req resp body b64 =
     ([Text (nl ++ "## " ++ title)%string; Fmt "METHOD: " (method (rq req));
       Fmt "URL: " (url (rq req)); Text "REQUEST_HEADERS:"],
      Raise AttributeError)).
Proof.
  intros jl title req resp body b64. split.
  - rewrite <- redact_Ok_iff, <- (print_post_data_Ok_iff jl).
    unfold print_request. rewrite ?snd_io_bind. cbn [print lift snd bind].
    rewrite ?snd_io_bind. cbn [print lift snd bind].
    destruct (redact (headers (rq req))) as [r|e]; cbn [bind].
    + rewrite ?snd_io_bind. cbn [print lift snd bind]. rewrite ?snd_io_bind.
      destruct (snd (print_post_data jl (postData (rq req)))) as [[]|e];
        cbn [bind].
      * rewrite ?snd_io_bind. cbn [print lift snd bind].
        rewrite ?snd_io_bind, print_body_ok. cbn [print lift snd bind].
        split; eauto.
      * split; [discriminate | intros [_ H]; discriminate].
    + split; [discriminate | intros [[r H] _]; discriminate].
  - intros T D. unfold print_request.
    assert (R : redact (headers (rq req)) = Raise AttributeError).
    { unfold redact. rewrite T. destruct (headers (rq req)); try reflexivity.
      discriminate. }
    rewrite R. reflexivity.
Qed.

Lemma print_request_raises_iff_witness :
  print_request Json.loads "sign_in"
    (mkCand (mkReq 1 (PStr "https://shop.example/login") (PStr "POST")
               (PStr "Cookie: sid=42") PNone) (KStr "9"))
    None EmptyString false =
  ([Text (nl ++ "## sign_in")%string; Fmt "METHOD: " (PStr "POST");
    Fmt "URL: " (PStr "https://shop.example/login"); Text "REQUEST_HEADERS:"],
   Raise AttributeError).
Proof.
  apply (proj2 (print_request_raises_iff Json.loads "sign_in"
                  (mkCand (mkReq 1 (PStr "https://shop.example/login") (PStr "POST")
                             (PStr "Cookie: sid=42") PNone) (KStr "9"))
                  None EmptyString false)); reflexivity.
Defined.

Lemma substring_0_length (n : nat) (s : string) :
  String.length (substring 0 n s) = Nat.min n (String.length s).
Proof.
  revert s. induction n as [|n IH]; intros [|c s]; simpl; auto.
Qed.

Lemma substring_0_all (n : nat) (s : string) :
  (String.length s <= n)%nat -> substring 0 n s = s.
Proof.
  revert s. induction n as [|n IH]; intros [|c s]; simpl; intro H;
    try reflexivity; try lia.
  f_equal. apply IH. lia.
Qed.

Lemma append_empty (s : string) : (s ++ "")%string = s.
Proof. induction s; simpl; congruence. Qed.

(** X14. The response body in the report: an empty body prints nothing;
    a base64 body prints a fixed line and never its content; a body of at
    most MAX_BODY_CHARS characters is printed whole; a longer one is cut
    to its first MAX_BODY_CHARS characters, followed by the marker
    "... <truncated>".  Printing the body never raises. *)
Theorem body_snippet_bounded :
  forall (body : string) (b64 : bool),
    snd (print_body body b64) = Ok tt /\
    print_body EmptyString b64 = ([], Ok tt) /\
    (body <> EmptyString ->
     fst (print_body body true) =
     [Text ("RESPONSE_BODY_SNIPPET:" ++ nl ++ "[base64 not expanded]")%string]) /\
    (body <> EmptyString -> (String.length body <= MAX_BODY_CHARS)%nat ->
     fst (print_body body false) = [Text "RESPONSE_BODY_SNIPPET:"; Text body]) /\
    ((MAX_BODY_CHARS < String.length body)%nat ->
     exists cut,
       fst (print_body body false) =
       [Text "RESPONSE_BODY_SNIPPET:"; Text (cut ++ "... <truncated>")%string] /\
       cut = substring 0 MAX_BODY_CHARS body /\
       String.length cut = MAX_BODY_CHARS).
Proof.
  intros body b64. split; [apply print_body_ok|]. split; [reflexivity|].
  assert (NE : body <> EmptyString -> negb (String.eqb body "") = true).
  { intro H. apply negb_true_iff. now apply String.eqb_neq. }
  split; [|split].
  - intro H. unfold print_body. rewrite (NE H). reflexivity.
  - intros H L. unfold print_body. rewrite (NE H).
    apply Nat.ltb_ge in L. rewrite L. cbn [io_bind print fst snd app].
    rewrite substring_0_all by (now apply Nat.ltb_ge).
    now rewrite append_empty.
  - intro L. exists (substring 0 MAX_BODY_CHARS body).
    assert (H : body <> EmptyString).
    { intros ->. simpl in L. lia. }
    unfold print_body. rewrite (NE H).
    pose proof L as L'. apply Nat.ltb_lt in L'. rewrite L'.
    cbn [io_bind print fst snd app].
    split; [reflexivity|]. split; [reflexivity|].
    rewrite substring_0_length. lia.
Qed.

Lemma body_snippet_bounded_witness :
  fst (print_body "{}" false) = [Text "RESPONSE_BODY_SNIPPET:"; Text "{}"].
Proof.
  apply (proj1 (proj2 (proj2 (proj2 (body_snippet_bounded "{}" false))))).
  - discriminate.
  - unfold MAX_BODY_CHARS. simpl. lia.
Defined.

(** X15. The request body in the report: a postData that counts as false
    prints nothing; a string that [json.loads] reads is printed, as JSON
    cut to MAX_BODY_CHARS characters, under the line REQUEST_BODY_JSON:;
    for a string that it does not read, that line is already printed when
    the failure shows, and is followed by the line REQUEST_BODY_RAW: and
    the first MAX_BODY_CHARS characters of the string. *)
Theorem post_data_printing :
  forall (json_loads : string -> option pyval) (pd : pyval),
    (truthy pd = false -> print_post_data json_loads pd = ([], Ok tt)) /\
    (forall s j,
        pd = PStr s -> s <> EmptyString -> json_loads s = Some j ->
        print_post_data json_loads pd =
        ([Text "REQUEST_BODY_JSON:"; JsonPrefix MAX_BODY_CHARS j], Ok tt)) /\
    (forall s,
        pd = PStr s -> s <> EmptyString -> json_loads s = None ->
        print_post_data json_loads pd =
        ([Text "REQUEST_BODY_JSON:"; Text "REQUEST_BODY_RAW:";
          Fmt "" (PStr (substring 0 MAX_BODY_CHARS s))], Ok tt) /\
        (String.length (substring 0 MAX_BODY_CHARS s) <= MAX_BODY_CHARS)%nat).
Proof.
  intros jl pd. unfold print_post_data. split; [intros ->; reflexivity|].
  split.
  - intros s j -> NE L. cbn [truthy]. apply String.eqb_neq in NE. rewrite NE.
    cbn [negb loads]. rewrite L. reflexivity.
  - intros s -> NE L. split.
    + cbn [truthy]. apply String.eqb_neq in NE. rewrite NE.
      cbn [negb loads]. rewrite L. reflexivity.
    + rewrite substring_0_length. lia.
Qed.

Lemma post_data_printing_witness :
  print_post_data Json.loads (PStr "qty=2&sku=500PK") =
  ([Text "REQUEST_BODY_JSON:"; Text "REQUEST_BODY_RAW:";
    Fmt "" (PStr "qty=2&sku=500PK")], Ok tt).
Proof.
  exact (proj1 (proj2 (proj2 (post_data_printing Json.loads (PStr "qty=2&sku=500PK")))
                  "qty=2&sku=500PK" eq_refl ltac:(discriminate) eq_refl)).
Defined.

(** ** [get_body] *)

(** X16. [get_body] fails softly: when the browser call raises, or returns
    something that is not a dict, it returns the empty body with the
    base64 flag False; on a dict it returns the body and the flag, with
    the empty string and False for a missing key. *)
Theorem get_body_fails_softly :
  forall (cdp : key -> result pyval) (rid : key),
    (forall e, cdp rid = Raise e -> get_body_of cdp rid = (PStr "", PBool false)) /\
    (forall v, cdp rid = Ok v -> is_dict v = false ->
               get_body_of cdp rid = (PStr "", PBool false)) /\
    (forall d, cdp rid = Ok (PDict d) ->
               get_body_of cdp rid =
               (field_or d "body" (PStr ""), field_or d "base64Encoded" (PBool false))).
Proof.
  intros cdp rid. unfold get_body_of. split; [|split].
  - intros e ->. reflexivity.
  - intros v -> D. destruct v; try reflexivity. discriminate.
  - intros d ->. reflexivity.
Qed.

Lemma get_body_fails_softly_witness :
  get_body_of (fun _ => Ok (PDict [("body", PStr "<html>")])) (KStr "17.3") =
  (PStr "<html>", PBool false).
Proof.
  exact (proj2 (proj2 (get_body_fails_softly
                         (fun _ => Ok (PDict [("body", PStr "<html>")]))
                         (KStr "17.3")))
           [("body", PStr "<html>")] eq_refl).
Defined.

(** ** The aggregation: keys, disjoint phases, repeated phases *)

Lemma keys_dict_update (V : Type) (e d : list (key * V)) :
  keys (dict_update key_eqb d e) = fold_left seen (keys e) (keys d).
Proof.
  unfold dict_update. revert d.
  induction e as [|[k v] e IH]; intro d; simpl; [reflexivity|].
  now rewrite IH, keys_set_seen.
Qed.

Lemma combined_keys (snaps : list PhaseSnapshot) :
  keys (combined_reqs snaps) =
  first_seen (flat_map (fun s => keys (reqs s)) snaps) /\
  keys (combined_resps snaps) =
  first_seen (flat_map (fun s => keys (resps s)) snaps).
Proof.
  unfold first_seen.
  induction snaps as [|s snaps [IH1 IH2]] using rev_ind; [split; reflexivity|].
  unfold combined_reqs, combined_resps. rewrite combine_snoc. cbn [fst snd].
  rewrite !keys_dict_update, !flat_map_app, !fold_left_app, IH1, IH2.
  simpl. rewrite !app_nil_r. split; reflexivity.
Qed.

(** X17. The ids of the combined maps are the ids of the phases, each
    once, in the order in which they first occur over the phases: an id
    overwritten by a later phase keeps the place the earlier phase gave
    it.  The order of a bucket, which decides between candidates that tie,
    follows from it. *)
Theorem combined_ids_first_seen :
  forall snaps : list PhaseSnapshot,
    keys (combined_reqs snaps) =
    first_seen (flat_map (fun s => keys (reqs s)) snaps) /\
    keys (combined_resps snaps) =
    first_seen (flat_map (fun s => keys (resps s)) snaps) /\
    NoDup (keys (combined_reqs snaps)) /\ NoDup (keys (combined_resps snaps)).
Proof.
  intro snaps. destruct (combined_keys snaps) as [H1 H2].
  destruct (combine_keys_NoDup snaps) as [N1 N2]. auto.
Qed.

Lemma dict_set_fresh (V : Type) (k : key) (v : V) (d : list (key * V)) :
  ~ In k (keys d) -> dict_set key_eqb k v d = d ++ [(k, v)].
Proof.
  induction d as [|[k' v'] d IH]; simpl; intro N; [reflexivity|].
  destruct (key_eqb k k') eqn:E.
  - apply key_eqb_eq in E. subst. tauto.
  - rewrite IH; tauto.
Qed.

Lemma dict_update_disjoint (V : Type) (e d : list (key * V)) :
  NoDup (keys d ++ keys e) -> dict_update key_eqb d e = d ++ e.
Proof.
  unfold dict_update. revert d.
  induction e as [|[k v] e IH]; intro d; simpl; intro ND.
  - now rewrite app_nil_r.
  - rewrite dict_set_fresh.
    + rewrite IH.
      * now rewrite <- app_assoc.
      * unfold keys in *. rewrite map_app, <- app_assoc. exact ND.
    + apply NoDup_remove_2 in ND. intro H. apply ND. apply in_or_app. now left.
Qed.

Lemma keys_flat_map (V : Type) (f : PhaseSnapshot -> list (key * V))
  (snaps : list PhaseSnapshot) :
  keys (flat_map f snaps) = flat_map (fun s => keys (f s)) snaps.
Proof.
  induction snaps as [|s snaps IH]; simpl; [reflexivity|].
  unfold keys in *. now rewrite map_app, IH.
Qed.

(** X18. When no id occurs in two phases, nothing is overwritten: the
    combined maps are the maps of the phases put end to end, in phase
    order.  In particular the combined maps of a single phase are the
    maps of that phase. *)
Theorem combine_disjoint_phases :
  forall snaps : list PhaseSnapshot,
    NoDup (flat_map (fun s => keys (reqs s)) snaps) ->
    NoDup (flat_map (fun s => keys (resps s)) snaps) ->
    combined_reqs snaps = flat_map reqs snaps /\
    combined_resps snaps = flat_map resps snaps.
Proof.
  induction snaps as [|s snaps IH] using rev_ind; intros N1 N2;
    [split; reflexivity|].
  rewrite !flat_map_app in *. simpl in N1, N2. rewrite !app_nil_r in *.
  destruct IH as [I1 I2];
    [eapply NoDup_app_remove_r; eauto | eapply NoDup_app_remove_r; eauto |].
  unfold combined_reqs, combined_resps. rewrite combine_snoc. cbn [fst snd].
  rewrite I1, I2. simpl. rewrite !app_nil_r.
  split; apply dict_update_disjoint; now rewrite keys_flat_map.
Qed.

Lemma combine_disjoint_phases_witness :
  combined_reqs [phase_A; phase_C] = reqs phase_A ++ reqs phase_C /\
  combined_resps [phase_A; phase_C] = resps phase_A ++ resps phase_C.
Proof.
  destruct (combine_disjoint_phases [phase_A; phase_C]) as [H1 H2].
  - repeat constructor; simpl; intuition discriminate.
  - repeat constructor; simpl; intuition discriminate.
  - rewrite H1, H2. split; reflexivity.
Defined.

Lemma dict_set_same_value (V : Type) (k : key) (v : V) (d : list (key * V)) :
  dict_get key_eqb k d = Some v -> dict_set key_eqb k v d = d.
Proof.
  induction d as [|[k' v'] d IH]; simpl; [discriminate|].
  destruct (key_eqb k k'); [now intros [= ->] | intro H; now rewrite IH].
Qed.

Lemma dict_update_again (V : Type) (e d : list (key * V)) :
  (forall k v, In (k, v) e -> dict_get key_eqb k d = Some v) ->
  dict_update key_eqb d e = d.
Proof.
  unfold dict_update. induction e as [|[k v] e IH]; simpl; intro H; [reflexivity|].
  rewrite dict_set_same_value by (apply H; now left).
  apply IH. intros k' v' I. apply H. now right.
Qed.

(** X19. Aggregation is idempotent on a phase: a snapshot that comes twice
    in a row in the list of phases counts once. *)
Theorem combine_repeated_phase :
  forall (snaps : list PhaseSnapshot) (s : PhaseSnapshot),
    snapshot_ok s ->
    combine (snaps ++ [s; s]) = combine (snaps ++ [s]).
Proof.
  intros snaps s [N1 N2].
  change (snaps ++ [s; s]) with (snaps ++ [s] ++ [s]).
  rewrite app_assoc, (combine_snoc (snaps ++ [s]) s).
  unfold combined_reqs, combined_resps. rewrite combine_snoc. cbn [fst snd].
  f_equal; apply dict_update_again; intros k v I.
  - rewrite dict_get_update by (apply key_eqb_eq || assumption).
    now rewrite (@In_dict_get _ _ key_eqb key_eqb_eq _ _ _ N1 I).
  - rewrite dict_get_update by (apply key_eqb_eq || assumption).
    now rewrite (@In_dict_get _ _ key_eqb key_eqb_eq _ _ _ N2 I).
Qed.

Lemma combine_repeated_phase_witness :
  combine ([phase_A] ++ [phase_B; phase_B]) = combine ([phase_A] ++ [phase_B]).
Proof.
  apply combine_repeated_phase.
  split; repeat constructor; simpl; intuition discriminate.
Defined.

(** ** The summary: urls that are not strings, what is selected *)

Lemma first_action_not_str (u : pyval) :
  is_str u = false -> first_action u ACTIONS = Raise TypeError.
Proof. destruct u; try reflexivity. discriminate. Qed.

Lemma bucketize_loop_raises (items : list (key * RequestRecord)) :
  forall buckets,
    (forall a, In a (map fst ACTIONS) -> In a (keys buckets)) ->
    Exists (fun it => is_str (url (snd it)) = false) items ->
    bucketize_loop buckets items = Raise TypeError.
Proof.
  induction items as [|it items IH]; intros buckets Hk X; [inversion X|].
  destruct (is_str (url (snd it))) eqn:S.
  - assert (F : Forall str_url [it]) by (repeat constructor; exact S).
    destruct (bucketize_loop_spec buckets F Hk) as (b' & L & K & _).
    cbn [bucketize_loop] in L |- *.
    destruct (bucketize_step buckets it) as [b1|]; [|discriminate].
    cbn [bind] in L |- *. injection L as ->.
    apply IH.
    + now rewrite K.
    + inversion X; subst; [congruence | assumption].
  - cbn [bucketize_loop]. unfold bucketize_step.
    now rewrite (first_action_not_str _ S).
Qed.

(** X20. One request with a url that is not a string (a url given as null
    in the log is stored as None) is enough to lose the whole summary:
    bucketing raises TypeError exactly when the combined view has such a
    request, and the summary then prints nothing, not even its title. *)
Theorem bucketize_raises_iff :
  forall (json_loads : string -> option pyval) (get_body : key -> string * bool)
         (creqs : list (key * RequestRecord)) (cresps : list (key * ResponseRecord)),
    (bucketize creqs = Raise TypeError <->
     exists k r, In (k, r) creqs /\ is_str (url r) = false) /\
    ((exists k r, In (k, r) creqs /\ is_str (url r) = false) ->
     summary json_loads get_body creqs cresps = ([], Raise TypeError)) /\
    (forall e, bucketize creqs = Raise e -> e = TypeError).
Proof.
  intros jl gb creqs cresps.
  assert (R : (exists k r, In (k, r) creqs /\ is_str (url r) = false) ->
              bucketize creqs = Raise TypeError).
  { intros (k & r & I & S). apply bucketize_loop_raises; [auto|].
    apply Exists_exists. exists (k, r). auto. }
  assert (D : Forall str_url creqs \/
              exists k r, In (k, r) creqs /\ is_str (url r) = false).
  { clear R. induction creqs as [|[k r] l IH]; [left; constructor|].
    destruct (is_str (url r)) eqn:S.
    - destruct IH as [F|(k' & r' & I & N)].
      + left. now constructor.
      + right. exists k', r'. split; [now right | assumption].
    - right. exists k, r. split; [now left | assumption]. }
  split; [|split].
  - split; [|exact R]. intro H.
    destruct D as [F|X]; [|exact X].
    destruct (bucketize_spec F) as (b & B & _). congruence.
  - intro X. unfold summary. now rewrite (R X).
  - intros e H. destruct D as [F|X].
    + destruct (bucketize_spec F) as (b & B & _). congruence.
    + rewrite (R X) in H. congruence.
Qed.

(** The request with url null is stored by [collect] with the url None;
    the summary of a view that holds it raises before it prints. *)
Lemma bucketize_raises_iff_witness :
  collect_messages [msg_null_url] =
  Ok ([(KStr "7", mkReq 1 PNone (PStr "GET") (PDict []) PNone)], []) /\
  summary Json.loads no_body
    [(KStr "7", mkReq 1 PNone (PStr "GET") (PDict []) PNone)] [] =
  ([], Raise TypeError).
Proof.
  split; [reflexivity|].
  apply (proj1 (proj2 (bucketize_raises_iff Json.loads no_body
                         [(KStr "7", mkReq 1 PNone (PStr "GET") (PDict []) PNone)]
                         []))).
  exists (KStr "7"), (mkReq 1 PNone (PStr "GET") (PDict []) PNone).
  split; [now left | reflexivity].
Defined.

(** X21. From the combined view to what the summary reports for an action.
    The action is reported as not observed when no request of the view has
    it as the first action with a pattern found in its url.  Otherwise the
    exchange printed is a request of the view with that action as first
    match, chosen among all such requests: a POST if one of them is a
    POST, with the highest seq among the POSTs; the one with the highest
    seq if none is. *)
Theorem selected_exchange_is_best_match :
  forall (json_loads : string -> option pyval) (get_body : key -> string * bool)
         (creqs : list (key * RequestRecord)) (cresps : list (key * ResponseRecord)),
    requests_ok creqs ->
    exists buckets,
      bucketize creqs = Ok buckets /\
      summary json_loads get_body creqs cresps =
      (SUMMARY_TITLE ::
       flat_map (fun a => fst (report_action json_loads get_body buckets cresps a))
                ACTION_NAMES,
       Ok tt) /\
      forall a, In a ACTION_NAMES ->
        ((forall k r, In (k, r) creqs -> ~ first_match (url r) a) /\
         report_action json_loads get_body buckets cresps a =
         ([heading a; Text "not observed"], Ok tt)) \/
        (exists b,
            In (rid b, rq b) creqs /\ first_match (url (rq b)) a /\
            report_action json_loads get_body buckets cresps a =
            (heading a ::
             fst (print_request json_loads a b (dict_get key_eqb (rid b) cresps)
                    (fst (get_body (rid b))) (snd (get_body (rid b)))),
             Ok tt) /\
            forall k r,
              In (k, r) creqs -> first_match (url r) a ->
              (is_POST (mkCand r k) -> is_POST b /\ seq r <= seq (rq b)) /\
              (~ is_POST b -> ~ is_POST (mkCand r k) /\ seq r <= seq (rq b))).
Proof.
  intros jl gb creqs cresps R.
  destruct (summary_spec jl gb cresps R) as (buckets & B & K & Hc & S).
  unfold requests_ok, values in R. rewrite Forall_map in R.
  destruct (@bucketize_spec creqs) as (buckets' & B' & _ & C).
  { eapply Forall_impl; [|exact R]. intros x (U & _). exact U. }
  rewrite B in B'. injection B' as <-.
  assert (FM : forall a k r,
             In (mkCand r k) (bucket_of buckets a) <->
             In (k, r) creqs /\ first_match (url r) a).
  { intros a k r. rewrite C.
    rewrite (In_bucket creqs a (mkCand r k)). cbn [rid rq].
    split; intros [I H]; (split; [assumption|]).
    - rewrite Forall_forall in R. destruct (R _ I) as (U & _). cbn [snd] in U.
      destruct (url r) as [| | | |s| |]; try discriminate.
      now apply first_action_first_match.
    - destruct (first_match_str H) as [s E]. rewrite E in *.
      now apply first_action_first_match. }
  exists buckets. split; [assumption|]. split; [assumption|].
  intros a Ha.
  assert (F : Forall (fun c => request_ok (rq c)) (bucket_of buckets a)).
  { apply Forall_forall. intros c Hc'. eapply Hc; eauto. }
  destruct (@report_action_cases jl gb buckets cresps a)
    as [[E Rp]|(b & Ib & P & Rp)]; [now rewrite K | exact F | |].
  - left. split; [|exact Rp]. intros k r I M.
    assert (H : In (mkCand r k) (bucket_of buckets a)) by (apply FM; auto).
    rewrite E in H. destruct H.
  - right. exists b.
    assert (Ib' : In (mkCand (rq b) (rid b)) (bucket_of buckets a)).
    { now destruct b. }
    apply FM in Ib'. destruct Ib' as [I M].
    split; [assumption|]. split; [assumption|]. split; [assumption|].
    intros k r I' M'.
    assert (NE : bucket_of buckets a <> []).
    { intro E. rewrite E in Ib. destruct Ib. }
    assert (Fm : Forall str_method (bucket_of buckets a)).
    { eapply Forall_impl; [|exact F]. intros x (_ & Hm & _). exact Hm. }
    destruct (pick_best_least_all NE Fm) as (b' & P' & _ & All).
    rewrite P in P'. injection P' as <-.
    assert (A : not_after b (mkCand r k)) by (apply All, FM; auto).
    exact (not_after_POST A).
Qed.

(** In the view with three requests for the checkout, a GET with seq 2, a
    post with seq 7 and a GET with seq 8, the section of go_to_checkout
    prints the post. *)
Lemma selected_exchange_is_best_match_witness :
  exists buckets,
    bucketize checkout_requests = Ok buckets /\
    fst (summary Json.loads no_body checkout_requests []) =
    SUMMARY_TITLE ::
    flat_map (fun a => fst (report_action Json.loads no_body buckets [] a))
             ACTION_NAMES /\
    report_action Json.loads no_body buckets [] "go_to_checkout" =
    (heading "go_to_checkout" ::
     fst (print_request Json.loads "go_to_checkout"
            (mkCand (mkReq 7 (PStr "https://shop.example/checkout/start")
                       (PStr "post") (PDict []) PNone) (KStr "7"))
            None EmptyString false),
     Ok tt).
Proof.
  destruct (@selected_exchange_is_best_match Json.loads no_body
              checkout_requests [])
    as (buckets & B & S & _).
  - repeat constructor.
  - exists buckets. split; [assumption|]. split; [now rewrite S|].
    vm_compute in B. injection B as <-. vm_compute. reflexivity.
Defined.

(** X22. A url found by the pattern /api/.*cart is never reported under
    view_cart, although the pattern is listed there: the same pattern
    stands under add_to_cart, which comes first, so such a url goes to
    add_to_cart, or to fetch_product when one of its patterns matches. *)
Theorem view_cart_api_pattern_is_shadowed :
  forall s : string,
    Re.search "/api/.*cart" (PStr s) = Ok true ->
    first_action (PStr s) ACTIONS = Ok (Some "fetch_product") \/
    first_action (PStr s) ACTIONS = Ok (Some "add_to_cart").
Proof.
  intros s H. unfold ACTIONS. cbn [first_action].
  rewrite !matches_existsb by reflexivity. cbn [bind].
  match goal with |- context [if ?b then _ else _] => destruct b end;
    [now left|].
  right. cbn [bind]. rewrite ?matches_existsb by reflexivity. cbn [bind].
  match goal with |- context [if ?b then _ else _] => destruct b eqn:E end;
    [reflexivity|].
  exfalso. cbn [existsb] in E. rewrite H in E.
  rewrite !orb_true_r in E. discriminate.
Qed.

Lemma view_cart_api_pattern_is_shadowed_witness :
  first_action (PStr "https://shop.example/api/v1/cart") ACTIONS =
  Ok (Some "fetch_product") \/
  first_action (PStr "https://shop.example/api/v1/cart") ACTIONS =
  Ok (Some "add_to_cart").
Proof.
  apply view_cart_api_pattern_is_shadowed. vm_compute. reflexivity.
Defined.

(** ** [main] *)



(** ** Phases and batches *)

Section DictAlgebra.
Variable V : Type.
Implicit Types (d e : list (key * V)).

Lemma dict_set_twice (k : key) (v v' : V) d :
  dict_set key_eqb k v (dict_set key_eqb k v' d) = dict_set key_eqb k v d.
Proof.
  induction d as [|[k0 v0] d IH]; simpl.
  - now rewrite key_eqb_refl.
  - destruct (key_eqb k k0) eqn:E; simpl; rewrite E; [reflexivity | now rewrite IH].
Qed.

Lemma dict_set_comm (k k' : key) (v v' : V) d :
  k <> k' -> In k (keys d) ->
  dict_set key_eqb k v (dict_set key_eqb k' v' d) =
  dict_set key_eqb k' v' (dict_set key_eqb k v d).
Proof.
  intros N. induction d as [|[k0 v0] d IH]; simpl; [tauto|].
  intros [->|I].
  - rewrite key_eqb_refl. rewrite (proj2 (key_eqb_neq k' k)) by congruence.
    simpl. rewrite key_eqb_refl.
    now rewrite (proj2 (key_eqb_neq k' k)) by congruence.
  - destruct (key_eqb k' k0) eqn:E'; destruct (key_eqb k k0) eqn:E; simpl;
      rewrite ?E, ?E'; try reflexivity.
    + apply key_eqb_eq in E, E'. congruence.
    + now rewrite (IH I).
Qed.

Lemma In_keys_dict_set (k k' : key) (v : V) d :
  In k (keys d) -> In k (keys (dict_set key_eqb k' v d)).
Proof.
  intro I. rewrite keys_dict_set.
  destruct (dict_mem key_eqb k' d); [assumption | apply in_or_app; now left].
Qed.

Lemma In_keys_set_self (k : key) (v : V) d :
  In k (keys (dict_set key_eqb k v d)).
Proof.
  rewrite keys_dict_set. unfold dict_mem.
  destruct (dict_get key_eqb k d) eqn:G.
  - apply (@dict_get_In _ _ key_eqb key_eqb_eq) in G.
    change k with (fst (k, v0)). now apply in_map.
  - apply in_or_app. right. now left.
Qed.

Lemma dict_update_set_present (k : key) (v : V) e :
  forall d, ~ In k (keys e) -> In k (keys d) ->
            dict_update key_eqb (dict_set key_eqb k v d) e =
            dict_set key_eqb k v (dict_update key_eqb d e).
Proof.
  unfold dict_update.
  induction e as [|[k' v'] e IH]; intros d N I; simpl; [reflexivity|].
  simpl in N.
  rewrite <- IH; [|tauto | now apply In_keys_dict_set].
  f_equal. symmetry. apply dict_set_comm; [intro; subst; tauto | assumption].
Qed.

(** Setting a key in the dict that updates, or in the result, is the same. *)
Lemma dict_update_set (k : key) (v : V) e :
  forall d, NoDup (keys e) ->
            dict_update key_eqb d (dict_set key_eqb k v e) =
            dict_set key_eqb k v (dict_update key_eqb d e).
Proof.
  induction e as [|[k' v'] e IH]; intros d ND; [reflexivity|].
  inversion ND as [|? ? NI ND']; subst.
  cbn [dict_set]. destruct (key_eqb k k') eqn:E.
  - apply key_eqb_eq in E. subst k'.
    change (dict_update key_eqb d ((k, v) :: e))
      with (dict_update key_eqb (dict_set key_eqb k v d) e).
    change (dict_update key_eqb d ((k, v') :: e))
      with (dict_update key_eqb (dict_set key_eqb k v' d) e).
    rewrite <- (dict_set_twice k v v' d).
    apply dict_update_set_present; [assumption | apply In_keys_set_self].
  - change (dict_update key_eqb d ((k', v') :: dict_set key_eqb k v e))
      with (dict_update key_eqb (dict_set key_eqb k' v' d) (dict_set key_eqb k v e)).
    rewrite IH by assumption. reflexivity.
Qed.

End DictAlgebra.

Lemma map_values_set (V W : Type) (f : V -> W) (k : key) (v : V)
  (d : list (key * V)) :
  map_values f (dict_set key_eqb k v d) =
  dict_set key_eqb k (f v) (map_values f d).
Proof.
  unfold map_values. induction d as [|[k' v'] d IH]; simpl; [reflexivity|].
  destruct (key_eqb k k'); simpl; [reflexivity | now rewrite IH].
Qed.

Lemma keys_map_values (V W : Type) (f : V -> W) (d : list (key * V)) :
  keys (map_values f d) = keys d.
Proof. unfold keys, map_values. rewrite map_map. reflexivity. Qed.

Lemma map_values_update (V W : Type) (f : V -> W) (e d : list (key * V)) :
  map_values f (dict_update key_eqb d e) =
  dict_update key_eqb (map_values f d) (map_values f e).
Proof.
  unfold dict_update. revert d.
  induction e as [|[k v] e IH]; intro d; simpl; [reflexivity|].
  now rewrite IH, map_values_set.
Qed.

(** Running a batch from a state [st], or from the initial state and
    updating the maps of [st] with the result, gives the same responses,
    and the same requests up to seq. *)
Lemma collect_loop_from (ms : list pyval) :
  forall st st' st2,
    state_ok st ->
    collect_loop st ms = Ok st' -> collect_loop init ms = Ok st2 ->
    st_resps st' = dict_update key_eqb (st_resps st) (st_resps st2) /\
    map_values unseq (st_reqs st') =
    dict_update key_eqb (map_values unseq (st_reqs st))
                (map_values unseq (st_reqs st2)).
Proof.
  induction ms as [|m ms IH] using rev_ind; intros st st' st2 OK.
  - simpl. intros [= <-] [= <-]. split; reflexivity.
  - rewrite !collect_loop_app.
    destruct (collect_loop st ms) as [s1|] eqn:L1; [|discriminate].
    destruct (collect_loop init ms) as [s2|] eqn:L2; [|discriminate].
    cbn [bind collect_loop].
    rewrite !collect_step_event.
    destruct (event_of m) as [e|]; [|discriminate]. cbn [bind].
    intros [= <-] [= <-].
    destruct (IH _ _ _ OK L1 eq_refl) as [R S].
    destruct (state_ok_loop _ state_ok_init L2) as (K1 & K2 & _).
    destruct e; cbn [apply_event st_reqs st_resps].
    + split; [assumption|].
      rewrite !map_values_set, S. cbn [unseq url method headers postData].
      rewrite dict_update_set; [reflexivity|]. now rewrite keys_map_values.
    + split; [|assumption].
      rewrite R. now rewrite dict_update_set.
    + split; assumption.
Qed.

(** X24. Where the log is cut into phases does not change what the
    combined view holds, except for seq: the combined maps of two
    consecutive batches are the responses that [collect] returns on the
    two batches taken as one, and its requests up to their seq values,
    which start again at 1 in each phase. *)
Theorem phases_compose :
  forall (l1 l2 : list pyval) (n1 n2 : string) r1 s1 r2 s2,
    collect_messages l1 = Ok (r1, s1) ->
    collect_messages l2 = Ok (r2, s2) ->
    exists r s,
      collect_messages (l1 ++ l2) = Ok (r, s) /\
      combined_resps [mkSnap n1 r1 s1; mkSnap n2 r2 s2] = s /\
      map_values unseq (combined_reqs [mkSnap n1 r1 s1; mkSnap n2 r2 s2]) =
      map_values unseq r.
Proof.
  intros l1 l2 n1 n2 r1 s1 r2 s2 H1 H2.
  apply collect_messages_Ok in H1. destruct H1 as (st1 & L1 & <- & <-).
  apply collect_messages_Ok in H2. destruct H2 as (st2 & L2 & <- & <-).
  pose proof (state_ok_loop _ state_ok_init L1) as OK1.
  assert (T : exists st, collect_loop st1 l2 = Ok st).
  { clear L1 OK1. revert st1.
    assert (G : forall l sa sb s, collect_loop sa l = Ok s ->
                                  exists s', collect_loop sb l = Ok s').
    { induction l as [|m l IHl]; intros sa sb s; simpl; [eauto|].
      rewrite !collect_step_event. destruct (event_of m); [|discriminate].
      cbn [bind]. apply IHl. }
    intro st1. apply (G l2 init st1 st2 L2). }
  destruct T as [st L].
  exists (st_reqs st), (st_resps st).
  unfold collect_messages. rewrite collect_loop_app, L1. cbn [bind]. rewrite L.
  split; [reflexivity|].
  destruct (collect_loop_from l2 OK1 L L2) as [R S].
  destruct OK1 as (K1 & K2 & _).
  unfold combined_resps, combined_reqs, combine. cbn [fold_left fst snd reqs resps].
  rewrite !(dict_update_disjoint _ []) by (simpl; assumption). cbn [app].
  split; [now rewrite R|].
  now rewrite map_values_update, S.
Qed.

Lemma phases_compose_witness :
  exists r s,
    collect_messages ([request_msg "X" "/a"] ++
                      [request_msg "Y" "/b"; request_msg "X" "/c"]) = Ok (r, s) /\
    combined_resps
      [mkSnap "one" [(KStr "X", mkReq 1 (PStr "/a") (PStr "GET") (PDict []) PNone)] [];
       mkSnap "two" [(KStr "Y", mkReq 1 (PStr "/b") (PStr "GET") (PDict []) PNone);
                     (KStr "X", mkReq 2 (PStr "/c") (PStr "GET") (PDict []) PNone)] []]
    = s /\
    map_values unseq
      (combined_reqs
         [mkSnap "one" [(KStr "X", mkReq 1 (PStr "/a") (PStr "GET") (PDict []) PNone)] [];
          mkSnap "two" [(KStr "Y", mkReq 1 (PStr "/b") (PStr "GET") (PDict []) PNone);
                        (KStr "X", mkReq 2 (PStr "/c") (PStr "GET") (PDict []) PNone)] []])
    = map_values unseq r.
Proof.
  exact (@phases_compose [request_msg "X" "/a"]
           [request_msg "Y" "/b"; request_msg "X" "/c"] "one" "two"
           _ _ _ _ eq_refl eq_refl).
Defined.

Lemma count_from_app (a : Z) (n m : nat) :
  count_from a (n + m) = count_from a n ++ count_from (a + Z.of_nat n) m.
Proof.
  revert a. induction n as [|n IH]; intro a.
  - simpl. now rewrite Z.add_0_r.
  - cbn [Nat.add count_from app]. rewrite IH. do 3 f_equal. lia.
Qed.

Lemma collect_loop_distinct (ms : list pyval) :
  forall st st',
    collect_loop st ms = Ok st' ->
    NoDup (keys (st_reqs st) ++ ids_of request_id ms) ->
    keys (st_reqs st') = keys (st_reqs st) ++ ids_of request_id ms /\
    seqs (st_reqs st') =
    seqs (st_reqs st) ++ count_from (st_seq st) (List.length (ids_of request_id ms)).
Proof.
  induction ms as [|m ms IH]; intros st st'; simpl.
  - intros [= <-] _. now rewrite !app_nil_r.
  - destruct (collect_step st m) as [st1|] eqn:E; simpl; [|discriminate].
    intros L ND. apply collect_step_Ok in E. destruct E as (e & Ee & ->).
    unfold ids_of in *. cbn [flat_map] in *.
    unfold request_id in ND |- * at 1 3. rewrite Ee in *.
    destruct e as [k u me h pd| |]; cbn [app List.length] in *.
    + assert (F : ~ In k (keys (st_reqs st))).
      { apply NoDup_remove_2 in ND. intro H. apply ND, in_or_app. now left. }
      destruct (IH _ _ L) as [K S].
      { cbn [apply_event st_reqs]. rewrite dict_set_fresh by assumption.
        unfold keys in *. rewrite map_app, <- app_assoc. exact ND. }
      cbn [apply_event st_reqs st_seq] in K, S.
      rewrite dict_set_fresh in K, S by assumption.
      unfold keys, seqs in *. rewrite map_app, <- app_assoc in K, S.
      split; [exact K|]. rewrite S. reflexivity.
    + apply (IH _ _ L ND).
    + apply (IH _ _ L ND).
Qed.

(** X25. In a phase where no id is requested twice, the snapshot holds the
    requests in the order of the log, numbered 1, 2, ..., without gap.
    (When an id comes back, the number of its earlier record is lost:
    seq counts the messages, not the ids.) *)
Theorem distinct_ids_numbered_in_order :
  forall (ms : list pyval) reqs resps,
    collect_messages ms = Ok (reqs, resps) ->
    NoDup (ids_of request_id ms) ->
    keys reqs = ids_of request_id ms /\
    seqs reqs = count_from 0 (List.length reqs).
Proof.
  intros ms reqs resps H ND.
  apply collect_messages_Ok in H. destruct H as (st & L & <- & <-).
  destruct (@collect_loop_distinct ms init st L ND) as [K S]. simpl in K, S.
  split; [assumption|]. rewrite S. f_equal.
  rewrite <- K. unfold keys. now rewrite length_map.
Qed.

Lemma distinct_ids_numbered_in_order_witness :
  seqs [(KStr "X", mkReq 1 (PStr "/a") (PStr "GET") (PDict []) PNone);
        (KStr "Y", mkReq 2 (PStr "/b") (PStr "GET") (PDict []) PNone)] = [1; 2].
Proof.
  refine (proj2 (@distinct_ids_numbered_in_order
                   [request_msg "X" "/a"; response_msg "X" 200; request_msg "Y" "/b"]
                   _ _ eq_refl _)).
  repeat constructor; simpl; intuition discriminate.
Defined.

(** ** capture_form_styles.py *)

Lemma forms_label_cases (d : Forms.Desc) :
  Forms.label d =
  match Forms.text_of d with
  | None => Raise TypeError
  | Some t =>
      if Forms.contains "ship" t then Ok "shipping"
      else if Forms.contains "bill" t then Ok "billing" else Ok "unknown"
  end.
Proof.
  unfold Forms.label, Forms.haystack, Forms.text_of, Forms.plus.
  destruct (Forms.d_id d), (Forms.d_name d), (Forms.d_class d); try reflexivity.
  cbn [bind existsb]. rewrite !orb_false_r.
  destruct (Forms.contains "ship" _); [reflexivity|].
  cbn [bind]. now destruct (Forms.contains "bill" _).
Qed.

Lemma forms_step_cases (r : Forms.Results) (el : Forms.Element) :
  Forms.step r el =
  Forms.mkResults
    (Forms.shipping r ++ filter Forms.is_shipping (Forms.visible el))
    (Forms.billing r ++ filter Forms.is_billing (Forms.visible el)).
Proof.
  unfold Forms.step, Forms.visible.
  destruct r as [s b]. cbn [Forms.shipping Forms.billing].
  destruct (Forms.is_displayed el) as [[|]|]; cbn [bind negb filter];
    rewrite ?app_nil_r; try reflexivity.
  destruct (Forms.described el) as [d|]; cbn [bind filter];
    rewrite ?app_nil_r; try reflexivity.
  rewrite forms_label_cases. unfold Forms.is_shipping, Forms.is_billing.
  destruct (Forms.text_of d) as [t|]; cbn [bind]; rewrite ?app_nil_r;
    try reflexivity.
  destruct (Forms.contains "ship" t); cbn [bind andb negb String.eqb];
    rewrite ?app_nil_r; try reflexivity.
  - rewrite andb_false_r. now rewrite app_nil_r.
  - destruct (Forms.contains "bill" t); cbn; rewrite ?app_nil_r; reflexivity.
Qed.

Lemma forms_extract_from (inputs : list Forms.Element) (r : Forms.Results) :
  fold_left Forms.step inputs r =
  Forms.mkResults
    (Forms.shipping r ++ filter Forms.is_shipping (flat_map Forms.visible inputs))
    (Forms.billing r ++ filter Forms.is_billing (flat_map Forms.visible inputs)).
Proof.
  revert r. induction inputs as [|el inputs IH]; intro r; simpl.
  - rewrite !app_nil_r. now destruct r.
  - rewrite IH, forms_step_cases. cbn [Forms.shipping Forms.billing].
    now rewrite !filter_app, !app_assoc.
Qed.

(** X26. The form fields: the list shipping holds, in page order, the
    displayed fields whose id, name and class are all given and contain,
    put end to end and in lower case, the letters ship; the list billing
    holds those that contain bill and not ship.  So ship wins over bill, no
    field is in both lists, and a field that is hidden, that lacks one of
    the three attributes, that raises or that has neither word is in
    none; the count printed is at most the number of fields found. *)
Theorem form_fields_sorted :
  forall inputs : list Forms.Element,
    Forms.shipping (Forms.extract inputs) =
    filter Forms.is_shipping (flat_map Forms.visible inputs) /\
    Forms.billing (Forms.extract inputs) =
    filter Forms.is_billing (flat_map Forms.visible inputs) /\
    (forall d, In d (Forms.shipping (Forms.extract inputs)) ->
               In d (Forms.billing (Forms.extract inputs)) -> False) /\
    (Forms.count (Forms.extract inputs) <= List.length inputs)%nat.
Proof.
  intro inputs. unfold Forms.extract. rewrite forms_extract_from.
  cbn [Forms.shipping Forms.billing app]. split; [reflexivity|].
  split; [reflexivity|]. split.
  - intros d Hs Hb. apply filter_In in Hs, Hb.
    destruct Hs as [_ Hs], Hb as [_ Hb].
    unfold Forms.is_shipping, Forms.is_billing in *.
    destruct (Forms.text_of d); [|discriminate].
    rewrite Hs in Hb. cbn [negb] in Hb. rewrite andb_false_r in Hb. discriminate.
  - unfold Forms.count. cbn [Forms.shipping Forms.billing].
    induction inputs as [|el inputs IH]; simpl; [lia|].
    rewrite !filter_app, !length_app.
    assert (List.length (filter Forms.is_shipping (Forms.visible el)) +
            List.length (filter Forms.is_billing (Forms.visible el)) <= 1)%nat.
    { unfold Forms.visible.
      destruct (Forms.is_displayed el) as [[|]|]; simpl; try lia.
      destruct (Forms.described el) as [d|]; simpl; try lia.
      unfold Forms.is_shipping, Forms.is_billing.
      destruct (Forms.text_of d); simpl; try lia.
      destruct (Forms.contains "ship" s), (Forms.contains "bill" s);
        simpl; lia. }
    lia.
Qed.

(** X27. The label of a field is read in the id, the name and the class
    put end to end, without regard to letter case or to where one
    attribute stops: two fields for which this text is the same, up to
    case, get the same label; a field that lacks one of the three raises
    TypeError and is skipped. *)
Theorem form_label_reads_joined_text :
  forall d d' : Forms.Desc,
    (Forms.text_of d = None -> Forms.label d = Raise TypeError) /\
    (forall t, Forms.text_of d = Some t -> Forms.text_of d' = Some t ->
               Forms.label d = Forms.label d' /\
               exists l, Forms.label d = Ok l /\
                         (l = "shipping" \/ l = "billing" \/ l = "unknown")).
Proof.
  intros d d'. rewrite !forms_label_cases. split.
  - intros ->. reflexivity.
  - intros t -> ->. split; [reflexivity|].
    destruct (Forms.contains "ship" t); [eauto|].
    destruct (Forms.contains "bill" t); eauto.
Qed.

(** The id cash and the name IPv4 read cashipv4: the field is a shipping
    field, like one whose id is Shipping. *)
Lemma form_label_reads_joined_text_witness :
  Forms.label (Forms.field "cash" "IPv4" "") =
  Forms.label (Forms.field "ca" "shipv4" "") /\
  Forms.label (Forms.field "cash" "IPv4" "") = Ok "shipping".
Proof.
  destruct (proj2 (form_label_reads_joined_text
                     (Forms.field "cash" "IPv4" "") (Forms.field "ca" "shipv4" ""))
              "cashipv4" eq_refl eq_refl) as [H _].
  split; [exact H | reflexivity].
Defined.
